(** * Dev-to-apk (Flappy Bird): the simulation core, embedded and verified

    The game logic of [js/bird.js], [js/pipe.js], [js/score.js],
    [js/input.js] and [js/game-states.js] is embedded as Rocq functions,
    one module per JavaScript class, with the source's names.

    Conventions of the embedding:
    - a JavaScript number is an exact rational ([Qc], canonical fractions,
      so that [=] is numeric equality); every constant of the source
      (0.5, 0.1, 0.3, ...) is the fraction it denotes.  Positions,
      velocities and sizes are computed exactly; the one sum whose
      binary64 rounding decides what the program does, the pipe
      identifier [Date.now() + Math.random()], is rounded to the nearest
      binary64 number ([JS.binary64]).  NaN and the infinities are not
      modelled.  Scores and clock readings, which the source only ever
      fills with integers, are [Z];
    - a method that mutates [this] is a function from the old object to the
      new one, returning a pair when the method also returns a value;
    - [Math.random()] and [Date.now()] are inputs of the methods that call
      them, in call order;
    - configuration fields that the constructor assigns and no method
      writes again (sizes, speeds, physics constants) are constants of the
      class's module;
    - canvas drawing, DOM classes and sounds are not part of the state. *)

From Stdlib Require Import ZArith QArith Qcanon Qround Lqa Lia.
From Stdlib.Strings Require Ascii String.
From Stdlib Require Import Decimal DecimalString DecimalPos.
From stdpp Require Import base decidable option numbers list sorting gmap strings.

Set Warnings "-clear-no-such-hyp".

Local Open Scope Qc_scope.

(** ** JavaScript numbers *)

Module JS.

(** An integer literal of the source. *)
Definition int (z : Z) : Qc := Qc_of_Z z.

(** A decimal literal of the source, as a fraction. *)
Definition ratio (a : Z) (b : positive) : Qc := Q2Qc (a # b).

(** [Math.min(a, b)] and [Math.max(a, b)]. *)
Definition min (a b : Qc) : Qc := if bool_decide (b < a) then b else a.
Definition max (a b : Qc) : Qc := if bool_decide (a < b) then b else a.

(** *** Rounding to binary64

    The result of a binary64 operation is the exact result rounded to the
    nearest binary64 number, to the one with an even significand when two
    are as near (IEEE 754, round to nearest, ties to even). *)

(** The integer nearest to a rational, the even one on a tie. *)
Definition roundHalfEven (q : Q) : Z :=
  let f := Qfloor q in
  match (q - inject_Z f ?= 1 # 2)%Q with
  | Lt => f
  | Gt => (f + 1)%Z
  | Eq => if Z.even f then f else (f + 1)%Z
  end.

(** The exponent [e] of the binade of a positive rational,
    [2^e <= q < 2^(e+1)], and -1022 for the smaller ones (the subnormal
    numbers share the spacing of the lowest binade). *)
Definition exponent (q : Q) : Z :=
  Z.max (-1022)
    (if Qle_bool 1 q then Z.log2 (Qfloor q)
     else (- Z.log2_up (Qceiling (/ q)))%Z).

(** The spacing of the binary64 numbers of the binade of exponent [e]:
    [2^(e - 52)], the significand having 53 bits. *)
Definition ulp (e : Z) : Q :=
  if (52 <=? e)%Z then inject_Z (2 ^ (e - 52))
  else (/ inject_Z (2 ^ (52 - e)))%Q.

(** The binary64 number nearest to a positive rational. *)
Definition nearest (q : Q) : Q :=
  let u := ulp (exponent q) in
  (inject_Z (roundHalfEven (q / u)) * u)%Q.

(** The binary64 number nearest to a rational of magnitude below 2^1024
    (above, the result is an infinity, which no value of the game
    reaches). *)
Definition binary64 (q : Qc) : Qc :=
  if bool_decide (0 < q) then Q2Qc (nearest q)
  else if bool_decide (q < 0) then - Q2Qc (nearest (- q))
  else 0.

End JS.

(** ** js/bird.js *)

Module Bird.

Record t : Type := mk {
  x : Qc;
  y : Qc;
  velocity : Qc;
  rotation : Qc;
  targetRotation : Qc
}.

(** Fields fixed by the constructor. *)
Definition width : Qc := JS.int 20.
Definition height : Qc := JS.int 20.
Definition gravity : Qc := JS.ratio 1 2.
Definition jumpVelocity : Qc := JS.int (-8).
Definition maxFallVelocity : Qc := JS.int 12.

(** [new Bird(x, y)] *)
Definition new (x0 y0 : Qc) : t :=
  {| x := x0; y := y0; velocity := 0; rotation := 0; targetRotation := 0 |}.

(** [update()]: gravity, fall-speed limit, move, top-of-screen clamp,
    rotation easing. *)
Definition update (b : t) : t :=
  let v1 := velocity b + gravity in
  let v2 := if bool_decide (maxFallVelocity < v1) then maxFallVelocity else v1 in
  let y1 := y b + v2 in
  let y2 := if bool_decide (y1 < 0) then 0 else y1 in
  let v3 := if bool_decide (y1 < 0) then 0 else v2 in
  let target := JS.min (JS.max (v3 * JS.int 3) (JS.int (-30))) (JS.int 90) in
  {| x := x b;
     y := y2;
     velocity := v3;
     rotation := rotation b + (target - rotation b) * JS.ratio 1 10;
     targetRotation := target |}.

(** [jump()] *)
Definition jump (b : t) : t :=
  {| x := x b; y := y b; velocity := jumpVelocity;
     rotation := JS.int (-20); targetRotation := targetRotation b |}.

(** The box returned by [getBounds()]: top-left corner and size. *)
Module Bounds.
Record t : Type := mk { x : Qc; y : Qc; width : Qc; height : Qc }.
End Bounds.

(** [getBounds()] *)
Definition getBounds (b : t) : Bounds.t :=
  {| Bounds.x := x b - width / JS.int 2;
     Bounds.y := y b - height / JS.int 2;
     Bounds.width := width;
     Bounds.height := height |}.

(** [isGrounded(canvasHeight)] *)
Definition isGrounded (canvasHeight : Qc) (b : t) : bool :=
  bool_decide (canvasHeight - JS.int 50 <= y b + height / JS.int 2).

(** [isOutOfBounds(canvasHeight)] *)
Definition isOutOfBounds (canvasHeight : Qc) (b : t) : bool :=
  bool_decide (canvasHeight < y b - height / JS.int 2).

(** [reset(x, y)] *)
Definition reset (x0 y0 : Qc) (b : t) : t :=
  {| x := x0; y := y0; velocity := 0; rotation := 0; targetRotation := 0 |}.

(** [bounce()] *)
Definition bounce (b : t) : t :=
  {| x := x b; y := y b; velocity := - velocity b * JS.ratio 3 10;
     rotation := 0; targetRotation := targetRotation b |}.

(** A call made on the bird from outside, for interleavings of [update]
    and [jump]. *)
Inductive call : Type := Update | Jump.

Definition step (c : call) (b : t) : t :=
  match c with
  | Update => update b
  | Jump => jump b
  end.

(** The states after each call of a sequence, in order. *)
Fixpoint trace (cs : list call) (b : t) : list t :=
  match cs with
  | [] => []
  | c :: cs' => step c b :: trace cs' (step c b)
  end.

(** The range in which the game keeps the bird's velocity and rotation. *)
Definition in_range (s : t) : Prop :=
  jumpVelocity <= velocity s /\ velocity s <= maxFallVelocity
  /\ JS.int (-30) <= rotation s /\ rotation s <= JS.int 90.

(** Closed forms of a flight of [k] ticks that meets neither the top of
    the screen nor the fall-speed limit, from velocity [v] at height
    [y0]: the velocity gains [gravity] per tick and the height adds up
    the velocities (forward Euler). *)
Definition flight_velocity (v : Qc) (k : nat) : Qc :=
  v + JS.int (Z.of_nat k) * gravity.

Definition flight_y (y0 v : Qc) (k : nat) : Qc :=
  y0 + JS.int (Z.of_nat k) * v
  + JS.int (Z.of_nat k) * (JS.int (Z.of_nat k) + 1) * JS.ratio 1 4.

End Bird.

(** ** js/score.js *)

Module ScoreManager.

(** A score popup queued by [addScoreAnimation]. *)
Record ScorePopup : Type := mkPopup {
  popX : Qc; popY : Qc; opacity : Qc; scale : Qc; startTime : Z
}.

Record t : Type := mk {
  currentScore : Z;
  highScore : Z;
  scoreAnimations : list ScorePopup
}.

Definition scorePerPipe : Z := 1.

(** [resetScore()] *)
Definition resetScore (s : t) : t :=
  {| currentScore := 0; highScore := highScore s; scoreAnimations := [] |}.

(** [isNewHighScore()]: [a > b || a === b && a > 0], where [&&] binds
    tighter than [||]. *)
Definition isNewHighScore (s : t) : bool :=
  bool_decide (highScore s < currentScore s)%Z
  || (bool_decide (currentScore s = highScore s)
      && bool_decide (0 < currentScore s)%Z).

(** The popup pushed by [addScoreAnimation], with [now] the value of
    [Date.now()]; its text is always ['+1']. *)
Definition newPopup (now : Z) : ScorePopup :=
  {| popX := JS.int 160; popY := JS.int 100; opacity := 1;
     scale := JS.ratio 1 2; startTime := now |}.

(** [incrementScore()], as far as the object goes; the write to
    [localStorage] that goes with a new high score is
    [ScoreStorage.incrementScore]. *)
Definition incrementScore (now : Z) (s : t) : t :=
  let current := (currentScore s + scorePerPipe)%Z in
  {| currentScore := current;
     highScore := if bool_decide (highScore s < current)%Z then current
                  else highScore s;
     scoreAnimations := scoreAnimations s ++ [newPopup now] |}.

(** The popup durations set by the constructor, in milliseconds. *)
Definition scorePopupDuration : Z := 1000.

(** One popup in the loop of [updateAnimations]: [None] when it is
    spliced out, else the popup moved up and faded. *)
Definition animate (now : Z) (a : ScorePopup) : option ScorePopup :=
  let progress := JS.int (now - startTime a) / JS.int scorePopupDuration in
  if bool_decide (1 <= progress) then None
  else Some {| popX := popX a; popY := popY a - 1;
               opacity := 1 - progress;
               scale := JS.ratio 1 2 + progress * JS.ratio 1 2;
               startTime := startTime a |}.

(** The loop of [updateAnimations], from the last index down. *)
Fixpoint updateAnimations_loop (now : Z) (l : list ScorePopup) : list ScorePopup :=
  match l with
  | [] => []
  | a :: rest =>
      let rest' := updateAnimations_loop now rest in
      match animate now a with
      | None => rest'
      | Some a' => a' :: rest'
      end
  end.

(** [updateAnimations(ctx)], with [now] the value of [Date.now()]. *)
Definition updateAnimations (now : Z) (s : t) : t :=
  {| currentScore := currentScore s; highScore := highScore s;
     scoreAnimations := updateAnimations_loop now (scoreAnimations s) |}.

End ScoreManager.

(** ** js/pipe.js *)

Module PipeManager.

(** The object literal built by [generatePipe]. *)
Record Pipe : Type := mkPipe {
  x : Qc;
  gapY : Qc;
  scored : bool;
  id : Qc
}.

Record t : Type := mk {
  canvasWidth : Qc;
  canvasHeight : Qc;
  pipes : list Pipe;
  scoredPipes : gset Qc
}.

(** Pipe configuration, fixed by the constructor. *)
Definition pipeWidth : Qc := JS.int 40.
Definition gapSize : Qc := JS.int 100.
Definition pipeSpeed : Qc := JS.int 2.
Definition pipeSpacing : Qc := JS.int 200.
Definition minGapHeight : Qc := JS.int 120.

(** [new PipeManager(canvasWidth, canvasHeight)] *)
Definition new (w h : Qc) : t :=
  {| canvasWidth := w; canvasHeight := h; pipes := []; scoredPipes := ∅ |}.

(** What one call of [generatePipe] reads from the host, in call order:
    [Math.random()] for the gap, then [Date.now()] and [Math.random()]
    for the identifier.  The identifier is their binary64 sum. *)
Record Env : Type := mkEnv {
  gapDraw : Qc;
  now : Z;
  idDraw : Qc
}.

Definition maxHeight (pm : t) : Qc :=
  canvasHeight pm - minGapHeight - gapSize - JS.int 50.

(** [generatePipe()]: the new pipe is pushed at the end and returned. *)
Definition generatePipe (e : Env) (pm : t) : t * Pipe :=
  let minHeight := minGapHeight in
  let pipe :=
    {| x := canvasWidth pm;
       gapY := minHeight + gapDraw e * (maxHeight pm - minHeight);
       scored := false;
       id := JS.binary64 (JS.int (now e) + idDraw e) |} in
  ({| canvasWidth := canvasWidth pm; canvasHeight := canvasHeight pm;
      pipes := pipes pm ++ [pipe]; scoredPipes := scoredPipes pm |}, pipe).

(** [pipe.x -= this.pipeSpeed] *)
Definition move (p : Pipe) : Pipe :=
  {| x := x p - pipeSpeed; gapY := gapY p; scored := scored p; id := id p |}.

(** The removal test of [update]: [pipe.x + this.pipeWidth < 0]. *)
Definition offScreen (p : Pipe) : bool := bool_decide (x p + pipeWidth < 0).

(** The loop of [update].  The source walks the array from the last index
    down to the first and splices in place, so the pipes behind the
    current one are dealt with first and the indices in front of it do
    not shift: the recursive call comes before the head is handled. *)
Fixpoint update_loop (ps : list Pipe) (sp : gset Qc) : list Pipe * gset Qc :=
  match ps with
  | [] => ([], sp)
  | p :: rest =>
      let '(rest', sp') := update_loop rest sp in
      let p' := move p in
      if offScreen p' then (rest', sp' ∖ {[ id p' ]}) else (p' :: rest', sp')
  end.

(** The test guarding the generation at the end of [update]. *)
Definition needsPipe (pm : t) : bool :=
  match last (pipes pm) with
  | None => true
  | Some p => bool_decide (x p < canvasWidth pm - pipeSpacing)
  end.

(** [update()] *)
Definition update (e : Env) (pm : t) : t :=
  let '(ps, sp) := update_loop (pipes pm) (scoredPipes pm) in
  let pm1 := {| canvasWidth := canvasWidth pm; canvasHeight := canvasHeight pm;
                pipes := ps; scoredPipes := sp |} in
  if needsPipe pm1 then fst (generatePipe e pm1) else pm1.

(** [checkPipeCollision(birdBounds, pipe)] *)
Definition checkPipeCollision (birdBounds : Bird.Bounds.t) (p : Pipe) : bool :=
  if bool_decide (x p < Bird.Bounds.x birdBounds + Bird.Bounds.width birdBounds)
     && bool_decide (Bird.Bounds.x birdBounds < x p + pipeWidth)
  then bool_decide (Bird.Bounds.y birdBounds < gapY p)
       || bool_decide (gapY p + gapSize
                       < Bird.Bounds.y birdBounds + Bird.Bounds.height birdBounds)
  else false.

(** [checkCollision(bird)] *)
Definition checkCollision (bird : Bird.t) (pm : t) : bool :=
  existsb (checkPipeCollision (Bird.getBounds bird)) (pipes pm).

(** The test of the scoring loop:
    [birdX > pipe.x + this.pipeWidth && !this.scoredPipes.has(pipe.id)]. *)
Definition scores (birdX : Qc) (sp : gset Qc) (p : Pipe) : bool :=
  bool_decide (x p + pipeWidth < birdX) && negb (bool_decide (id p ∈ sp)).

(** The loop of [checkScore], with its [break]. *)
Fixpoint checkScore_loop (birdX : Qc) (sp : gset Qc) (ps : list Pipe)
  : gset Qc * bool :=
  match ps with
  | [] => (sp, false)
  | p :: rest =>
      if scores birdX sp p then ({[ id p ]} ∪ sp, true)
      else checkScore_loop birdX sp rest
  end.

(** [checkScore(bird)] *)
Definition checkScore (bird : Bird.t) (pm : t) : t * bool :=
  let '(sp, scored) := checkScore_loop (Bird.x bird) (scoredPipes pm) (pipes pm) in
  ({| canvasWidth := canvasWidth pm; canvasHeight := canvasHeight pm;
      pipes := pipes pm; scoredPipes := sp |}, scored).

(** [reset()] *)
Definition reset (pm : t) : t :=
  {| canvasWidth := canvasWidth pm; canvasHeight := canvasHeight pm;
     pipes := []; scoredPipes := ∅ |}.

(** [getNextPipe(birdX)] *)
Definition getNextPipe (birdX : Qc) (pm : t) : option Pipe :=
  List.find (fun p => bool_decide (birdX < x p + pipeWidth)) (pipes pm).

(** [n] successive calls of [update]; the [k]-th call (counting from 0)
    reads [envs k] when it generates. *)
Fixpoint run (envs : nat -> Env) (n : nat) (pm : t) : t :=
  match n with
  | O => pm
  | S k => update (envs k) (run envs k pm)
  end.

(** The pipe with identifier [i] is in the field, at abscissa [c]. *)
Definition at_x (i c : Qc) (pm : t) : Prop :=
  Exists (fun p => id p = i /\ x p = c) (pipes pm).

(** Some pipe of the field has identifier [i]. *)
Definition present (i : Qc) (pm : t) : Prop :=
  Exists (fun p => id p = i) (pipes pm).

(** The field holds a pipe with identifier [i], and every pipe with that
    identifier is at abscissa [z]. *)
Definition tracked (i : Qc) (z : Z) (pm : t) : Prop :=
  present i pm /\ forall q, q ∈ pipes pm -> id q = i -> x q = JS.int z.

(** From [pm], exactly [n] calls of [update] are needed to get the pipe
    [i] out of the field: it is there after each of the first [n - 1]
    calls and gone after the [n]-th. *)
Definition removed_after (envs : nat -> Env) (pm : t) (i : Qc) (n : nat) : Prop :=
  (forall k, (k < n)%nat -> present i (run envs k pm))
  /\ ~ present i (run envs n pm).

(** [getFirstPipe()] *)
Definition getFirstPipe (pm : t) : option Pipe := head (pipes pm).

(** [hasVisiblePipes()] *)
Definition hasVisiblePipes (pm : t) : bool :=
  bool_decide (0 < length (pipes pm))%nat.

(** The calls that change a pipe manager. *)
Inductive action : Type :=
  | Generate (e : Env)
  | Update (e : Env)
  | CheckScore (bird : Bird.t)
  | Reset.

Definition perform (pm : t) (a : action) : t :=
  match a with
  | Generate e => (generatePipe e pm).1
  | Update e => update e pm
  | CheckScore bird => (checkScore bird pm).1
  | Reset => reset pm
  end.

(** Pipe [q] is more than the pipe spacing to the right of pipe [p]. *)
Definition spaced (p q : Pipe) : Prop := x p + pipeSpacing < x q.

End PipeManager.

(** ** js/input.js *)

Module InputHandler.

(** A registered callback acts on the world [W] it closes over.  The
    source calls each callback inside [try]/[catch], so the dispatch runs
    to the end of the list whatever a callback does: a callback is the
    state it leaves behind. *)
Record t (W : Type) : Type := mk {
  callbacks : gmap string (list (W -> W));
  isJumping : bool;
  lastJumpTime : Z;
  touchStartY : Qc;
  isTouching : bool
}.
Arguments mk {W}.
Arguments callbacks {W}.
Arguments isJumping {W}.
Arguments lastJumpTime {W}.
Arguments touchStartY {W}.
Arguments isTouching {W}.

(** [this.jumpCooldown = 100], in milliseconds. *)
Definition jumpCooldown : Z := 100.

Definition noCallbacks {W : Type} : gmap string (list (W -> W)) :=
  <["jump" := []]> (<["gameStart" := []]> (<["gameRestart" := []]> ∅)).

(** [new InputHandler()] *)
Definition new {W : Type} : t W :=
  {| callbacks := noCallbacks; isJumping := false; lastJumpTime := 0;
     touchStartY := 0; isTouching := false |}.

(** [on(event, callback)]: an unknown event name is ignored. *)
Definition on {W : Type} (event : string) (cb : W -> W) (h : t W) : t W :=
  match callbacks h !! event with
  | Some l =>
      {| callbacks := <[event := l ++ [cb]]> (callbacks h);
         isJumping := isJumping h; lastJumpTime := lastJumpTime h;
         touchStartY := touchStartY h; isTouching := isTouching h |}
  | None => h
  end.

(** [triggerCallbacks(event)]: the callbacks of the event, in
    registration order. *)
Definition triggerCallbacks {W : Type} (event : string) (h : t W) (w : W) : W :=
  match callbacks h !! event with
  | Some l => foldl (fun w' cb => cb w') w l
  | None => w
  end.

(** [handleJump()], with [now] the value of [Date.now()].  The timer that
    clears [isJumping] 100 ms later belongs to the host; no code reads
    the flag. *)
Definition handleJump {W : Type} (now : Z) (h : t W) (w : W) : t W * W :=
  if bool_decide (now - lastJumpTime h < jumpCooldown)%Z then (h, w)
  else
    ({| callbacks := callbacks h; isJumping := true; lastJumpTime := now;
        touchStartY := touchStartY h; isTouching := isTouching h |},
     triggerCallbacks "jump" h w).

(** [reset()] *)
Definition reset {W : Type} (h : t W) : t W :=
  {| callbacks := callbacks h; isJumping := false; lastJumpTime := 0;
     touchStartY := 0; isTouching := false |}.

(** Jump inputs arriving at the clock readings [ts], in order. *)
Fixpoint handleJumps {W : Type} (ts : list Z) (h : t W) (w : W) : t W * W :=
  match ts with
  | [] => (h, w)
  | now :: ts' => let '(h', w') := handleJump now h w in handleJumps ts' h' w'
  end.

(** The rate limit in the words of the specification, for inputs at the
    clock readings [ts] when the last accepted input was at [last]: an
    input is accepted when at least the cooldown has elapsed since the
    last accepted one, and an input that is not accepted is dropped. *)
Fixpoint accepted_spec (last : Z) (ts : list Z) : list bool :=
  match ts with
  | [] => []
  | now :: ts' =>
      if bool_decide (jumpCooldown <= now - last)%Z
      then true :: accepted_spec now ts'
      else false :: accepted_spec last ts'
  end.

(** The time of the last accepted input after [ts], by the same rule. *)
Fixpoint last_accepted_spec (last : Z) (ts : list Z) : Z :=
  match ts with
  | [] => last
  | now :: ts' =>
      if bool_decide (jumpCooldown <= now - last)%Z
      then last_accepted_spec now ts'
      else last_accepted_spec last ts'
  end.

(** How many of the inputs the rule accepts. *)
Definition invocations_spec (last : Z) (ts : list Z) : nat :=
  length (filter (fun b : bool => b = true) (accepted_spec last ts)).

(** [isJumpOnCooldown()], with [now] the value of [Date.now()]. *)
Definition isJumpOnCooldown {W : Type} (now : Z) (h : t W) : bool :=
  bool_decide (now - lastJumpTime h < jumpCooldown)%Z.

(** [destroy()] *)
Definition destroy {W : Type} (h : t W) : t W :=
  {| callbacks := noCallbacks; isJumping := isJumping h;
     lastJumpTime := lastJumpTime h; touchStartY := touchStartY h;
     isTouching := isTouching h |}.

(** The clock readings, among [ts], of the jump inputs that
    [handleJump] lets through: those that arrive when
    [isJumpOnCooldown] is false, the handler moving on with each input. *)
Fixpoint jumpTimes {W : Type} (ts : list Z) (h : t W) (w : W) : list Z :=
  match ts with
  | [] => []
  | now :: ts' =>
      let '(h', w') := handleJump now h w in
      if isJumpOnCooldown now h then jumpTimes ts' h' w'
      else now :: jumpTimes ts' h' w'
  end.

End InputHandler.

(** ** Strings and [localStorage]

    A string is a sequence of code units below 256.  Numbers written to
    the storage are integers, printed in decimal. *)

Module JSText.

Import Stdlib.Strings.Ascii Stdlib.Strings.String.
Local Open Scope string_scope.

(** The white space and line terminators below 256 that [parseInt]
    skips: TAB, LF, VT, FF, CR, space and no-break space. *)
Definition isWhiteSpace (c : ascii) : bool :=
  let n := nat_of_ascii c in
  ((9 <=? n) && (n <=? 13) || (n =? 32) || (n =? 160))%nat.

Definition isDigit (c : ascii) : bool :=
  let n := nat_of_ascii c in ((48 <=? n) && (n <=? 57))%nat.

Fixpoint trimStart (s : string) : string :=
  match s with
  | String c s' => if isWhiteSpace c then trimStart s' else s
  | EmptyString => EmptyString
  end.

(** The longest prefix made of decimal digits. *)
Fixpoint digits (s : string) : string :=
  match s with
  | String c s' => if isDigit c then String c (digits s') else EmptyString
  | EmptyString => EmptyString
  end.

(** [parseInt(s, 10)]; [None] is NaN. *)
Definition parseInt (s : string) : option Z :=
  let s1 := trimStart s in
  let negative := match s1 with String "-" _ => true | _ => false end in
  let s2 := match s1 with
            | String "-" r => r
            | String "+" r => r
            | _ => s1
            end in
  match digits s2 with
  | EmptyString => None
  | ds =>
      match NilEmpty.uint_of_string ds with
      | Some d => Some (if negative then - Z.of_uint d else Z.of_uint d)%Z
      | None => None
      end
  end.

(** [n.toString()] for an integer [n]. *)
Definition toString (z : Z) : string := NilZero.string_of_int (Z.to_int z).

(** [String(NaN)] *)
Definition NaN : string := "NaN".

End JSText.

Module LocalStorage.

(** The items of [localStorage], and whether access to it throws (storage
    disabled or denied). *)
Record t : Type := mk {
  items : gmap string string;
  broken : bool
}.

(** [getItem(key)]: [None] when the call throws, else the item or
    [null]. *)
Definition getItem (key : string) (ls : t) : option (option string) :=
  if broken ls then None else Some (items ls !! key).

(** [setItem(key, value)]: [None] when the call throws. *)
Definition setItem (key value : string) (ls : t) : option t :=
  if broken ls then None
  else Some {| items := <[key := value]> (items ls); broken := false |}.

End LocalStorage.

(** The methods of [ScoreManager] that reach [localStorage]. *)
Module ScoreStorage.

Definition highScoreKey : string := "flappyBirdHighScore".
Definition gamesPlayedKey : string := "flappyBirdGamesPlayed".

(** [loadHighScore()]: [parseInt(saved, 10) || 0] when there is an item,
    0 when reading throws. *)
Definition loadHighScore (ls : LocalStorage.t) (s : ScoreManager.t) : ScoreManager.t :=
  match LocalStorage.getItem highScoreKey ls with
  | Some (Some saved) =>
      {| ScoreManager.currentScore := ScoreManager.currentScore s;
         ScoreManager.highScore := default 0%Z (JSText.parseInt saved);
         ScoreManager.scoreAnimations := ScoreManager.scoreAnimations s |}
  | Some None => s
  | None =>
      {| ScoreManager.currentScore := ScoreManager.currentScore s;
         ScoreManager.highScore := 0;
         ScoreManager.scoreAnimations := ScoreManager.scoreAnimations s |}
  end.

(** [saveHighScore()]: a write that throws is swallowed. *)
Definition saveHighScore (s : ScoreManager.t) (ls : LocalStorage.t) : LocalStorage.t :=
  default ls
    (LocalStorage.setItem highScoreKey
       (JSText.toString (ScoreManager.highScore s)) ls).

(** [new ScoreManager()] *)
Definition new (ls : LocalStorage.t) : ScoreManager.t :=
  loadHighScore ls (ScoreManager.mk 0 0 []).

(** [incrementScore()], with the storage: the high score is saved when
    the current score has gone past it. *)
Definition incrementScore (now : Z) (st : ScoreManager.t * LocalStorage.t)
  : ScoreManager.t * LocalStorage.t :=
  let s' := ScoreManager.incrementScore now st.1 in
  if bool_decide (ScoreManager.highScore st.1 < ScoreManager.currentScore s')%Z
  then (s', saveHighScore s' st.2)
  else (s', st.2).

(** [setHighScore(score)] *)
Definition setHighScore (score : Z) (st : ScoreManager.t * LocalStorage.t)
  : ScoreManager.t * LocalStorage.t :=
  let s' := {| ScoreManager.currentScore := ScoreManager.currentScore st.1;
               ScoreManager.highScore := Z.max 0 score;
               ScoreManager.scoreAnimations := ScoreManager.scoreAnimations st.1 |} in
  (s', saveHighScore s' st.2).

(** [getTotalGamesPlayed()]: [None] is NaN; an absent or empty item and
    a read that throws count as 0. *)
Definition getTotalGamesPlayed (ls : LocalStorage.t) : option Z :=
  match LocalStorage.getItem gamesPlayedKey ls with
  | Some (Some gamesPlayed) =>
      if bool_decide (gamesPlayed = EmptyString) then Some 0%Z
      else JSText.parseInt gamesPlayed
  | Some None => Some 0%Z
  | None => Some 0%Z
  end.

(** [incrementGamesPlayed()] *)
Definition incrementGamesPlayed (ls : LocalStorage.t) : LocalStorage.t :=
  let text := match getTotalGamesPlayed ls with
              | Some n => JSText.toString (n + 1)
              | None => JSText.NaN
              end in
  default ls (LocalStorage.setItem gamesPlayedKey text ls).

End ScoreStorage.

(** ** js/game-states.js *)

Module GameStateManager.

(** [this.STATES] *)
Inductive State : Type := MENU | PLAYING | GAME_OVER.

#[global] Instance State_eq_dec : EqDecision State.
Proof. solve_decision. Defined.

(** The manager together with the objects it is given, and the
    [localStorage] its score manager reads and writes. *)
Record t : Type := mk {
  currentState : State;
  bird : Bird.t;
  pipeManager : PipeManager.t;
  scoreManager : ScoreManager.t;
  collisionPoint : option (Qc * Qc);
  menuBirdY : Qc;
  menuBirdVelocity : Qc;
  storage : LocalStorage.t
}.

(** [resetGameObjects()] *)
Definition resetGameObjects (g : t) : t :=
  {| currentState := currentState g;
     bird := Bird.reset (JS.int 80) (JS.int 200) (bird g);
     pipeManager := PipeManager.reset (pipeManager g);
     scoreManager := ScoreManager.resetScore (scoreManager g);
     collisionPoint := None;
     menuBirdY := menuBirdY g;
     menuBirdVelocity := menuBirdVelocity g;
     storage := storage g |}.

(** [enterMenuState()] *)
Definition enterMenuState (g : t) : t :=
  let g1 := resetGameObjects g in
  {| currentState := currentState g1; bird := bird g1;
     pipeManager := pipeManager g1; scoreManager := scoreManager g1;
     collisionPoint := collisionPoint g1;
     menuBirdY := JS.int 100; menuBirdVelocity := 0;
     storage := storage g1 |}.

(** [enterPlayingState()]: the score is reset and the games-played
    counter incremented, by [ScoreManager.incrementGamesPlayed] in the
    storage. *)
Definition enterPlayingState (g : t) : t :=
  {| currentState := currentState g; bird := bird g;
     pipeManager := pipeManager g;
     scoreManager := ScoreManager.resetScore (scoreManager g);
     collisionPoint := collisionPoint g;
     menuBirdY := menuBirdY g; menuBirdVelocity := menuBirdVelocity g;
     storage := ScoreStorage.incrementGamesPlayed (storage g) |}.

(** [enterGameOverState()] only touches the screen and the sound. *)
Definition enterGameOverState (g : t) : t := g.

(** [setState(newState)] *)
Definition setState (newState : State) (g : t) : t :=
  let g1 := {| currentState := newState; bird := bird g;
               pipeManager := pipeManager g; scoreManager := scoreManager g;
               collisionPoint := collisionPoint g;
               menuBirdY := menuBirdY g; menuBirdVelocity := menuBirdVelocity g;
               storage := storage g |} in
  match newState with
  | MENU => enterMenuState g1
  | PLAYING => enterPlayingState g1
  | GAME_OVER => enterGameOverState g1
  end.

(** [startGame()] and [restartGame()] *)
Definition startGame (g : t) : t := setState PLAYING g.
Definition restartGame (g : t) : t := setState PLAYING (resetGameObjects g).

(** The three callbacks registered by [setupInputCallbacks]. *)
Definition onGameStart (g : t) : t :=
  if bool_decide (currentState g = MENU) then startGame g else g.

Definition onGameRestart (g : t) : t :=
  if bool_decide (currentState g = GAME_OVER) then restartGame g else g.

Definition onJump (g : t) : t :=
  if bool_decide (currentState g = PLAYING) then
    {| currentState := currentState g; bird := Bird.jump (bird g);
       pipeManager := pipeManager g; scoreManager := scoreManager g;
       collisionPoint := collisionPoint g;
       menuBirdY := menuBirdY g; menuBirdVelocity := menuBirdVelocity g;
       storage := storage g |}
  else g.

(** [setupInputCallbacks()] *)
Definition setupInputCallbacks (h : InputHandler.t t) : InputHandler.t t :=
  InputHandler.on "jump" onJump
    (InputHandler.on "gameRestart" onGameRestart
       (InputHandler.on "gameStart" onGameStart h)).

(** [new GameStateManager(canvas, bird, pipeManager, scoreManager,
    inputHandler)]: the manager in its initial state and the input
    handler with the callbacks bound. *)
Definition new (b : Bird.t) (pm : PipeManager.t) (sm : ScoreManager.t)
    (ls : LocalStorage.t) (h : InputHandler.t t) : t * InputHandler.t t :=
  ({| currentState := MENU; bird := b; pipeManager := pm; scoreManager := sm;
      collisionPoint := None; menuBirdY := JS.int 100; menuBirdVelocity := 0;
      storage := ls |},
   setupInputCallbacks h).

(** What one frame reads from the host: the draw that decides whether
    the menu spawns a pipe, what [generatePipe] reads for that pipe and
    for the pipe that [PipeManager.update] may add, and [Date.now()]
    during [update] and during [render]. *)
Record Frame : Type := mkFrame {
  spawnDraw : Qc;
  spawnEnv : PipeManager.Env;
  pipeEnv : PipeManager.Env;
  clock : Z;
  renderClock : Z
}.

(** [checkCollisions()], with [canvasHeight] the height of the canvas
    the manager was given. *)
Definition checkCollisions (canvasHeight : Qc) (g : t) : t * bool :=
  let hitAt :=
    {| currentState := currentState g; bird := bird g;
       pipeManager := pipeManager g; scoreManager := scoreManager g;
       collisionPoint := Some (Bird.x (bird g), Bird.y (bird g));
       menuBirdY := menuBirdY g; menuBirdVelocity := menuBirdVelocity g;
       storage := storage g |} in
  if PipeManager.checkCollision (bird g) (pipeManager g) then (hitAt, true)
  else if Bird.isGrounded canvasHeight (bird g) then (hitAt, true)
  else if Bird.isOutOfBounds canvasHeight (bird g) then (g, true)
  else (g, false).

(** [updateMenuState(deltaTime)] *)
Definition updateMenuState (f : Frame) (g : t) : t :=
  let v := menuBirdVelocity g + JS.ratio 3 10 in
  let y := menuBirdY g + v in
  let bounced := bool_decide (JS.int 150 < y) in
  let pm := if bool_decide (spawnDraw f < JS.ratio 1 100)
            then (PipeManager.generatePipe (spawnEnv f) (pipeManager g)).1
            else pipeManager g in
  {| currentState := currentState g; bird := bird g;
     pipeManager := PipeManager.update (pipeEnv f) pm;
     scoreManager := scoreManager g;
     collisionPoint := collisionPoint g;
     menuBirdY := if bounced then JS.int 150 else y;
     menuBirdVelocity := if bounced then JS.int (-5) else v;
     storage := storage g |}.

(** [updatePlayingState(deltaTime)]; [incrementScore] saves a new high
    score in the storage. *)
Definition updatePlayingState (canvasHeight : Qc) (f : Frame) (g : t) : t :=
  let b := Bird.update (bird g) in
  let pm := PipeManager.update (pipeEnv f) (pipeManager g) in
  let scored := PipeManager.checkScore b pm in
  let counted :=
    if scored.2
    then ScoreStorage.incrementScore (clock f) (scoreManager g, storage g)
    else (scoreManager g, storage g) in
  let g1 :=
    {| currentState := currentState g; bird := b;
       pipeManager := scored.1;
       scoreManager := counted.1;
       collisionPoint := collisionPoint g;
       menuBirdY := menuBirdY g; menuBirdVelocity := menuBirdVelocity g;
       storage := counted.2 |} in
  let hit := checkCollisions canvasHeight g1 in
  if hit.2 then setState GAME_OVER hit.1 else hit.1.

(** What [updateGameOverState] does to the bird: it falls until it is on
    the ground, and bounces from then on. *)
Definition afterDeath (canvasHeight : Qc) (b : Bird.t) : Bird.t :=
  if negb (Bird.isGrounded canvasHeight b) then Bird.update b else Bird.bounce b.

(** [updateGameOverState(deltaTime)] *)
Definition updateGameOverState (canvasHeight : Qc) (f : Frame) (g : t) : t :=
  {| currentState := currentState g;
     bird := afterDeath canvasHeight (bird g);
     pipeManager := pipeManager g;
     scoreManager := ScoreManager.updateAnimations (clock f) (scoreManager g);
     collisionPoint := collisionPoint g;
     menuBirdY := menuBirdY g; menuBirdVelocity := menuBirdVelocity g;
     storage := storage g |}.

(** [update(deltaTime)] *)
Definition update (canvasHeight : Qc) (f : Frame) (g : t) : t :=
  match currentState g with
  | MENU => updateMenuState f g
  | PLAYING => updatePlayingState canvasHeight f g
  | GAME_OVER => updateGameOverState canvasHeight f g
  end.

(** [render()], as far as the state goes: outside the menu it runs
    [updateAnimations] once more. *)
Definition render (f : Frame) (g : t) : t :=
  match currentState g with
  | MENU => g
  | PLAYING | GAME_OVER =>
      {| currentState := currentState g; bird := bird g;
         pipeManager := pipeManager g;
         scoreManager := ScoreManager.updateAnimations (renderClock f) (scoreManager g);
         collisionPoint := collisionPoint g;
         menuBirdY := menuBirdY g; menuBirdVelocity := menuBirdVelocity g;
         storage := storage g |}
  end.

(** One turn of [Game.gameLoop]: [update], then [render]. *)
Definition frame (canvasHeight : Qc) (f : Frame) (g : t) : t :=
  render f (update canvasHeight f g).

(** [n] frames in a row, the [k]-th reading [fs k]. *)
Fixpoint frames (canvasHeight : Qc) (fs : nat -> Frame) (n : nat) (g : t) : t :=
  match n with
  | O => g
  | S k => frame canvasHeight (fs k) (frames canvasHeight fs k g)
  end.

End GameStateManager.

(** ** A concrete session

    The values of the end-to-end scenarios: the 320 x 568 canvas set up by
    [Game.setupCanvas], a first pipe generated into the empty field, and a
    host whose clock advances by 16 ms per frame. *)

Module Scenario.

Definition field0 : PipeManager.t := PipeManager.new (JS.int 320) (JS.int 568).

Definition env0 : PipeManager.Env :=
  {| PipeManager.gapDraw := JS.ratio 1 2;
     PipeManager.now := 1000;
     PipeManager.idDraw := JS.ratio 1 4 |}.

Definition envs (k : nat) : PipeManager.Env :=
  {| PipeManager.gapDraw := JS.ratio 1 4;
     PipeManager.now := 1016 + 16 * Z.of_nat k;
     PipeManager.idDraw := JS.ratio 3 4 |}.

Definition field1 : PipeManager.t := (PipeManager.generatePipe env0 field0).1.
Definition pipe1 : PipeManager.Pipe := (PipeManager.generatePipe env0 field0).2.

(** The bird where [Game.initializeGameObjects] puts it. *)
Definition bird0 : Bird.t := Bird.new (JS.int 80) (JS.int 200).

(** A field with two pipes entirely behind the bird (right edges at 50
    and 60, bird at x = 80), neither scored yet, and a third one ahead. *)
Definition pipeA : PipeManager.Pipe :=
  PipeManager.mkPipe (JS.int 10) (JS.int 150) false (JS.ratio 4001 4).
Definition pipeB : PipeManager.Pipe :=
  PipeManager.mkPipe (JS.int 20) (JS.int 200) false (JS.ratio 4067 4).
Definition pipeC : PipeManager.Pipe :=
  PipeManager.mkPipe (JS.int 220) (JS.int 180) false (JS.ratio 4131 4).

Definition crowded : PipeManager.t :=
  PipeManager.mk (JS.int 320) (JS.int 568) [pipeA; pipeB; pipeC] ∅.

(** An input handler with one subscriber that counts its invocations. *)
Definition counter : InputHandler.t nat :=
  InputHandler.on "jump" S InputHandler.new.

(** The game as [Game.initializeGameObjects] builds it, in the menu, with
    some pipes already in the field. *)
Definition score0 : ScoreManager.t := ScoreManager.mk 3 7 [].

(** A storage that works and holds that high score. *)
Definition storage0 : LocalStorage.t :=
  LocalStorage.mk {[ ScoreStorage.highScoreKey := "7"%string ]} false.

Definition menu : GameStateManager.t :=
  (GameStateManager.new bird0 crowded score0 storage0 InputHandler.new).1.

Definition input : InputHandler.t GameStateManager.t :=
  (GameStateManager.new bird0 crowded score0 storage0 InputHandler.new).2.

(** A frame of the host, the same on every turn, and the game just after
    the bird has hit something in mid-air. *)
Definition frame0 : GameStateManager.Frame :=
  GameStateManager.mkFrame (JS.ratio 1 2) env0 env0 5000 5008.

Definition crashed : GameStateManager.t :=
  GameStateManager.setState GameStateManager.GAME_OVER
    (GameStateManager.startGame menu).

End Scenario.

(** * Properties *)

(** ** Arithmetic on canonical rationals *)

(** Goals over [Qc] are sent to [Q], where [lra] decides them. *)
Ltac qc_unfold :=
  unfold JS.int, JS.ratio in *;
  unfold Qcminus in *;
  unfold Qcle, Qclt, Qcplus, Qcopp, Qcmult, Qc_of_Z, Q2Qc in *;
  cbn [this] in *;
  rewrite ?Qred_correct in *;
  unfold inject_Z in *.

Ltac qc_lra := try apply Qc_is_canon; qc_unfold; lra.

Lemma int_succ (n : nat) :
  JS.int (Z.of_nat (S n)) = JS.int (Z.of_nat n) + JS.int 1.
Proof.
  apply Qc_is_canon. qc_unfold.
  rewrite Nat2Z.inj_succ. unfold Z.succ, Qeq, Qplus. simpl. lia.
Qed.

Lemma int_nat_nonneg (n : nat) : 0 <= JS.int (Z.of_nat n).
Proof. qc_unfold. unfold Qle. simpl. lia. Qed.

(** ** The bird *)

Section BirdFacts.

Import Bird.

Lemma update_y_nonneg (b : t) : 0 <= y (update b).
Proof.
  unfold update; simpl. case_bool_decide; [qc_lra|].
  by apply Qcnot_lt_le.
Qed.

Lemma update_clamp (b : t) :
  y b + JS.min (velocity b + gravity) maxFallVelocity < 0 ->
  y (update b) = 0 /\ velocity (update b) = 0.
Proof.
  unfold update, JS.min; simpl. intros H.
  destruct (bool_decide (maxFallVelocity < velocity b + gravity));
    rewrite bool_decide_eq_true_2 by done; done.
Qed.

Lemma update_free_fall (b : t) :
  0 <= y b -> 0 <= velocity b ->
  y (update b) = y b + JS.min (velocity b + gravity) maxFallVelocity
  /\ velocity (update b) = JS.min (velocity b + gravity) maxFallVelocity.
Proof.
  intros Hy Hv. unfold update, JS.min; simpl.
  assert (Hlt : ~ y b +
    (if bool_decide (maxFallVelocity < velocity b + gravity)
     then maxFallVelocity else velocity b + gravity) < 0).
  { unfold maxFallVelocity, gravity in *.
    case_bool_decide; qc_lra. }
  rewrite !bool_decide_eq_false_2 by done. done.
Qed.

Lemma free_fall_velocity (b : t) (n : nat) :
  0 <= y b -> velocity b = 0 ->
  velocity (Nat.iter n update b)
    = JS.min (JS.int (Z.of_nat n) * gravity) maxFallVelocity
  /\ 0 <= y (Nat.iter n update b).
Proof.
  intros Hy Hv. induction n as [|n [IHv IHy]].
  - simpl. split; [|done]. rewrite Hv. unfold JS.min, maxFallVelocity, gravity.
    change (Z.of_nat 0) with 0%Z. case_bool_decide; qc_lra.
  - rewrite Nat.iter_succ. split; [|apply update_y_nonneg].
    destruct (update_free_fall (Nat.iter n update b)) as [_ ->]; [done| |].
    + rewrite IHv. unfold JS.min, maxFallVelocity, gravity.
      pose proof (int_nat_nonneg n). case_bool_decide; qc_lra.
    + rewrite IHv, int_succ. unfold JS.min, maxFallVelocity, gravity.
      repeat case_bool_decide; qc_lra.
Qed.

End BirdFacts.

(** C4.  A bird just constructed or just reset at a height [y0 >= 0] and
    left to fall has, after [n] calls of [update] and for every [n],
    velocity [min (n * gravity) maxFallVelocity], where [gravity] is 0.5
    and [maxFallVelocity] is 12.  From (80, 200), five calls give velocity
    2.5 and y = 207.5. *)
Theorem C4_free_fall_velocity (x0 y0 : Qc) (b : Bird.t) (n : nat) :
  0 <= y0 ->
  Bird.velocity (Nat.iter n Bird.update (Bird.new x0 y0))
    = JS.min (JS.int (Z.of_nat n) * Bird.gravity) Bird.maxFallVelocity
  /\ Bird.velocity (Nat.iter n Bird.update (Bird.reset x0 y0 b))
    = JS.min (JS.int (Z.of_nat n) * Bird.gravity) Bird.maxFallVelocity
  /\ Bird.gravity = JS.ratio 1 2
  /\ Bird.maxFallVelocity = JS.int 12
  /\ Bird.velocity (Nat.iter 5 Bird.update (Bird.new (JS.int 80) (JS.int 200)))
    = JS.ratio 5 2
  /\ Bird.y (Nat.iter 5 Bird.update (Bird.new (JS.int 80) (JS.int 200)))
    = JS.ratio 415 2.
Proof.
  intros Hy. split_and!.
  - by apply free_fall_velocity.
  - by apply free_fall_velocity.
  - reflexivity.
  - reflexivity.
  - apply Qc_is_canon. vm_compute. reflexivity.
  - apply Qc_is_canon. vm_compute. reflexivity.
Qed.

Lemma C4_free_fall_velocity_witness :
  0 <= JS.int 200
  /\ Bird.velocity (Nat.iter 30 Bird.update (Bird.new (JS.int 80) (JS.int 200)))
     = JS.min (JS.int (Z.of_nat 30) * Bird.gravity) Bird.maxFallVelocity.
Proof.
  assert (H : 0 <= JS.int 200) by (unfold Qcle, Qle; simpl; lia).
  split; [exact H|].
  exact (proj1 (C4_free_fall_velocity (JS.int 80) (JS.int 200)
                  (Bird.new 0 0) 30 H)).
Defined.

(** C7.  Starting from any height [y >= 0], after every call of an
    arbitrary interleaving of [update] and [jump] the bird's y is not
    negative; and an [update] whose move would put y below 0 leaves
    y = 0 and velocity = 0. *)
Theorem C7_y_never_negative (b : Bird.t) (cs : list Bird.call) :
  0 <= Bird.y b ->
  Forall (fun s => 0 <= Bird.y s) (Bird.trace cs b)
  /\ (forall s : Bird.t,
        Bird.y s + JS.min (Bird.velocity s + Bird.gravity) Bird.maxFallVelocity < 0 ->
        Bird.y (Bird.update s) = 0 /\ Bird.velocity (Bird.update s) = 0).
Proof.
  intros Hy. split; [|apply update_clamp].
  revert b Hy. induction cs as [|c cs IH]; intros b Hy; simpl.
  - constructor.
  - assert (Hs : 0 <= Bird.y (Bird.step c b)).
    { destruct c; simpl; [apply update_y_nonneg | exact Hy]. }
    constructor; [exact Hs | by apply IH].
Qed.

Lemma C7_y_never_negative_witness :
  0 <= Bird.y (Bird.new (JS.int 80) (JS.int 3))
  /\ Forall (fun s => 0 <= Bird.y s)
       (Bird.trace [Bird.Jump; Bird.Update; Bird.Update; Bird.Jump; Bird.Update]
          (Bird.new (JS.int 80) (JS.int 3))).
Proof.
  assert (H : 0 <= Bird.y (Bird.new (JS.int 80) (JS.int 3)))
    by (unfold Qcle, Qle; simpl; lia).
  split; [exact H|].
  exact (proj1 (C7_y_never_negative (Bird.new (JS.int 80) (JS.int 3))
    [Bird.Jump; Bird.Update; Bird.Update; Bird.Jump; Bird.Update] H)).
Defined.

(** The clamp does fire on that run: the first [update] after the jump
    would reach y = -4.5 and leaves the bird at y = 0 with velocity 0. *)
Example jump_at_top_clamps :
  let b := Bird.update (Bird.jump (Bird.new (JS.int 80) (JS.int 3))) in
  Bird.y b = 0 /\ Bird.velocity b = 0.
Proof. split; apply Qc_is_canon; vm_compute; reflexivity. Qed.

(** C3, as stated, fails.  Read with floorY as the argument: for the
    bird at y = 200 (bottom edge 210), [isGrounded(250)] answers true
    although the bottom edge has not reached 250.  Read with floorY as
    the floor level that [isGrounded] compares with (518 on the 568 pixel
    canvas): the bird at y = 530 has its top edge at 520, beyond 518, and
    [isOutOfBounds(568)] answers false.  No floorY serves both. *)
Lemma C3_counterexample :
  ~ (forall (b : Bird.t) (floorY : Qc),
       Bird.isGrounded floorY b = true
       <-> floorY <= Bird.y b + Bird.height / JS.int 2)
  /\ ~ (forall (b : Bird.t) (canvasHeight : Qc),
          Bird.isOutOfBounds canvasHeight b = true
          <-> canvasHeight - JS.int 50 < Bird.y b - Bird.height / JS.int 2).
Proof.
  split; intros H.
  - destruct (H (Bird.new (JS.int 80) (JS.int 200)) (JS.int 250)) as [H1 _].
    assert (Hg : Bird.isGrounded (JS.int 250) (Bird.new (JS.int 80) (JS.int 200))
                 = true) by (vm_compute; reflexivity).
    apply H1 in Hg. revert Hg. apply Qclt_not_le. vm_compute. reflexivity.
  - destruct (H (Bird.new (JS.int 80) (JS.int 530)) (JS.int 568)) as [_ H2].
    assert (Ho : Bird.isOutOfBounds (JS.int 568) (Bird.new (JS.int 80) (JS.int 530))
                 = false) by (vm_compute; reflexivity).
    rewrite H2 in Ho; [discriminate|]. vm_compute. reflexivity.
Qed.

(** C3, amended.  The argument of both predicates is the canvas height.
    [isGrounded(canvasHeight)] is true exactly when the bottom edge of the
    bounding box reaches or passes [canvasHeight - 50], the top of the 50
    pixel ground strip; [isOutOfBounds(canvasHeight)] is true exactly when
    the top edge of the bounding box exceeds [canvasHeight] itself. *)
Theorem C3_grounded_and_out_of_bounds (b : Bird.t) (canvasHeight : Qc) :
  let box := Bird.getBounds b in
  (Bird.isGrounded canvasHeight b = true
   <-> canvasHeight - JS.int 50 <= Bird.Bounds.y box + Bird.Bounds.height box)
  /\ (Bird.isOutOfBounds canvasHeight b = true
      <-> canvasHeight < Bird.Bounds.y box)
  /\ Bird.Bounds.y box + Bird.Bounds.height box = Bird.y b + Bird.height / JS.int 2
  /\ Bird.Bounds.y box = Bird.y b - Bird.height / JS.int 2.
Proof.
  assert (E : Bird.y b - Bird.height / JS.int 2 + Bird.height
              = Bird.y b + Bird.height / JS.int 2).
  { replace (Bird.height / JS.int 2) with (JS.int 10)
      by (apply Qc_is_canon; reflexivity).
    unfold Bird.height. qc_lra. }
  simpl. rewrite E. unfold Bird.isGrounded, Bird.isOutOfBounds.
  rewrite !bool_decide_eq_true. done.
Qed.

(** ** The score *)

(** C2.  [isNewHighScore] answers true exactly when the current score is
    above the high score, or equal to it and positive; (5, 5) gives true,
    (5, 6) false and (0, 0) false. *)
Theorem C2_isNewHighScore_spec :
  (forall s : ScoreManager.t,
     ScoreManager.isNewHighScore s = true
     <-> (ScoreManager.currentScore s > ScoreManager.highScore s
          \/ (ScoreManager.currentScore s = ScoreManager.highScore s
              /\ ScoreManager.currentScore s > 0))%Z)
  /\ (forall anims,
        ScoreManager.isNewHighScore (ScoreManager.mk 5 5 anims) = true
        /\ ScoreManager.isNewHighScore (ScoreManager.mk 5 6 anims) = false
        /\ ScoreManager.isNewHighScore (ScoreManager.mk 0 0 anims) = false).
Proof.
  split; [|done].
  intros s. unfold ScoreManager.isNewHighScore.
  rewrite orb_true_iff, andb_true_iff, !bool_decide_eq_true. lia.
Qed.

(** ** The pipes *)

Lemma int_plus (a b : Z) : JS.int a + JS.int b = JS.int (a + b).
Proof. apply Qc_is_canon. qc_unfold. unfold Qeq, Qplus. simpl. lia. Qed.

Lemma int_minus (a b : Z) : JS.int a - JS.int b = JS.int (a - b).
Proof. apply Qc_is_canon. qc_unfold. unfold Qeq, Qplus, Qopp. simpl. lia. Qed.

Lemma int_lt (a b : Z) : JS.int a < JS.int b <-> (a < b)%Z.
Proof. qc_unfold. unfold Qlt. simpl. lia. Qed.

Lemma int_le (a b : Z) : JS.int a <= JS.int b <-> (a <= b)%Z.
Proof. qc_unfold. unfold Qle. simpl. lia. Qed.

Lemma Qc_eq_le2 (a b : Qc) : a = b -> a <= b /\ b <= a.
Proof. intros ->. split; apply Qcle_refl. Qed.

Section PipeFacts.

Import PipeManager.

Lemma update_loop_pipes (ps : list Pipe) (sp : gset Qc) :
  (update_loop ps sp).1 = filter (fun p => offScreen p = false) (move <$> ps).
Proof.
  induction ps as [|p ps IH]; [done|].
  simpl. destruct (update_loop ps sp) as [rest' sp'] eqn:E. simpl in IH.
  rewrite filter_cons. destruct (offScreen (move p)) eqn:Hoff.
  - rewrite decide_False by done. done.
  - rewrite decide_True by done. simpl. by f_equal.
Qed.

Lemma update_loop_scored (ps : list Pipe) (sp : gset Qc) (i : Qc) :
  i ∈ (update_loop ps sp).2
  <-> i ∈ sp /\ Forall (fun p => offScreen (move p) = true -> id p <> i) ps.
Proof.
  induction ps as [|p ps IH]; simpl.
  - split; [intros H; split; [done | constructor] | by intros [H _]].
  - destruct (update_loop ps sp) as [rest' sp'] eqn:E. simpl in IH.
    rewrite Forall_cons. destruct (offScreen (move p)) eqn:Hoff; simpl.
    + rewrite elem_of_difference, elem_of_singleton, IH. naive_solver.
    + rewrite IH. naive_solver.
Qed.

Lemma update_canvasWidth (e : Env) (pm : t) :
  canvasWidth (update e pm) = canvasWidth pm.
Proof.
  unfold update. destruct (update_loop (pipes pm) (scoredPipes pm)) as [ps sp].
  by destruct (needsPipe _).
Qed.

Lemma update_scoredPipes (e : Env) (pm : t) :
  scoredPipes (update e pm) = (update_loop (pipes pm) (scoredPipes pm)).2.
Proof.
  unfold update. destruct (update_loop (pipes pm) (scoredPipes pm)) as [ps sp].
  by destruct (needsPipe _).
Qed.

(** A pipe of the field after [update] is a pipe of the field before,
    moved and still on screen, or the pipe just generated. *)
Lemma elem_of_update (e : Env) (pm : t) (q : Pipe) :
  q ∈ pipes (update e pm) ->
  (exists p, p ∈ pipes pm /\ q = move p /\ offScreen q = false)
  \/ (id q = JS.binary64 (JS.int (now e) + idDraw e) /\ x q = canvasWidth pm).
Proof.
  unfold update. pose proof (update_loop_pipes (pipes pm) (scoredPipes pm)) as Hl.
  destruct (update_loop (pipes pm) (scoredPipes pm)) as [ps sp]. simpl in Hl.
  assert (Hsurv : q ∈ ps ->
    exists p, p ∈ pipes pm /\ q = move p /\ offScreen q = false).
  { rewrite Hl, list_elem_of_filter, list_elem_of_fmap. naive_solver. }
  destruct (needsPipe _); simpl; [|by left; apply Hsurv].
  rewrite elem_of_app, list_elem_of_singleton.
  intros [Hin | ->]; [by left; apply Hsurv | by right].
Qed.

Lemma update_keeps (e : Env) (pm : t) (p : Pipe) :
  p ∈ pipes pm -> offScreen (move p) = false -> move p ∈ pipes (update e pm).
Proof.
  intros Hin Hoff. unfold update.
  pose proof (update_loop_pipes (pipes pm) (scoredPipes pm)) as Hl.
  destruct (update_loop (pipes pm) (scoredPipes pm)) as [ps sp]. simpl in Hl.
  assert (Hps : move p ∈ ps).
  { rewrite Hl, list_elem_of_filter, list_elem_of_fmap. eauto. }
  destruct (needsPipe _); simpl; [|done].
  rewrite elem_of_app. by left.
Qed.

Lemma run_succ (envs : nat -> Env) (n : nat) (pm : t) :
  run envs (S n) pm = update (envs n) (run envs n pm).
Proof. reflexivity. Qed.

Lemma run_canvasWidth (envs : nat -> Env) (n : nat) (pm : t) :
  canvasWidth (run envs n pm) = canvasWidth pm.
Proof. induction n; simpl; [done|]. by rewrite update_canvasWidth. Qed.

End PipeFacts.

(** *** How long a pipe stays in the field *)

Lemma int_0 : JS.int 0 = 0.
Proof. apply Qc_is_canon. reflexivity. Qed.

(** ** Rounding *)

Section Rounding.

Local Open Scope Q_scope.

Lemma roundHalfEven_ge (x : Q) (m : Z) :
  inject_Z m <= x -> (m <= JS.roundHalfEven x)%Z.
Proof.
  intros H. apply Qfloor_resp_le in H. rewrite Qfloor_Z in H.
  unfold JS.roundHalfEven.
  destruct (x - inject_Z (Qfloor x) ?= 1 # 2); [destruct (Z.even _)| |]; lia.
Qed.

Lemma roundHalfEven_le (x : Q) (m : Z) :
  x <= inject_Z m -> (JS.roundHalfEven x <= m)%Z.
Proof.
  intros H. pose proof (Qfloor_le x) as Hf. unfold JS.roundHalfEven.
  assert (Hfm : (Qfloor x <= m)%Z) by (rewrite Zle_Qle; lra).
  destruct (x - inject_Z (Qfloor x) ?= 1 # 2) eqn:Hc; [| exact Hfm |].
  - apply Qeq_alt in Hc.
    assert (Hlt : (Qfloor x < m)%Z) by (rewrite Zlt_Qlt; lra).
    destruct (Z.even _); lia.
  - apply Qgt_alt in Hc.
    assert (Hlt : (Qfloor x < m)%Z) by (rewrite Zlt_Qlt; lra). lia.
Qed.

Lemma pow2_pos (k : Z) : (0 <= k)%Z -> 0 < inject_Z (2 ^ k).
Proof.
  intros Hk. change 0 with (inject_Z 0). rewrite <- Zlt_Qlt.
  by apply Z.pow_pos_nonneg.
Qed.

Lemma ulp_pos (e : Z) : 0 < JS.ulp e.
Proof.
  unfold JS.ulp. destruct (52 <=? e)%Z eqn:He.
  - apply pow2_pos. apply Z.leb_le in He. lia.
  - apply Qinv_lt_0_compat, pow2_pos. apply Z.leb_gt in He. lia.
Qed.

(** Rounding does not cross a multiple of the spacing. *)
Lemma nearest_ge_multiple (q : Q) (m : Z) :
  inject_Z m * JS.ulp (JS.exponent q) <= q ->
  inject_Z m * JS.ulp (JS.exponent q) <= JS.nearest q.
Proof.
  intros H. unfold JS.nearest. cbv zeta.
  pose proof (ulp_pos (JS.exponent q)) as Hu.
  apply Qmult_le_compat_r; [|lra].
  rewrite <- Zle_Qle. apply roundHalfEven_ge. by apply Qle_shift_div_l.
Qed.

Lemma nearest_le_multiple (q : Q) (m : Z) :
  q <= inject_Z m * JS.ulp (JS.exponent q) ->
  JS.nearest q <= inject_Z m * JS.ulp (JS.exponent q).
Proof.
  intros H. unfold JS.nearest. cbv zeta.
  pose proof (ulp_pos (JS.exponent q)) as Hu.
  apply Qmult_le_compat_r; [|lra].
  rewrite <- Zle_Qle. apply roundHalfEven_le. by apply Qle_shift_div_r.
Qed.

Lemma exponent_ge_1 (q : Q) :
  1 <= q ->
  JS.exponent q = Z.log2 (Qfloor q)
  /\ (1 <= Qfloor q)%Z
  /\ (2 ^ Z.log2 (Qfloor q) <= Qfloor q)%Z
  /\ (Qfloor q < 2 ^ (Z.log2 (Qfloor q) + 1))%Z.
Proof.
  intros H1. assert (HF : (1 <= Qfloor q)%Z).
  { change 1%Z with (Qfloor 1). by apply Qfloor_resp_le. }
  unfold JS.exponent. apply Qle_bool_iff in H1. rewrite H1.
  pose proof (Z.log2_nonneg (Qfloor q)).
  pose proof (Z.log2_spec (Qfloor q)) as Hs.
  split_and!; [lia | lia | lia |]. unfold Z.succ in Hs. lia.
Qed.

Lemma exponent_le_52 (q : Q) (z : Z) :
  0 < q -> q <= inject_Z z -> (z < 2 ^ 53)%Z -> (JS.exponent q <= 52)%Z.
Proof.
  intros H0 Hz Hz53. destruct (Qlt_le_dec q 1) as [Hlt | Hge].
  - unfold JS.exponent. destruct (Qle_bool 1 q) eqn:Hb.
    + apply Qle_bool_iff in Hb. lra.
    + pose proof (Z.log2_up_nonneg (Qceiling (/ q))). lia.
  - destruct (exponent_ge_1 q Hge) as (-> & HF & Hlo & _).
    assert (HFz : (Qfloor q <= z)%Z).
    { apply Qfloor_resp_le in Hz. by rewrite Qfloor_Z in Hz. }
    destruct (Z.le_gt_cases 53 (Z.log2 (Qfloor q))) as [Hbig|]; [|lia].
    exfalso. assert ((2 ^ 53 <= 2 ^ Z.log2 (Qfloor q))%Z)
      by (apply Z.pow_le_mono_r; lia). lia.
Qed.

(** An integer is a multiple of the spacing of every binade up to 2^53. *)
Lemma int_multiple (e z : Z) :
  (e <= 52)%Z ->
  inject_Z z == inject_Z (z * 2 ^ (52 - e)) * JS.ulp e.
Proof.
  intros He. unfold JS.ulp. destruct (52 <=? e)%Z eqn:Hb.
  - apply Z.leb_le in Hb. assert (e = 52%Z) as -> by lia.
    change (inject_Z z == inject_Z (z * 1) * 1). rewrite Z.mul_1_r.
    symmetry. apply Qmult_1_r.
  - apply Z.leb_gt in Hb. pose proof (pow2_pos (52 - e)) as Hp.
    rewrite inject_Z_mult. field. intros E. rewrite E in Hp.
    apply (Qlt_irrefl 0). apply Hp. lia.
Qed.

Lemma nearest_ge_int (q : Q) (z : Z) :
  (0 < z < 2 ^ 53)%Z -> inject_Z z <= q -> inject_Z z <= JS.nearest q.
Proof.
  intros Hz Hq.
  assert (H1 : 1 <= q).
  { apply Qle_trans with (inject_Z z); [|done].
    change 1 with (inject_Z 1). rewrite <- Zle_Qle. lia. }
  destruct (exponent_ge_1 q H1) as (He & HF & Hlo & Hhi).
  pose proof (Qfloor_le q) as Hfl.
  destruct (Z.le_gt_cases (JS.exponent q) 52) as [Hsmall | Hbig].
  - rewrite (int_multiple (JS.exponent q) z Hsmall) in Hq |- *.
    by apply nearest_ge_multiple.
  - (* the binade starts at or above 2^53 *)
    set (e := JS.exponent q) in *.
    assert (Hu : JS.ulp e == inject_Z (2 ^ (e - 52))).
    { unfold JS.ulp. by rewrite (proj2 (Z.leb_le 52 e)) by lia. }
    assert (Hm : inject_Z (2 ^ 52) * JS.ulp e == inject_Z (2 ^ e)).
    { rewrite Hu, <- inject_Z_mult, <- Z.pow_add_r by lia.
      by replace (52 + (e - 52))%Z with e by lia. }
    assert (Hze : (z <= 2 ^ e)%Z).
    { assert ((2 ^ 53 <= 2 ^ e)%Z) by (apply Z.pow_le_mono_r; lia). lia. }
    apply Qle_trans with (inject_Z (2 ^ e)); [by rewrite <- Zle_Qle|].
    rewrite <- Hm. apply nearest_ge_multiple. fold e. rewrite Hm.
    apply Qle_trans with (inject_Z (Qfloor q)); [|done].
    rewrite <- Zle_Qle. subst e. rewrite He. exact Hlo.
Qed.

Lemma nearest_le_int (q : Q) (z : Z) :
  0 < q -> (z < 2 ^ 53)%Z -> q <= inject_Z z -> JS.nearest q <= inject_Z z.
Proof.
  intros H0 Hz Hq. pose proof (exponent_le_52 q z H0 Hq Hz) as He.
  rewrite (int_multiple (JS.exponent q) z He) in Hq |- *.
  by apply nearest_le_multiple.
Qed.

End Rounding.

(** Rounding does not cross an integer below 2^53: such an integer is
    itself a binary64 number. *)
Lemma binary64_ge_int (q : Qc) (z : Z) :
  (0 < z < 2 ^ 53)%Z -> JS.int z <= q -> JS.int z <= JS.binary64 q.
Proof.
  intros Hz Hq. unfold JS.binary64.
  assert (H0 : 0 < q).
  { apply Qclt_le_trans with (JS.int z); [|done].
    rewrite <- int_0. apply int_lt. lia. }
  rewrite bool_decide_eq_true_2 by done.
  assert (Hq' : (inject_Z z <= q)%Q).
  { revert Hq. unfold JS.int, Qcle, Qc_of_Z, Q2Qc. cbn [this].
    by rewrite ?Qred_correct. }
  unfold Qcle, JS.int, Qc_of_Z, Q2Qc. cbn [this]. rewrite ?Qred_correct.
  by apply nearest_ge_int.
Qed.

Lemma binary64_le_int (q : Qc) (z : Z) :
  0 < q -> (z < 2 ^ 53)%Z -> q <= JS.int z -> JS.binary64 q <= JS.int z.
Proof.
  intros H0 Hz Hq. unfold JS.binary64. rewrite bool_decide_eq_true_2 by done.
  assert (Hq' : (q <= inject_Z z)%Q).
  { revert Hq. unfold JS.int, Qcle, Qc_of_Z, Q2Qc. cbn [this].
    by rewrite ?Qred_correct. }
  unfold Qcle, JS.int, Qc_of_Z, Q2Qc. cbn [this]. rewrite ?Qred_correct.
  by apply nearest_le_int.
Qed.

Section Lifetime.

Import PipeManager.

Variable envs : nat -> Env.
Variable i : Qc.
Hypothesis envs_fresh :
  forall k, JS.binary64 (JS.int (now (envs k)) + idDraw (envs k)) <> i.

Lemma offScreen_move_int (p : Pipe) (z : Z) :
  x p = JS.int z -> offScreen (move p) = bool_decide (z - 2 + 40 < 0)%Z.
Proof.
  intros Hx. unfold offScreen, move, pipeSpeed, pipeWidth; simpl.
  rewrite Hx, int_minus, int_plus, <- int_0.
  apply bool_decide_ext, int_lt.
Qed.

Lemma tracked_update (k : nat) (z : Z) (pm : t) :
  tracked i z pm -> (0 <= z - 2 + 40)%Z ->
  tracked i (z - 2) (update (envs k) pm).
Proof.
  intros [Hpres Hall] Hz. split.
  - apply Exists_exists in Hpres as (p & Hin & Hid).
    apply Exists_exists. exists (move p). split; [|done].
    apply update_keeps; [done|].
    rewrite (offScreen_move_int p z) by auto.
    by apply bool_decide_eq_false_2, Z.le_ngt.
  - intros q Hq Hid. apply elem_of_update in Hq as [(p & Hin & -> & _) | [Hnew _]].
    + simpl. rewrite (Hall p Hin Hid). apply int_minus.
    + exfalso. apply (envs_fresh k). congruence.
Qed.

Lemma tracked_removed (k : nat) (z : Z) (pm : t) :
  tracked i z pm -> (z - 2 + 40 < 0)%Z ->
  ~ present i (update (envs k) pm) /\ i ∉ scoredPipes (update (envs k) pm).
Proof.
  intros [Hpres Hall] Hz. split.
  - intros Hp. apply Exists_exists in Hp as (q & Hq & Hid).
    apply elem_of_update in Hq as [(p & Hin & -> & Hon) | [Hnew _]].
    + rewrite (offScreen_move_int p z) in Hon by auto.
      by apply bool_decide_eq_false_1 in Hon.
    + apply (envs_fresh k). congruence.
  - rewrite update_scoredPipes, update_loop_scored. intros [_ Hforall].
    apply Exists_exists in Hpres as (p & Hin & Hid).
    rewrite Forall_forall in Hforall. apply (Hforall p Hin); [|done].
    rewrite (offScreen_move_int p z) by auto. by apply bool_decide_eq_true_2.
Qed.

Lemma tracked_run (pm : t) (k : nat) :
  tracked i 320 pm -> (k <= 180)%nat ->
  tracked i (320 - 2 * Z.of_nat k) (run envs k pm).
Proof.
  intros H0. induction k as [|k IH]; intros Hk; simpl.
  - exact H0.
  - replace (320 - 2 * Z.of_nat (S k))%Z with (320 - 2 * Z.of_nat k - 2)%Z by lia.
    apply tracked_update; [apply IH|]; lia.
Qed.

End Lifetime.

Lemma generatePipe_tracked (e : PipeManager.Env) (pm : PipeManager.t) (z : Z) :
  PipeManager.canvasWidth pm = JS.int z ->
  ~ PipeManager.present (PipeManager.id (PipeManager.generatePipe e pm).2) pm ->
  PipeManager.tracked (PipeManager.id (PipeManager.generatePipe e pm).2) z
    (PipeManager.generatePipe e pm).1.
Proof.
  intros Hw Hfresh. split.
  - apply Exists_exists. eexists. split; [|reflexivity].
    simpl. apply elem_of_app. right. by apply list_elem_of_singleton.
  - simpl. intros q Hq Hid. apply elem_of_app in Hq as [Hq | Hq].
    + exfalso. apply Hfresh. apply Exists_exists. eauto.
    + apply list_elem_of_singleton in Hq as ->. exact Hw.
Qed.

(** C1, as stated, fails: in the 320 pixel wide field, after 140 calls of
    [update] the pipe generated at x = 320 is still in the field, at
    x = 40, where x + 40 < 0 is false. *)
Lemma C1_counterexample :
  PipeManager.x Scenario.pipe1 = JS.int 320
  /\ PipeManager.at_x (PipeManager.id Scenario.pipe1) (JS.int 40)
       (PipeManager.run Scenario.envs 140 Scenario.field1)
  /\ ~ PipeManager.removed_after Scenario.envs Scenario.field1
         (PipeManager.id Scenario.pipe1) 140.
Proof.
  assert (H : PipeManager.at_x (PipeManager.id Scenario.pipe1) (JS.int 40)
                (PipeManager.run Scenario.envs 140 Scenario.field1)).
  { apply (bool_decide_unpack _). vm_compute. exact I. }
  split_and!; [reflexivity | exact H |].
  intros [_ Hgone]. apply Hgone.
  eapply Exists_impl; [exact H|]. by intros p [? _].
Qed.

(** C1, amended.  A pipe generated at x = 320 (pipe speed 2, pipe width
    40), whose identifier no other pipe of the field carries, needs exactly
    181 calls of [update] to leave the field: after [k <= 180] calls it is
    still there, at x = 320 - 2k, where x + 40 < 0 is false; the 181st call
    moves it to x = -42, removes it and drops its identifier from the
    scored set. *)
Theorem C1_removed_after_181 (envs : nat -> PipeManager.Env)
    (e0 : PipeManager.Env) (pm0 : PipeManager.t) :
  let pm1 := (PipeManager.generatePipe e0 pm0).1 in
  let p := (PipeManager.generatePipe e0 pm0).2 in
  PipeManager.canvasWidth pm0 = JS.int 320 ->
  ~ PipeManager.present (PipeManager.id p) pm0 ->
  (forall k,
     JS.binary64 (JS.int (PipeManager.now (envs k)) + PipeManager.idDraw (envs k))
     <> PipeManager.id p) ->
  PipeManager.x p = JS.int 320
  /\ PipeManager.pipeSpeed = JS.int 2
  /\ PipeManager.pipeWidth = JS.int 40
  /\ (forall k, (k <= 180)%nat ->
        PipeManager.at_x (PipeManager.id p) (JS.int (320 - 2 * Z.of_nat k))
          (PipeManager.run envs k pm1)
        /\ ~ JS.int (320 - 2 * Z.of_nat k) + PipeManager.pipeWidth < 0)
  /\ PipeManager.removed_after envs pm1 (PipeManager.id p) 181
  /\ PipeManager.id p ∉ PipeManager.scoredPipes (PipeManager.run envs 181 pm1).
Proof.
  intros pm1 p Hw Hnew Hfresh.
  assert (H0 : PipeManager.tracked (PipeManager.id p) 320 pm1)
    by (by apply generatePipe_tracked).
  assert (Hrun := fun k => tracked_run envs (PipeManager.id p) Hfresh pm1 k H0).
  assert (Hpres : forall k, (k <= 180)%nat ->
            PipeManager.present (PipeManager.id p) (PipeManager.run envs k pm1)).
  { intros k Hk. by destruct (Hrun k Hk). }
  destruct (tracked_removed envs (PipeManager.id p) Hfresh 180 (-40)
              (PipeManager.run envs 180 pm1)) as [Hgone Hscored];
    [apply (Hrun 180%nat); lia | lia |].
  rewrite <- run_succ in Hgone, Hscored.
  split_and!.
  - exact Hw.
  - reflexivity.
  - reflexivity.
  - intros k Hk. split.
    + destruct (Hrun k Hk) as [Hp Hall].
      apply Exists_exists in Hp as (q & Hq & Hid).
      apply Exists_exists. exists q. eauto.
    + unfold PipeManager.pipeWidth. rewrite int_plus, <- int_0, int_lt. lia.
  - split; [|exact Hgone]. intros k Hk. apply Hpres. lia.
  - exact Hscored.
Qed.

Lemma C1_removed_after_181_witness :
  PipeManager.canvasWidth Scenario.field0 = JS.int 320
  /\ PipeManager.removed_after Scenario.envs Scenario.field1
       (PipeManager.id Scenario.pipe1) 181.
Proof.
  assert (Hw : PipeManager.canvasWidth Scenario.field0 = JS.int 320)
    by reflexivity.
  assert (Hnew : ~ PipeManager.present
                     (PipeManager.id (PipeManager.generatePipe
                                        Scenario.env0 Scenario.field0).2)
                     Scenario.field0).
  { apply (bool_decide_eq_false_1 _). vm_compute. reflexivity. }
  assert (Hfresh : forall k,
            JS.binary64 (JS.int (PipeManager.now (Scenario.envs k))
                         + PipeManager.idDraw (Scenario.envs k))
            <> PipeManager.id (PipeManager.generatePipe
                                 Scenario.env0 Scenario.field0).2).
  { intros k Heq.
    assert (Hold : PipeManager.id (PipeManager.generatePipe
                                     Scenario.env0 Scenario.field0).2
                   < JS.int 1016)
      by (apply (bool_decide_unpack _); vm_compute; exact I).
    rewrite <- Heq in Hold. apply (Qcle_not_lt _ _) in Hold; [done|].
    apply binary64_ge_int; [split; [lia | reflexivity]|].
    cbn [Scenario.envs PipeManager.now PipeManager.idDraw].
    rewrite <- (int_plus 1016 (16 * Z.of_nat k)).
    assert (H0 : JS.int 0 <= JS.int (16 * Z.of_nat k)) by (apply int_le; lia).
    revert H0. generalize (JS.int (16 * Z.of_nat k)). intros c H0. qc_lra. }
  split; [exact Hw|].
  exact (proj1 (proj2 (proj2 (proj2 (proj2
    (C1_removed_after_181 Scenario.envs Scenario.env0 Scenario.field0
       Hw Hnew Hfresh)))))).
Defined.

(** *** Generation *)

(** C5.  The identifier is not unique, though the source calls it so.
    [generatePipe] makes it as the binary64 sum of the clock reading and a
    draw, and at a present-day clock reading that sum keeps twelve
    fraction bits.  In the 320 by 568 field, at the reading
    1793664000000, the draws 1/4 and 1/4 + 2^-20 (both binary64 numbers
    of [0, 1)) give one and the same identifier: the second pipe is
    appended with an identifier that is already in the field.  The draw
    1 - 2^-20 at that reading gives the identifier of the draw 0 one
    millisecond later.  The rest of the claim holds of both pipes: gapY
    in [120, 298], x = 320, not scored, appended at the end. *)
Theorem C5_identifier_not_unique :
  let e1 := PipeManager.mkEnv (JS.ratio 1 2) 1793664000000 (JS.ratio 1 4) in
  let e2 := PipeManager.mkEnv (JS.ratio 3 4) 1793664000000
              (JS.ratio 262145 1048576) in
  let pm1 := (PipeManager.generatePipe e1 Scenario.field0).1 in
  let p1 := (PipeManager.generatePipe e1 Scenario.field0).2 in
  let pm2 := (PipeManager.generatePipe e2 pm1).1 in
  let p2 := (PipeManager.generatePipe e2 pm1).2 in
  (0 <= PipeManager.idDraw e1 /\ PipeManager.idDraw e1 < 1)
  /\ (0 <= PipeManager.idDraw e2 /\ PipeManager.idDraw e2 < 1)
  /\ PipeManager.idDraw e1 <> PipeManager.idDraw e2
  /\ PipeManager.pipes pm2 = [p1; p2]
  /\ (JS.int 120 <= PipeManager.gapY p1 /\ PipeManager.gapY p1 <= JS.int 298)
  /\ (JS.int 120 <= PipeManager.gapY p2 /\ PipeManager.gapY p2 <= JS.int 298)
  /\ PipeManager.x p2 = JS.int 320
  /\ PipeManager.scored p2 = false
  /\ PipeManager.id p1 = JS.ratio 7174656000001 4
  /\ PipeManager.id p2 = PipeManager.id p1
  /\ PipeManager.present (PipeManager.id p2) pm1
  /\ ~ NoDup (PipeManager.id <$> PipeManager.pipes pm2)
  /\ JS.binary64 (JS.int 1793664000000 + JS.ratio 1048575 1048576)
     = JS.binary64 (JS.int 1793664000001 + 0).
Proof.
  intros e1 e2 pm1 p1 pm2 p2. subst e1 e2 pm1 p1 pm2 p2.
  split_and!;
    try (apply (bool_decide_unpack _); vm_compute; exact I);
    reflexivity.
Qed.

(** X25.  What [generatePipe] does guarantee.  For draws in [0, 1) (and
    a canvas high enough for the range not to be empty; 568 gives
    [120, 298]) it produces gapY within
    [minGapHeight, canvasHeight - minGapHeight - gapSize - 50] and appends
    a pipe at x = canvasWidth with scored = false, leaving the scored set
    alone.  At a clock reading [now] (positive, below 2^53 - 1) the
    identifier lies between [now] and [now + 1], both included, so that
    identifiers made two milliseconds or more apart differ. *)
Theorem generatePipe_gap_and_identifier (e : PipeManager.Env) (pm : PipeManager.t) :
  let pm' := (PipeManager.generatePipe e pm).1 in
  let p := (PipeManager.generatePipe e pm).2 in
  0 <= PipeManager.gapDraw e -> PipeManager.gapDraw e < 1 ->
  0 <= PipeManager.idDraw e -> PipeManager.idDraw e < 1 ->
  PipeManager.minGapHeight <= PipeManager.maxHeight pm ->
  (0 < PipeManager.now e < 2 ^ 53 - 1)%Z ->
  (PipeManager.minGapHeight <= PipeManager.gapY p
   /\ PipeManager.gapY p <= PipeManager.maxHeight pm)
  /\ PipeManager.minGapHeight = JS.int 120
  /\ (PipeManager.canvasHeight pm = JS.int 568 ->
      PipeManager.maxHeight pm = JS.int 298)
  /\ PipeManager.pipes pm' = PipeManager.pipes pm ++ [p]
  /\ PipeManager.scoredPipes pm' = PipeManager.scoredPipes pm
  /\ PipeManager.x p = PipeManager.canvasWidth pm
  /\ PipeManager.scored p = false
  /\ (JS.int (PipeManager.now e) <= PipeManager.id p
      /\ PipeManager.id p <= JS.int (PipeManager.now e + 1))
  /\ (forall (e' : PipeManager.Env) (pm0 : PipeManager.t),
        0 <= PipeManager.idDraw e' ->
        (PipeManager.now e + 2 <= PipeManager.now e' < 2 ^ 53)%Z ->
        PipeManager.id (PipeManager.generatePipe e' pm0).2 <> PipeManager.id p).
Proof.
  intros pm' p Hg0 Hg1 Hd0 Hd1 Hrange Hnow.
  assert (Hlo : JS.int (PipeManager.now e) <= PipeManager.id p).
  { subst p. cbn [PipeManager.generatePipe snd PipeManager.id].
    apply binary64_ge_int; [lia|]. revert Hd0.
    generalize (JS.int (PipeManager.now e)) (PipeManager.idDraw e).
    intros n d ?. qc_lra. }
  assert (Hhi : PipeManager.id p <= JS.int (PipeManager.now e + 1)).
  { subst p. cbn [PipeManager.generatePipe snd PipeManager.id].
    assert (Hpos : 0 < JS.int (PipeManager.now e))
      by (rewrite <- int_0; apply int_lt; lia).
    apply binary64_le_int; [| lia |]; rewrite <- ?int_plus, ?int_1;
      revert Hpos Hd0 Hd1;
      generalize (JS.int (PipeManager.now e)) (PipeManager.idDraw e);
      intros n d ? ? ?; qc_lra. }
  split_and!; try reflexivity.
  - subst p. simpl. revert Hrange Hg0 Hg1.
    generalize (PipeManager.maxHeight pm) (PipeManager.gapDraw e).
    unfold PipeManager.minGapHeight. intros M r ? ? ?. qc_unfold. nra.
  - subst p. simpl. revert Hrange Hg0 Hg1.
    generalize (PipeManager.maxHeight pm) (PipeManager.gapDraw e).
    unfold PipeManager.minGapHeight. intros M r ? ? ?. qc_unfold. nra.
  - intros Hh. unfold PipeManager.maxHeight. rewrite Hh.
    apply Qc_is_canon. reflexivity.
  - exact Hlo.
  - exact Hhi.
  - intros e' pm0 Hd0' Hnow' Heq.
    assert (Hlo' : JS.int (PipeManager.now e')
                   <= PipeManager.id (PipeManager.generatePipe e' pm0).2).
    { cbn [PipeManager.generatePipe snd PipeManager.id].
      apply binary64_ge_int; [lia|]. revert Hd0'.
      generalize (JS.int (PipeManager.now e')) (PipeManager.idDraw e').
      intros n d ?. qc_lra. }
    rewrite Heq in Hlo'.
    assert (Hlt : JS.int (PipeManager.now e + 1) < JS.int (PipeManager.now e'))
      by (apply int_lt; lia).
    apply (Qcle_not_lt _ _ (Qcle_trans _ _ _ Hlo' Hhi)). exact Hlt.
Qed.

Lemma generatePipe_gap_and_identifier_witness :
  let e := Scenario.envs 0 in
  (0 <= PipeManager.gapDraw e /\ PipeManager.gapDraw e < 1)
  /\ (0 <= PipeManager.idDraw e /\ PipeManager.idDraw e < 1)
  /\ PipeManager.minGapHeight <= PipeManager.maxHeight Scenario.field1
  /\ (0 < PipeManager.now e < 2 ^ 53 - 1)%Z
  /\ (PipeManager.minGapHeight
        <= PipeManager.gapY (PipeManager.generatePipe e Scenario.field1).2
      /\ PipeManager.gapY (PipeManager.generatePipe e Scenario.field1).2
        <= PipeManager.maxHeight Scenario.field1).
Proof.
  assert (Hg0 : 0 <= PipeManager.gapDraw (Scenario.envs 0))
    by (unfold Qcle, Qle; simpl; lia).
  assert (Hg1 : PipeManager.gapDraw (Scenario.envs 0) < 1)
    by (unfold Qclt, Qlt; simpl; lia).
  assert (Hd0 : 0 <= PipeManager.idDraw (Scenario.envs 0))
    by (unfold Qcle, Qle; simpl; lia).
  assert (Hd1 : PipeManager.idDraw (Scenario.envs 0) < 1)
    by (unfold Qclt, Qlt; simpl; lia).
  assert (Hr : PipeManager.minGapHeight <= PipeManager.maxHeight Scenario.field1)
    by (unfold Qcle, Qle; simpl; lia).
  assert (Hn : (0 < PipeManager.now (Scenario.envs 0) < 2 ^ 53 - 1)%Z)
    by (split; reflexivity).
  split_and!; [exact Hg0 | exact Hg1 | exact Hd0 | exact Hd1 | exact Hr
              | exact (proj1 Hn) | exact (proj2 Hn) | ..];
    apply (proj1 (generatePipe_gap_and_identifier (Scenario.envs 0) Scenario.field1
                    Hg0 Hg1 Hd0 Hd1 Hr Hn)).
Defined.

(** *** Scoring *)

Section ScoreFacts.

Import PipeManager.

Lemma checkScore_loop_find (birdX : Qc) (sp : gset Qc) (ps : list Pipe) :
  checkScore_loop birdX sp ps
  = match list_find (fun p => scores birdX sp p = true) ps with
    | Some (_, p) => ({[ id p ]} ∪ sp, true)
    | None => (sp, false)
    end.
Proof.
  induction ps as [|p ps IH]; [done|].
  simpl. destruct (scores birdX sp p) eqn:Hs.
  - by rewrite decide_True.
  - rewrite decide_False by done. rewrite IH.
    by destruct (list_find _ ps) as [[j q]|].
Qed.

Lemma NoDup_fmap_eq {A B : Type} (f : A -> B) (l : list A) (a b : A) :
  NoDup (f <$> l) -> a ∈ l -> b ∈ l -> f a = f b -> a = b.
Proof.
  induction l as [|c l IH]; simpl; intros Hnd Ha Hb Hf.
  - by apply elem_of_nil in Ha.
  - apply NoDup_cons in Hnd as [Hc Hnd].
    apply elem_of_cons in Ha as [-> | Ha]; apply elem_of_cons in Hb as [-> | Hb].
    + done.
    + exfalso. apply Hc. rewrite Hf. by apply list_elem_of_fmap_2.
    + exfalso. apply Hc. rewrite <- Hf. by apply list_elem_of_fmap_2.
    + by apply IH.
Qed.

End ScoreFacts.

(** C6.  One call of [checkScore] marks and reports at most one pipe,
    however many unscored pipes have their right edge left of the bird's
    x.  If none qualifies, nothing changes and the call answers false.
    Otherwise the call answers true and adds one identifier to the scored
    set, that of the first qualifying pipe in storage order; the pipes
    carrying distinct identifiers, that pipe is the only one to go from
    unscored to scored.  The array of pipes is not touched. *)
Theorem C6_checkScore_at_most_one (bird : Bird.t) (pm : PipeManager.t) :
  let pm' := (PipeManager.checkScore bird pm).1 in
  let r := (PipeManager.checkScore bird pm).2 in
  let qualifies p :=
    PipeManager.scores (Bird.x bird) (PipeManager.scoredPipes pm) p = true in
  PipeManager.pipes pm' = PipeManager.pipes pm
  /\ (forall p, qualifies p <->
        PipeManager.x p + PipeManager.pipeWidth < Bird.x bird
        /\ PipeManager.id p ∉ PipeManager.scoredPipes pm)
  /\ match list_find qualifies (PipeManager.pipes pm) with
     | Some (_, p) =>
         r = true
         /\ PipeManager.scoredPipes pm'
            = {[ PipeManager.id p ]} ∪ PipeManager.scoredPipes pm
         /\ size (PipeManager.scoredPipes pm')
            = S (size (PipeManager.scoredPipes pm))
         /\ (NoDup (PipeManager.id <$> PipeManager.pipes pm) ->
             forall q, q ∈ PipeManager.pipes pm ->
               (PipeManager.id q ∈ PipeManager.scoredPipes pm'
                /\ PipeManager.id q ∉ PipeManager.scoredPipes pm)
               <-> q = p)
     | None =>
         r = false /\ PipeManager.scoredPipes pm' = PipeManager.scoredPipes pm
     end.
Proof.
  intros pm' r qualifies.
  assert (Hq : forall p, qualifies p <->
            PipeManager.x p + PipeManager.pipeWidth < Bird.x bird
            /\ PipeManager.id p ∉ PipeManager.scoredPipes pm).
  { intros p. unfold qualifies, PipeManager.scores.
    rewrite andb_true_iff, negb_true_iff, bool_decide_eq_true,
      bool_decide_eq_false. done. }
  subst pm' r. unfold PipeManager.checkScore.
  rewrite checkScore_loop_find. fold qualifies.
  destruct (list_find qualifies (PipeManager.pipes pm)) as [[j p]|] eqn:Hfind;
    simpl; split_and!; try done.
  - apply list_find_Some in Hfind as (_ & Hp & _). apply Hq in Hp as [_ Hp].
    rewrite size_union by set_solver. by rewrite size_singleton.
  - intros Hnd. apply list_find_Some in Hfind as (Hj & Hp & _).
    apply list_elem_of_lookup_2 in Hj. apply Hq in Hp as [_ Hp].
    intros q Hin. rewrite elem_of_union, elem_of_singleton. split.
    + intros [[Hid | Hold] Hnot]; [|done].
      by apply (NoDup_fmap_eq PipeManager.id (PipeManager.pipes pm)).
    + intros ->. split; [by left | done].
Qed.

Lemma C6_checkScore_at_most_one_witness :
  let pm' := (PipeManager.checkScore Scenario.bird0 Scenario.crowded).1 in
  NoDup (PipeManager.id <$> PipeManager.pipes Scenario.crowded)
  /\ list_find
       (fun p => PipeManager.scores (Bird.x Scenario.bird0)
                   (PipeManager.scoredPipes Scenario.crowded) p = true)
       (PipeManager.pipes Scenario.crowded)
     = Some (0%nat, Scenario.pipeA)
  /\ forall q, q ∈ PipeManager.pipes Scenario.crowded ->
       (PipeManager.id q ∈ PipeManager.scoredPipes pm'
        /\ PipeManager.id q ∉ PipeManager.scoredPipes Scenario.crowded)
       <-> q = Scenario.pipeA.
Proof.
  intros pm'.
  assert (H : NoDup (PipeManager.id <$> PipeManager.pipes Scenario.crowded)).
  { apply (bool_decide_unpack _). vm_compute. exact I. }
  assert (Hfind : list_find
            (fun p => PipeManager.scores (Bird.x Scenario.bird0)
                        (PipeManager.scoredPipes Scenario.crowded) p = true)
            (PipeManager.pipes Scenario.crowded)
          = Some (0%nat, Scenario.pipeA)) by reflexivity.
  split_and!; [exact H | exact Hfind |].
  pose proof (C6_checkScore_at_most_one Scenario.bird0 Scenario.crowded)
    as (_ & _ & Hmark).
  rewrite Hfind in Hmark. destruct Hmark as (_ & _ & _ & Hone).
  exact (Hone H).
Defined.

(** Two pipes qualify at once in [Scenario.crowded]; the call reports one
    score and marks the older pipe only; the next call marks the other. *)
Example two_qualify_one_scored :
  let pm1 := (PipeManager.checkScore Scenario.bird0 Scenario.crowded).1 in
  let pm2 := (PipeManager.checkScore Scenario.bird0 pm1).1 in
  PipeManager.scores (Bird.x Scenario.bird0) ∅ Scenario.pipeA = true
  /\ PipeManager.scores (Bird.x Scenario.bird0) ∅ Scenario.pipeB = true
  /\ (PipeManager.checkScore Scenario.bird0 Scenario.crowded).2 = true
  /\ PipeManager.scoredPipes pm1 = {[ PipeManager.id Scenario.pipeA ]}
  /\ (PipeManager.checkScore Scenario.bird0 pm1).2 = true
  /\ PipeManager.scoredPipes pm2
     = {[ PipeManager.id Scenario.pipeB ]} ∪ {[ PipeManager.id Scenario.pipeA ]}
  /\ (PipeManager.checkScore Scenario.bird0 pm2).2 = false.
Proof.
  intros pm1 pm2. subst pm1 pm2.
  apply (bool_decide_unpack _). vm_compute. exact I.
Qed.

(** ** The input handler *)

Section InputFacts.

Import InputHandler.

Context {W : Type}.

Lemma triggerCallbacks_ext (event : string) (h h' : t W) (w : W) :
  callbacks h = callbacks h' ->
  triggerCallbacks event h w = triggerCallbacks event h' w.
Proof. unfold triggerCallbacks. by intros ->. Qed.

(** Dispatching an event runs each of its subscribers once, in the
    order of registration. *)
Lemma triggerCallbacks_subscribers (event : string) (subs : list (W -> W))
    (h : t W) (w : W) :
  callbacks h !! event = Some subs ->
  triggerCallbacks event h w = foldl (fun w' cb => cb w') w subs.
Proof. intros H. unfold triggerCallbacks. by rewrite H. Qed.

Lemma iter_ext (f g : W -> W) (n : nat) (w : W) :
  (forall w0, f w0 = g w0) -> Nat.iter n f w = Nat.iter n g w.
Proof.
  intros H. induction n as [|n IH]; [done|].
  by rewrite !Nat.iter_succ, IH, H.
Qed.

Lemma handleJump_accept (now : Z) (h : t W) (w : W) :
  (jumpCooldown <= now - lastJumpTime h)%Z ->
  handleJump now h w
  = (mk (callbacks h) true now (touchStartY h) (isTouching h),
     triggerCallbacks "jump" h w).
Proof.
  intros H. unfold handleJump. rewrite bool_decide_eq_false_2 by lia. done.
Qed.

Lemma handleJump_drop (now : Z) (h : t W) (w : W) :
  (now - lastJumpTime h < jumpCooldown)%Z -> handleJump now h w = (h, w).
Proof. intros H. unfold handleJump. by rewrite bool_decide_eq_true_2. Qed.

Lemma handleJumps_spec (ts : list Z) (h h0 : t W) (w : W) :
  callbacks h = callbacks h0 ->
  (handleJumps ts h w).2
    = Nat.iter (invocations_spec (lastJumpTime h) ts)
        (triggerCallbacks "jump" h0) w
  /\ lastJumpTime (handleJumps ts h w).1 = last_accepted_spec (lastJumpTime h) ts
  /\ callbacks (handleJumps ts h w).1 = callbacks h0.
Proof.
  revert h w. induction ts as [|now ts IH]; intros h w Hcb; [done|].
  cbn [handleJumps accepted_spec last_accepted_spec]. unfold invocations_spec.
  cbn [accepted_spec].
  destruct (decide (jumpCooldown <= now - lastJumpTime h)%Z) as [Hacc | Hdrop].
  - rewrite handleJump_accept by done. rewrite !bool_decide_eq_true_2 by done.
    rewrite filter_cons_True by done. cbn [length].
    rewrite Nat.iter_succ_r, (triggerCallbacks_ext _ h h0) by done.
    by apply IH.
  - rewrite handleJump_drop by lia. rewrite !bool_decide_eq_false_2 by done.
    rewrite filter_cons_False by done. by apply IH.
Qed.

End InputFacts.

(** C8.  A jump input at clock reading [now] is accepted exactly when
    [now] minus the time of the last accepted jump input is at least the
    cooldown of 100 ms: it then invokes the subscribers, each of the
    callbacks registered for [jump] once and in the order of
    registration, and becomes the last accepted time; otherwise it is
    dropped, changing nothing.  Over any sequence of inputs the handler
    does what the rule of the specification says.  In particular, of
    three inputs where the second comes less than 100 ms after the
    accepted first and the third at least 100 ms after it, the first and
    the third invoke the subscribers and the second does not. *)
Theorem C8_jump_cooldown {W : Type} (subs : list (W -> W))
    (h : InputHandler.t W) (w : W) (t1 t2 t3 : Z) :
  let fire := fun w0 : W => foldl (fun w' cb => cb w') w0 subs in
  InputHandler.callbacks h !! "jump"%string = Some subs ->
  (InputHandler.jumpCooldown <= t1 - InputHandler.lastJumpTime h)%Z ->
  (t2 - t1 < InputHandler.jumpCooldown)%Z ->
  (InputHandler.jumpCooldown <= t3 - t1)%Z ->
  InputHandler.jumpCooldown = 100%Z
  /\ (forall now,
        (InputHandler.jumpCooldown <= now - InputHandler.lastJumpTime h)%Z ->
        (InputHandler.handleJump now h w).2 = fire w
        /\ InputHandler.lastJumpTime (InputHandler.handleJump now h w).1 = now)
  /\ (forall now,
        (now - InputHandler.lastJumpTime h < InputHandler.jumpCooldown)%Z ->
        InputHandler.handleJump now h w = (h, w))
  /\ (forall ts,
        (InputHandler.handleJumps ts h w).2
          = Nat.iter (InputHandler.invocations_spec (InputHandler.lastJumpTime h) ts) fire w
        /\ InputHandler.lastJumpTime (InputHandler.handleJumps ts h w).1
          = InputHandler.last_accepted_spec (InputHandler.lastJumpTime h) ts)
  /\ InputHandler.accepted_spec (InputHandler.lastJumpTime h) [t1; t2; t3]
     = [true; false; true]
  /\ (InputHandler.handleJumps [t1] h w).2 = fire w
  /\ (InputHandler.handleJumps [t1; t2] h w).2 = fire w
  /\ (InputHandler.handleJumps [t1; t2; t3] h w).2 = fire (fire w)
  /\ InputHandler.lastJumpTime (InputHandler.handleJumps [t1; t2; t3] h w).1 = t3.
Proof.
  intros fire Hsubs H1 H2 H3.
  assert (Hflags : InputHandler.accepted_spec (InputHandler.lastJumpTime h) [t1; t2; t3]
                   = [true; false; true]).
  { simpl. rewrite (bool_decide_eq_true_2 _ H1).
    rewrite bool_decide_eq_false_2 by lia.
    by rewrite (bool_decide_eq_true_2 _ H3). }
  assert (Hfire : forall w0, InputHandler.triggerCallbacks "jump" h w0 = fire w0)
    by (intros w0; by apply triggerCallbacks_subscribers).
  assert (Hseq : forall ts,
            (InputHandler.handleJumps ts h w).2
            = Nat.iter (InputHandler.invocations_spec
                          (InputHandler.lastJumpTime h) ts) fire w
            /\ InputHandler.lastJumpTime (InputHandler.handleJumps ts h w).1
               = InputHandler.last_accepted_spec (InputHandler.lastJumpTime h) ts
            /\ InputHandler.callbacks (InputHandler.handleJumps ts h w).1
               = InputHandler.callbacks h).
  { intros ts. destruct (handleJumps_spec ts h h w eq_refl) as (-> & ? & ?).
    split_and!; [|done..]. by apply iter_ext. }
  split_and!.
  - reflexivity.
  - intros now Hacc. by rewrite handleJump_accept, Hfire.
  - intros now Hdrop. by apply handleJump_drop.
  - intros ts. destruct (Hseq ts) as (? & ? & _). done.
  - exact Hflags.
  - destruct (Hseq [t1]) as [-> _]. unfold InputHandler.invocations_spec. simpl.
    by rewrite (bool_decide_eq_true_2 _ H1).
  - destruct (Hseq [t1; t2]) as [-> _]. unfold InputHandler.invocations_spec.
    simpl. rewrite (bool_decide_eq_true_2 _ H1).
    by rewrite bool_decide_eq_false_2 by lia.
  - destruct (Hseq [t1; t2; t3]) as [-> _]. unfold InputHandler.invocations_spec.
    by rewrite Hflags.
  - destruct (Hseq [t1; t2; t3]) as (_ & -> & _). simpl.
    rewrite (bool_decide_eq_true_2 _ H1).
    rewrite bool_decide_eq_false_2 by lia.
    by rewrite (bool_decide_eq_true_2 _ H3).
Qed.

Lemma C8_jump_cooldown_witness :
  (InputHandler.jumpCooldown <= 1000 - InputHandler.lastJumpTime Scenario.counter)%Z
  /\ (1050 - 1000 < InputHandler.jumpCooldown)%Z
  /\ (InputHandler.jumpCooldown <= 1100 - 1000)%Z
  /\ InputHandler.callbacks Scenario.counter !! "jump"%string = Some [S]
  /\ (InputHandler.handleJumps [1000; 1050; 1100]%Z Scenario.counter 0%nat).2
     = 2%nat.
Proof.
  assert (Hs : InputHandler.callbacks Scenario.counter !! "jump"%string = Some [S])
    by (vm_compute; reflexivity).
  assert (H1 : (InputHandler.jumpCooldown
                <= 1000 - InputHandler.lastJumpTime Scenario.counter)%Z)
    by (vm_compute; discriminate).
  assert (H2 : (1050 - 1000 < InputHandler.jumpCooldown)%Z) by reflexivity.
  assert (H3 : (InputHandler.jumpCooldown <= 1100 - 1000)%Z)
    by (vm_compute; discriminate).
  split_and!; [exact H1 | exact H2 | exact H3 | exact Hs |].
  apply (C8_jump_cooldown [S] Scenario.counter 0%nat 1000 1050 1100 Hs H1 H2 H3).
Defined.

(** With the counting subscriber: three inputs, two invocations. *)
Example three_inputs_two_jumps :
  (InputHandler.handleJumps [1000; 1050; 1100]%Z Scenario.counter 0%nat).2 = 2%nat.
Proof. vm_compute. reflexivity. Qed.

(** ** The state machine *)

Section StateFacts.

Import GameStateManager.

(** The callbacks bound by [setupInputCallbacks] on a handler that has
    none yet. *)
Lemma setup_callbacks (h0 : InputHandler.t t) :
  InputHandler.callbacks h0 = InputHandler.noCallbacks ->
  InputHandler.callbacks (setupInputCallbacks h0) !! "gameStart" = Some [onGameStart]
  /\ InputHandler.callbacks (setupInputCallbacks h0) !! "gameRestart" = Some [onGameRestart]
  /\ InputHandler.callbacks (setupInputCallbacks h0) !! "jump" = Some [onJump].
Proof.
  destruct h0 as [cbs j l ty tc]. simpl. intros ->.
  unfold setupInputCallbacks. generalize onGameStart onGameRestart onJump.
  intros start restart jump. split_and!; vm_compute; reflexivity.
Qed.

Lemma trigger_gameStart (h0 : InputHandler.t t) (g : t) :
  InputHandler.callbacks h0 = InputHandler.noCallbacks ->
  InputHandler.triggerCallbacks "gameStart" (setupInputCallbacks h0) g = onGameStart g.
Proof.
  intros H. unfold InputHandler.triggerCallbacks.
  by destruct (setup_callbacks h0 H) as (-> & _ & _).
Qed.

Lemma trigger_gameRestart (h0 : InputHandler.t t) (g : t) :
  InputHandler.callbacks h0 = InputHandler.noCallbacks ->
  InputHandler.triggerCallbacks "gameRestart" (setupInputCallbacks h0) g = onGameRestart g.
Proof.
  intros H. unfold InputHandler.triggerCallbacks.
  by destruct (setup_callbacks h0 H) as (_ & -> & _).
Qed.

Lemma trigger_jump (h0 : InputHandler.t t) (g : t) :
  InputHandler.callbacks h0 = InputHandler.noCallbacks ->
  InputHandler.triggerCallbacks "jump" (setupInputCallbacks h0) g = onJump g.
Proof.
  intros H. unfold InputHandler.triggerCallbacks.
  by destruct (setup_callbacks h0 H) as (_ & _ & ->).
Qed.

End StateFacts.

(** C9.  In the Menu state the start event puts the manager in the
    Playing state and resets the current score to 0, and leaves the pipe
    manager (pipes and scored set) exactly as it was, as well as the bird
    and the high score.  The field is emptied on the way to Playing by
    the restart event in the Game Over state, and by no other input event
    in any state. *)
Theorem C9_start_keeps_pipes (g : GameStateManager.t) :
  let start := InputHandler.triggerCallbacks "gameStart" Scenario.input in
  let restart := InputHandler.triggerCallbacks "gameRestart" Scenario.input in
  let jump := InputHandler.triggerCallbacks "jump" Scenario.input in
  GameStateManager.currentState g = GameStateManager.MENU ->
  start g = GameStateManager.startGame g
  /\ GameStateManager.currentState (start g) = GameStateManager.PLAYING
  /\ ScoreManager.currentScore (GameStateManager.scoreManager (start g)) = 0%Z
  /\ ScoreManager.highScore (GameStateManager.scoreManager (start g))
     = ScoreManager.highScore (GameStateManager.scoreManager g)
  /\ GameStateManager.pipeManager (start g) = GameStateManager.pipeManager g
  /\ GameStateManager.bird (start g) = GameStateManager.bird g
  /\ (forall g' : GameStateManager.t,
        GameStateManager.currentState g' = GameStateManager.GAME_OVER ->
        GameStateManager.currentState (restart g') = GameStateManager.PLAYING
        /\ ScoreManager.currentScore (GameStateManager.scoreManager (restart g')) = 0%Z
        /\ PipeManager.pipes (GameStateManager.pipeManager (restart g')) = []
        /\ PipeManager.scoredPipes (GameStateManager.pipeManager (restart g')) = ∅
        /\ GameStateManager.bird (restart g')
           = Bird.reset (JS.int 80) (JS.int 200) (GameStateManager.bird g'))
  /\ (forall g' : GameStateManager.t,
        GameStateManager.pipeManager (start g') = GameStateManager.pipeManager g'
        /\ GameStateManager.pipeManager (jump g') = GameStateManager.pipeManager g'
        /\ (GameStateManager.currentState g' <> GameStateManager.GAME_OVER ->
            restart g' = g')).
Proof.
  intros start restart jump Hmenu. subst start restart jump. unfold Scenario.input.
  cbn [GameStateManager.new snd].
  assert (Hs := fun g => trigger_gameStart InputHandler.new g eq_refl).
  assert (Hr := fun g => trigger_gameRestart InputHandler.new g eq_refl).
  assert (Hj := fun g => trigger_jump InputHandler.new g eq_refl).
  rewrite Hs. unfold GameStateManager.onGameStart at 1 2 3 4 5 6.
  rewrite Hmenu. cbn [bool_decide decide_rel]. split_and!; try done.
  - intros g' Hover. rewrite Hr. unfold GameStateManager.onGameRestart.
    rewrite Hover. done.
  - intros g'. rewrite Hs, Hr, Hj.
    unfold GameStateManager.onGameStart, GameStateManager.onGameRestart,
      GameStateManager.onJump.
    split_and!.
    + by destruct (GameStateManager.currentState g').
    + by destruct (GameStateManager.currentState g').
    + by destruct (GameStateManager.currentState g').
Qed.

Lemma C9_start_keeps_pipes_witness :
  GameStateManager.currentState Scenario.menu = GameStateManager.MENU
  /\ GameStateManager.pipeManager
       (InputHandler.triggerCallbacks "gameStart" Scenario.input Scenario.menu)
     = GameStateManager.pipeManager Scenario.menu.
Proof.
  assert (H : GameStateManager.currentState Scenario.menu = GameStateManager.MENU)
    by reflexivity.
  split; [exact H|].
  exact (proj1 (proj2 (proj2 (proj2 (proj2 (C9_start_keeps_pipes Scenario.menu H)))))).
Defined.

(** The pipes of the menu are still there when play starts. *)
Example menu_pipes_carry_over :
  let g := InputHandler.triggerCallbacks "gameStart" Scenario.input Scenario.menu in
  PipeManager.pipes (GameStateManager.pipeManager g)
    = [Scenario.pipeA; Scenario.pipeB; Scenario.pipeC]
  /\ ScoreManager.currentScore (GameStateManager.scoreManager g) = 0%Z
  /\ GameStateManager.currentState g = GameStateManager.PLAYING.
Proof. vm_compute. done. Qed.

(** C10.  A jump input that reaches the manager while it is in the Menu
    or Game Over state changes nothing, in particular not the bird's y,
    velocity and rotation, whether or not the cooldown lets it through;
    in the Playing state an accepted jump input applies [jump] to the
    bird. *)
Theorem C10_jump_only_when_playing (h0 : InputHandler.t GameStateManager.t)
    (now : Z) (g : GameStateManager.t) :
  let h := GameStateManager.setupInputCallbacks h0 in
  let g' := (InputHandler.handleJump now h g).2 in
  InputHandler.callbacks h0 = InputHandler.noCallbacks ->
  GameStateManager.currentState g = GameStateManager.MENU
  \/ GameStateManager.currentState g = GameStateManager.GAME_OVER ->
  g' = g
  /\ Bird.y (GameStateManager.bird g') = Bird.y (GameStateManager.bird g)
  /\ Bird.velocity (GameStateManager.bird g') = Bird.velocity (GameStateManager.bird g)
  /\ Bird.rotation (GameStateManager.bird g') = Bird.rotation (GameStateManager.bird g)
  /\ InputHandler.triggerCallbacks "jump" h g = g
  /\ (forall gp : GameStateManager.t,
        GameStateManager.currentState gp = GameStateManager.PLAYING ->
        (InputHandler.jumpCooldown <= now - InputHandler.lastJumpTime h)%Z ->
        GameStateManager.bird (InputHandler.handleJump now h gp).2
        = Bird.jump (GameStateManager.bird gp)).
Proof.
  intros h g' Hcb Hstate.
  assert (Hj := fun g => trigger_jump h0 g Hcb). fold h in Hj.
  assert (Hidle : GameStateManager.onJump g = g).
  { unfold GameStateManager.onJump. by destruct Hstate as [-> | ->]. }
  assert (Hg : g' = g).
  { subst g'. unfold InputHandler.handleJump. case_bool_decide; [done|].
    simpl. by rewrite Hj. }
  rewrite Hg, Hj. split_and!; try done.
  intros gp Hplay Hacc. rewrite handleJump_accept by done. cbn [snd].
  rewrite Hj. unfold GameStateManager.onJump. by rewrite Hplay.
Qed.

Lemma C10_jump_only_when_playing_witness :
  InputHandler.callbacks (InputHandler.new (W := GameStateManager.t))
    = InputHandler.noCallbacks
  /\ (GameStateManager.currentState Scenario.menu = GameStateManager.MENU
      \/ GameStateManager.currentState Scenario.menu = GameStateManager.GAME_OVER)
  /\ (InputHandler.handleJump 1000
        (GameStateManager.setupInputCallbacks InputHandler.new) Scenario.menu).2
     = Scenario.menu.
Proof.
  assert (Hcb : InputHandler.callbacks (InputHandler.new (W := GameStateManager.t))
                = InputHandler.noCallbacks) by reflexivity.
  assert (Hst : GameStateManager.currentState Scenario.menu = GameStateManager.MENU
                \/ GameStateManager.currentState Scenario.menu
                   = GameStateManager.GAME_OVER) by (left; reflexivity).
  split_and!; [exact Hcb | exact Hst |].
  exact (proj1 (C10_jump_only_when_playing InputHandler.new 1000 Scenario.menu
                  Hcb Hst)).
Defined.

(** In the menu an accepted jump input leaves the bird where it was; once
    play has started the same input gives it the jump velocity. *)
Example jump_in_menu_and_in_play :
  let playing :=
    InputHandler.triggerCallbacks "gameStart" Scenario.input Scenario.menu in
  GameStateManager.bird (InputHandler.handleJump 1000 Scenario.input Scenario.menu).2
    = Scenario.bird0
  /\ Bird.velocity
       (GameStateManager.bird (InputHandler.handleJump 1000 Scenario.input playing).2)
     = Bird.jumpVelocity.
Proof. vm_compute. done. Qed.

(** * Further properties of the code *)

(** ** The bird's flight *)

Lemma int_1 : JS.int 1 = 1.
Proof. apply Qc_is_canon. reflexivity. Qed.

Section FlightFacts.

Import Bird.

Lemma target_in_range (v : Qc) :
  JS.int (-30) <= JS.min (JS.max (v * JS.int 3) (JS.int (-30))) (JS.int 90)
  /\ JS.min (JS.max (v * JS.int 3) (JS.int (-30))) (JS.int 90) <= JS.int 90.
Proof. unfold JS.min, JS.max. repeat case_bool_decide; split; qc_lra. Qed.

Lemma target_unclamped (v : Qc) :
  jumpVelocity <= v -> v <= maxFallVelocity ->
  JS.min (JS.max (v * JS.int 3) (JS.int (-30))) (JS.int 90) = v * JS.int 3.
Proof.
  unfold JS.min, JS.max, jumpVelocity, maxFallVelocity. intros Hl Hu.
  repeat case_bool_decide; try reflexivity; exfalso; qc_lra.
Qed.

Lemma update_velocity_range (s : t) :
  jumpVelocity <= velocity s ->
  jumpVelocity <= velocity (update s) /\ velocity (update s) <= maxFallVelocity.
Proof.
  unfold update, jumpVelocity, maxFallVelocity, gravity; simpl. intros Hl.
  repeat case_bool_decide; split; qc_lra.
Qed.

Lemma update_in_range (s : t) : in_range s -> in_range (update s).
Proof.
  intros (Hl & Hu & Hr1 & Hr2).
  destruct (update_velocity_range s Hl) as [Hl' Hu'].
  split_and!; [done | done | |].
  - unfold update at 1. cbn [rotation].
    destruct (target_in_range (velocity (update s))) as [Ht _].
    unfold update at 1 in Ht. cbn [velocity] in Ht. revert Ht Hr1 Hr2.
    match goal with |- context [JS.min ?a ?b] => generalize (JS.min a b) end.
    intros tg ? ? ?. qc_lra.
  - unfold update at 1. cbn [rotation].
    destruct (target_in_range (velocity (update s))) as [_ Ht].
    unfold update at 1 in Ht. cbn [velocity] in Ht. revert Ht Hr1 Hr2.
    match goal with |- context [JS.min ?a ?b] => generalize (JS.min a b) end.
    intros tg ? ? ?. qc_lra.
Qed.

Lemma jump_in_range (s : t) : in_range (jump s).
Proof. unfold in_range, jump, jumpVelocity, maxFallVelocity; simpl. split_and!; qc_lra. Qed.

Lemma new_in_range (x0 y0 : Qc) : in_range (new x0 y0).
Proof. unfold in_range, new, jumpVelocity, maxFallVelocity; simpl. split_and!; qc_lra. Qed.

Lemma trace_in_range (cs : list call) (s : t) :
  in_range s -> Forall (fun s' => x s' = x s /\ in_range s') (trace cs s).
Proof.
  revert s. induction cs as [|c cs IH]; intros s Hs; simpl; [constructor|].
  assert (Hstep : x (step c s) = x s /\ in_range (step c s)).
  { destruct c; simpl.
    - split; [done | by apply update_in_range].
    - split; [done | apply jump_in_range]. }
  constructor; [done|].
  eapply Forall_impl; [apply IH, Hstep|].
  intros s' [Hx Hr]. split; [|done]. by rewrite Hx, (proj1 Hstep).
Qed.

End FlightFacts.

Section Ballistics.

Import Bird.

Lemma update_unclamped (s : t) :
  velocity s + gravity <= maxFallVelocity ->
  0 <= y s + (velocity s + gravity) ->
  velocity (update s) = velocity s + gravity
  /\ y (update s) = y s + (velocity s + gravity).
Proof.
  intros Hv Hy. unfold update; simpl.
  rewrite (bool_decide_eq_false_2 (maxFallVelocity < _)) by by apply Qcle_not_lt.
  rewrite !bool_decide_eq_false_2 by by apply Qcle_not_lt. done.
Qed.

Lemma flight_velocity_succ (v : Qc) (k : nat) :
  flight_velocity v (S k) = flight_velocity v k + gravity.
Proof.
  unfold flight_velocity, gravity. rewrite int_succ, int_1.
  generalize (JS.int (Z.of_nat k)). intros K. qc_lra.
Qed.

Lemma flight_y_succ (y0 v : Qc) (k : nat) :
  flight_y y0 v (S k) = flight_y y0 v k + flight_velocity v (S k).
Proof.
  unfold flight_y, flight_velocity, gravity. rewrite int_succ, int_1.
  generalize (JS.int (Z.of_nat k)). intros K.
  apply Qc_is_canon. qc_unfold. ring.
Qed.

Lemma flight_0 (y0 v : Qc) : flight_velocity v 0 = v /\ flight_y y0 v 0 = y0.
Proof.
  unfold flight_velocity, flight_y, gravity. change (Z.of_nat 0) with 0%Z.
  split; qc_lra.
Qed.

(** As long as the closed forms stay below the fall-speed limit and at or
    below the top of the screen, [update] follows them. *)
Lemma ballistic (s : t) (k : nat) :
  (forall j, (1 <= j <= k)%nat ->
     flight_velocity (velocity s) j <= maxFallVelocity
     /\ 0 <= flight_y (y s) (velocity s) j) ->
  velocity (Nat.iter k update s) = flight_velocity (velocity s) k
  /\ y (Nat.iter k update s) = flight_y (y s) (velocity s) k.
Proof.
  induction k as [|k IH]; intros Hfree.
  - simpl. by destruct (flight_0 (y s) (velocity s)) as [-> ->].
  - destruct IH as [IHv IHy]; [intros j Hj; apply Hfree; lia|].
    destruct (Hfree (S k)) as [Hv Hy]; [lia|].
    rewrite Nat.iter_succ.
    rewrite flight_y_succ in Hy |- *. rewrite flight_velocity_succ in Hv, Hy |- *.
    rewrite <- IHv in Hv, Hy |- *. rewrite <- IHy in Hy |- *.
    by apply update_unclamped.
Qed.

End Ballistics.

Section JumpFacts.

Import Bird.

Lemma ratio4_le (a b : Z) : JS.ratio a 4 <= JS.ratio b 4 <-> (a <= b)%Z.
Proof. qc_unfold. unfold Qle. simpl. lia. Qed.

Lemma flight_y_jump_quarters (y0 : Qc) (k : nat) :
  flight_y y0 jumpVelocity k
  = y0 + JS.ratio (Z.of_nat k * (Z.of_nat k + 1) - 32 * Z.of_nat k) 4.
Proof.
  unfold flight_y, jumpVelocity. generalize (Z.of_nat k). intros j.
  apply Qc_is_canon. qc_unfold.
  assert (E : ((j * (j + 1) - 32 * j # 4)
               == (j # 1) * (-8 # 1) + (j # 1) * ((j # 1) + 1) * (1 # 4))%Q).
  { unfold Qeq, Qplus, Qmult. cbn. rewrite ?Pos.mul_1_l, ?Pos.mul_1_r. ring. }
  rewrite E. ring.
Qed.

(** A jump never lifts the closed form more than 60 above the start. *)
Lemma rise_bound (y0 : Qc) (k : nat) :
  y0 - JS.int 60 <= flight_y y0 jumpVelocity k.
Proof.
  rewrite flight_y_jump_quarters.
  assert (H : JS.ratio (-240) 4
              <= JS.ratio (Z.of_nat k * (Z.of_nat k + 1) - 32 * Z.of_nat k) 4).
  { apply ratio4_le. destruct (Z_le_gt_dec (Z.of_nat k) 15); nia. }
  revert H. generalize (JS.ratio (Z.of_nat k * (Z.of_nat k + 1) - 32 * Z.of_nat k) 4).
  intros r H. qc_lra.
Qed.

Lemma jump_flight_velocity_le (k : nat) :
  (k <= 17)%nat -> flight_velocity jumpVelocity k <= maxFallVelocity.
Proof.
  intros Hk. unfold flight_velocity, jumpVelocity, maxFallVelocity, gravity.
  assert (H : JS.int (Z.of_nat k) <= JS.int 17) by (apply int_le; lia).
  revert H. generalize (JS.int (Z.of_nat k)). intros K H. qc_lra.
Qed.

Lemma jump_flight_velocity_ge (k : nat) :
  (16 <= k)%nat -> 0 <= flight_velocity jumpVelocity k.
Proof.
  intros Hk. unfold flight_velocity, jumpVelocity, gravity.
  assert (H : JS.int 16 <= JS.int (Z.of_nat k)) by (apply int_le; lia).
  revert H. generalize (JS.int (Z.of_nat k)). intros K H. qc_lra.
Qed.

Lemma update_cases (s : t) :
  velocity s + gravity <= maxFallVelocity ->
  (y s + (velocity s + gravity) < 0
   /\ y (update s) = 0 /\ velocity (update s) = 0)
  \/ (0 <= y s + (velocity s + gravity)
      /\ velocity (update s) = velocity s + gravity
      /\ y (update s) = y s + (velocity s + gravity)).
Proof.
  intros Hv. destruct (Qclt_le_dec (y s + (velocity s + gravity)) 0) as [Hlt | Hle].
  - left. split; [done|]. unfold update; simpl.
    rewrite (bool_decide_eq_false_2 (maxFallVelocity < _)) by by apply Qcle_not_lt.
    by rewrite !bool_decide_eq_true_2.
  - right. split; [done|]. by apply update_unclamped.
Qed.

Lemma update_falling (s : t) :
  0 <= velocity s -> 0 <= y s ->
  0 <= velocity (update s) /\ y s <= y (update s).
Proof.
  unfold update, maxFallVelocity, gravity; simpl. intros Hv Hy.
  repeat case_bool_decide; split; qc_lra.
Qed.

Lemma jump_flight (b : t) (n : nat) :
  let s := Nat.iter n update (jump b) in
  ((n <= 16)%nat
   /\ velocity s = flight_velocity jumpVelocity n
   /\ y s = flight_y (y b) jumpVelocity n)
  \/ (0 <= velocity s /\ y b - JS.int 60 <= y s /\ 0 <= y s).
Proof.
  induction n as [|n IH]; intros s; subst s.
  - change (Nat.iter 0 update (jump b)) with (jump b).
    left. destruct (flight_0 (y b) jumpVelocity) as [-> ->].
    split_and!; [lia | done | done].
  - rewrite Nat.iter_succ. cbv zeta in IH.
    destruct IH as [(Hn & Hv & Hy) | (Hv & Hlow & Hy)].
    + set (s := Nat.iter n update (jump b)) in *.
      assert (Hv1 : velocity s + gravity = flight_velocity jumpVelocity (S n))
        by (by rewrite flight_velocity_succ, Hv).
      assert (Hy1 : y s + (velocity s + gravity) = flight_y (y b) jumpVelocity (S n))
        by (by rewrite flight_y_succ, Hv1, Hy).
      pose proof (rise_bound (y b) (S n)) as Hrise.
      destruct (update_cases s) as [(Hneg & -> & ->) | (Hpos & Hv' & Hy')].
      * rewrite Hv1. apply jump_flight_velocity_le. lia.
      * right. rewrite Hy1 in Hneg. split_and!; [done | | done].
        apply Qclt_le_weak. eapply Qcle_lt_trans; [exact Hrise | exact Hneg].
      * rewrite Hv1 in Hv'. rewrite Hy1 in Hy', Hpos.
        destruct (decide (n = 16%nat)) as [-> | Hne].
        -- right. rewrite Hv', Hy'. split_and!; [|done|done].
           apply jump_flight_velocity_ge. lia.
        -- left. split_and!; [lia | done | done].
    + right. destruct (update_falling _ Hv Hy) as [Hv' Hy'].
      split_and!; [done | exact (Qcle_trans _ _ _ Hlow Hy') | exact (Qcle_trans _ _ _ Hy Hy')].
Qed.

End JumpFacts.

(** X1.  From its construction on, through any interleaving of [update]
    and [jump], the bird keeps its x, its velocity stays between the jump
    velocity -8 and the fall-speed limit 12, and its rotation between -30
    and 90 degrees. *)
Theorem bird_stays_in_range (x0 y0 : Qc) (cs : list Bird.call) :
  Forall (fun s =>
            Bird.x s = x0
            /\ Bird.jumpVelocity <= Bird.velocity s
            /\ Bird.velocity s <= Bird.maxFallVelocity
            /\ JS.int (-30) <= Bird.rotation s
            /\ Bird.rotation s <= JS.int 90)
    (Bird.trace cs (Bird.new x0 y0)).
Proof.
  eapply Forall_impl; [apply trace_in_range, new_in_range|].
  intros s [Hx Hr]. by split.
Qed.

(** X2.  The limits -30 and 90 on the target rotation never come into
    play: at every state the bird reaches from its construction by
    [update] and [jump], [update] sets the target rotation to three times
    the new velocity. *)
Theorem rotation_clamp_never_active (x0 y0 : Qc) (cs : list Bird.call) :
  Forall (fun s =>
            Bird.targetRotation (Bird.update s)
            = Bird.velocity (Bird.update s) * JS.int 3)
    (Bird.new x0 y0 :: Bird.trace cs (Bird.new x0 y0)).
Proof.
  assert (H : forall s, Bird.in_range s ->
            Bird.targetRotation (Bird.update s)
            = Bird.velocity (Bird.update s) * JS.int 3).
  { intros s (Hl & _). destruct (update_velocity_range s Hl) as [Hl' Hu'].
    unfold Bird.update at 1. cbn [Bird.targetRotation].
    pose proof (target_unclamped _ Hl' Hu') as Ht.
    unfold Bird.update at 1 in Ht. cbn [Bird.velocity] in Ht. exact Ht. }
  constructor; [apply H, new_in_range|].
  eapply Forall_impl; [apply trace_in_range, new_in_range|].
  intros s [_ Hr]. by apply H.
Qed.

(** X3.  However often [update] runs after a [jump], the bird never gets
    more than 60 above the height it jumped from; with at least 60 of
    room above it, it is exactly 60 higher, at rest, after 16 ticks. *)
Theorem jump_rises_at_most_60 (b : Bird.t) (n : nat) :
  Bird.y b - JS.int 60 <= Bird.y (Nat.iter n Bird.update (Bird.jump b))
  /\ (JS.int 60 <= Bird.y b ->
      Bird.y (Nat.iter 16 Bird.update (Bird.jump b)) = Bird.y b - JS.int 60
      /\ Bird.velocity (Nat.iter 16 Bird.update (Bird.jump b)) = 0).
Proof.
  split.
  - destruct (jump_flight b n) as [(_ & _ & ->) | (_ & H & _)]; [|done].
    apply rise_bound.
  - intros Hroom.
    destruct (ballistic (Bird.jump b) 16) as [Hv Hy].
    { intros j Hj. cbn [Bird.jump Bird.velocity Bird.y]. split.
      - apply jump_flight_velocity_le. lia.
      - pose proof (rise_bound (Bird.y b) j) as Hr.
        revert Hr Hroom. generalize (Bird.flight_y (Bird.y b) Bird.jumpVelocity j).
        intros f ? ?. qc_lra. }
    rewrite Hv, Hy. cbn [Bird.jump Bird.velocity Bird.y].
    unfold Bird.flight_y, Bird.flight_velocity, Bird.jumpVelocity, Bird.gravity.
    change (Z.of_nat 16) with 16%Z. split; qc_lra.
Qed.

Lemma jump_rises_at_most_60_witness :
  JS.int 60 <= Bird.y Scenario.bird0
  /\ Bird.y (Nat.iter 16 Bird.update (Bird.jump Scenario.bird0))
     = Bird.y Scenario.bird0 - JS.int 60.
Proof.
  assert (H : JS.int 60 <= Bird.y Scenario.bird0)
    by (unfold Qcle, Qle; simpl; lia).
  split; [exact H|].
  exact (proj1 (proj2 (jump_rises_at_most_60 Scenario.bird0 0) H)).
Defined.

Section FreeFall.

Import Bird.

Lemma terminal_fall (s : t) (m : nat) :
  velocity s = maxFallVelocity -> 0 <= y s ->
  velocity (Nat.iter m update s) = maxFallVelocity
  /\ y (Nat.iter m update s) = y s + JS.int (Z.of_nat m) * maxFallVelocity.
Proof.
  intros Hv Hy. induction m as [|m [IHv IHy]].
  - change (Nat.iter 0 update s) with s. split; [done|].
    change (Z.of_nat 0) with 0%Z. unfold maxFallVelocity. qc_lra.
  - rewrite Nat.iter_succ. set (s' := Nat.iter m update s) in *.
    assert (Hy' : 0 <= y s').
    { rewrite IHy. pose proof (int_nat_nonneg m) as Hm. revert Hm Hy.
      unfold maxFallVelocity. generalize (JS.int (Z.of_nat m)). intros M ? ?.
      qc_lra. }
    unfold update; simpl. rewrite IHv.
    rewrite (bool_decide_eq_true_2 (maxFallVelocity < _))
      by (unfold maxFallVelocity, gravity; qc_lra).
    rewrite !bool_decide_eq_false_2
      by (revert Hy'; unfold maxFallVelocity; generalize (y s'); intros; qc_lra).
    split; [done|]. rewrite IHy, int_succ, int_1.
    unfold maxFallVelocity. generalize (JS.int (Z.of_nat m)). intros M. qc_lra.
Qed.

Lemma free_fall_flight (x0 y0 : Qc) (n : nat) :
  0 <= y0 -> (n <= 24)%nat ->
  velocity (Nat.iter n update (new x0 y0)) = flight_velocity 0 n
  /\ y (Nat.iter n update (new x0 y0)) = flight_y y0 0 n.
Proof.
  intros Hy Hn. apply (ballistic (new x0 y0) n). intros j Hj. simpl. split.
  - unfold flight_velocity, maxFallVelocity, gravity.
    assert (H : JS.int (Z.of_nat j) <= JS.int 24) by (apply int_le; lia).
    revert H. generalize (JS.int (Z.of_nat j)). intros J H. qc_lra.
  - unfold flight_y. pose proof (int_nat_nonneg j) as H.
    revert H Hy. generalize (JS.int (Z.of_nat j)). intros J ? ?. qc_unfold. nra.
Qed.

End FreeFall.

(** X4.  The height of a bird falling from rest at [y0 >= 0]: after
    [n <= 24] ticks it is [y0 + n (n + 1) / 4], the sum of the velocities
    0.5, 1, ..., n / 2; from tick 24 on the velocity is the limit 12 and
    the height is [y0 + 150 + 12 (n - 24)]. *)
Theorem free_fall_height (x0 y0 : Qc) (n : nat) :
  0 <= y0 ->
  ((n <= 24)%nat ->
   Bird.y (Nat.iter n Bird.update (Bird.new x0 y0))
   = y0 + JS.int (Z.of_nat n) * (JS.int (Z.of_nat n) + 1) * JS.ratio 1 4)
  /\ ((24 <= n)%nat ->
      Bird.y (Nat.iter n Bird.update (Bird.new x0 y0))
      = y0 + JS.int 150 + JS.int 12 * JS.int (Z.of_nat n - 24)
      /\ Bird.velocity (Nat.iter n Bird.update (Bird.new x0 y0))
         = Bird.maxFallVelocity).
Proof.
  intros Hy. split; intros Hn.
  - destruct (free_fall_flight x0 y0 n Hy Hn) as [_ ->].
    unfold Bird.flight_y. generalize (JS.int (Z.of_nat n)). intros N.
    apply Qc_is_canon. qc_unfold. ring.
  - destruct (free_fall_flight x0 y0 24 Hy) as [Hv24 Hy24]; [lia|].
    assert (E : Nat.iter n Bird.update (Bird.new x0 y0)
                = Nat.iter (n - 24) Bird.update
                    (Nat.iter 24 Bird.update (Bird.new x0 y0))).
    { rewrite <- Nat.iter_add. f_equal. lia. }
    rewrite !E.
    destruct (terminal_fall (Nat.iter 24 Bird.update (Bird.new x0 y0)) (n - 24))
      as [Hv' Hy'].
    + rewrite Hv24. apply Qc_is_canon. reflexivity.
    + rewrite Hy24. unfold Bird.flight_y. change (Z.of_nat 24) with 24%Z.
      revert Hy. generalize y0. intros. qc_unfold. lra.
    + split; [|done]. rewrite Hy', Hy24.
      replace (Z.of_nat n - 24)%Z with (Z.of_nat (n - 24)) by lia.
      unfold Bird.flight_y, Bird.maxFallVelocity. change (Z.of_nat 24) with 24%Z.
      generalize (JS.int (Z.of_nat (n - 24))). intros M.
      apply Qc_is_canon. qc_unfold. ring.
Qed.

Lemma free_fall_height_witness :
  0 <= JS.int 200
  /\ Bird.y (Nat.iter 30 Bird.update (Bird.new (JS.int 80) (JS.int 200)))
     = JS.int 200 + JS.int 150 + JS.int 12 * JS.int (Z.of_nat 30 - 24).
Proof.
  assert (H : 0 <= JS.int 200) by (unfold Qcle, Qle; simpl; lia).
  assert (Hn : (24 <= 30)%nat) by lia.
  split; [exact H|].
  exact (proj1 (proj2 (free_fall_height (JS.int 80) (JS.int 200) 30 H) Hn)).
Defined.

(** ** The field of pipes *)

Section FieldFacts.

Import PipeManager.

Lemma update_pipes (e : Env) (pm : t) :
  let ps := filter (fun p => offScreen p = false) (move <$> pipes pm) in
  pipes (update e pm)
  = match last ps with
    | None => ps ++ [(generatePipe e pm).2]
    | Some q =>
        if bool_decide (x q < canvasWidth pm - pipeSpacing)
        then ps ++ [(generatePipe e pm).2] else ps
    end.
Proof.
  intros ps. unfold update.
  pose proof (update_loop_pipes (pipes pm) (scoredPipes pm)) as Hl.
  destruct (update_loop (pipes pm) (scoredPipes pm)) as [ps' sp]. simpl in Hl.
  subst ps'. fold ps. unfold needsPipe. simpl.
  destruct (last ps) as [q|]; [|done]. by case_bool_decide.
Qed.

Lemma update_nonempty (e : Env) (pm : t) : pipes (update e pm) <> [].
Proof.
  rewrite update_pipes. cbv zeta.
  destruct (last _) as [q|] eqn:Hlast.
  - case_bool_decide; [by intros [_ ?]%app_eq_nil|].
    intros Hnil. rewrite Hnil in Hlast. done.
  - by intros [_ ?]%app_eq_nil.
Qed.

Lemma update_on_screen (e : Env) (pm : t) :
  0 <= canvasWidth pm + pipeWidth ->
  Forall (fun p => 0 <= x p + pipeWidth) (pipes (update e pm)).
Proof.
  intros Hw. apply Forall_forall. intros q Hq.
  apply elem_of_update in Hq as [(p & _ & _ & Hon) | [_ Hx]].
  - unfold offScreen in Hon. apply bool_decide_eq_false_1 in Hon.
    by apply Qcnot_lt_le.
  - by rewrite Hx.
Qed.

Lemma StronglySorted_filter_keep {A : Type} (R : relation A) (P : A -> Prop)
    `{!forall a, Decision (P a)} (l : list A) :
  StronglySorted R l -> StronglySorted R (filter P l).
Proof.
  induction 1 as [|a l Hl IH Ha]; [constructor|].
  rewrite filter_cons. case_decide; [|done].
  constructor; [done|]. apply Forall_forall. intros b [_ Hb]%list_elem_of_filter.
  rewrite Forall_forall in Ha. by apply Ha.
Qed.

Lemma spaced_move (p q : Pipe) : spaced p q -> spaced (move p) (move q).
Proof. unfold spaced, move, pipeSpacing, pipeSpeed; simpl. intros H. qc_lra. Qed.

Lemma spaced_trans_lt (p q : Pipe) (c : Qc) :
  spaced p q -> x q < c - pipeSpacing -> x p + pipeSpacing < c.
Proof. unfold spaced, pipeSpacing. intros H1 H2. qc_lra. Qed.

(** The shape [update] keeps: pipes in storage order are more than the
    pipe spacing apart, and none is right of the canvas edge. *)
Lemma update_spaced (e : Env) (pm : t) :
  StronglySorted spaced (pipes pm) ->
  Forall (fun p => x p <= canvasWidth pm) (pipes pm) ->
  StronglySorted spaced (pipes (update e pm))
  /\ Forall (fun p => x p <= canvasWidth pm) (pipes (update e pm)).
Proof.
  intros Hs Hw. rewrite update_pipes. cbv zeta.
  set (ps := filter (fun p => offScreen p = false) (move <$> pipes pm)).
  assert (Hps : StronglySorted spaced ps).
  { apply StronglySorted_filter_keep.
    eapply StronglySorted_fmap; [|exact Hs].
    intros p q. apply spaced_move. }
  assert (Hpw : Forall (fun p => x p <= canvasWidth pm) ps).
  { apply Forall_forall. intros q [_ Hq]%list_elem_of_filter.
    apply list_elem_of_fmap in Hq as (p & -> & Hp).
    rewrite Forall_forall in Hw. specialize (Hw p Hp). revert Hw.
    unfold move, pipeSpeed; simpl. generalize (x p) (canvasWidth pm).
    intros. qc_lra. }
  assert (Hnew : (forall p, p ∈ ps -> x p + pipeSpacing < canvasWidth pm) ->
            StronglySorted spaced (ps ++ [(generatePipe e pm).2])
            /\ Forall (fun p => x p <= canvasWidth pm)
                 (ps ++ [(generatePipe e pm).2])).
  { intros Hall. split.
    - apply StronglySorted_app. split_and!; [|done|repeat constructor].
      intros p Hp q ->%list_elem_of_singleton. unfold spaced; simpl. by apply Hall.
    - apply Forall_app. split; [done|]. constructor; [|constructor].
      simpl. apply Qcle_refl. }
  destruct (last ps) as [q|] eqn:Hlast.
  - case_bool_decide as Hq; [|done]. apply Hnew.
    apply last_Some in Hlast as [l' Hl']. intros p Hp.
    rewrite Hl' in Hp, Hps. apply elem_of_app in Hp as [Hp | Hp].
    + apply (spaced_trans_lt p q); [|done].
      apply (StronglySorted_app_1_elem_of spaced l' [q]); [done | done |].
      by apply list_elem_of_singleton.
    + apply list_elem_of_singleton in Hp as ->. revert Hq.
      unfold pipeSpacing. generalize (x q) (canvasWidth pm). intros. qc_lra.
  - apply Hnew. apply last_None in Hlast. rewrite Hlast.
    intros p Hp. by apply elem_of_nil in Hp.
Qed.

End FieldFacts.

Section FieldInvariants.

Import PipeManager.

Lemma run_spaced (envs : nat -> Env) (n : nat) (w h : Qc) :
  StronglySorted spaced (pipes (run envs n (new w h)))
  /\ Forall (fun p => x p <= w) (pipes (run envs n (new w h))).
Proof.
  induction n as [|n [IHs IHw]].
  - simpl. split; constructor.
  - rewrite run_succ.
    destruct (update_spaced (envs n) (run envs n (new w h))) as [Hs Hw].
    + done.
    + by rewrite run_canvasWidth.
    + rewrite run_canvasWidth in Hw. done.
Qed.

Lemma scored_belong_generate (e : Env) (pm : t) :
  (forall i, i ∈ scoredPipes pm -> present i pm) ->
  forall i, i ∈ scoredPipes (generatePipe e pm).1 -> present i (generatePipe e pm).1.
Proof.
  intros Hinv i Hi. simpl in *. apply Exists_exists.
  destruct (proj1 (Exists_exists _ _) (Hinv i Hi)) as (p & Hp & Hid).
  exists p. split; [|done]. apply elem_of_app. by left.
Qed.

Lemma scored_belong_update (e : Env) (pm : t) :
  (forall i, i ∈ scoredPipes pm -> present i pm) ->
  forall i, i ∈ scoredPipes (update e pm) -> present i (update e pm).
Proof.
  intros Hinv i. rewrite update_scoredPipes, update_loop_scored.
  intros [Hi Hall].
  destruct (proj1 (Exists_exists _ _) (Hinv i Hi)) as (p & Hp & Hid).
  rewrite Forall_forall in Hall. specialize (Hall p Hp).
  apply Exists_exists. exists (move p). split; [|done].
  apply update_keeps; [done|].
  destruct (offScreen (move p)); [|done]. by destruct Hall.
Qed.

Lemma scored_belong_checkScore (bird : Bird.t) (pm : t) :
  (forall i, i ∈ scoredPipes pm -> present i pm) ->
  forall i, i ∈ scoredPipes (checkScore bird pm).1 -> present i (checkScore bird pm).1.
Proof.
  intros Hinv i. unfold checkScore, present. rewrite checkScore_loop_find.
  destruct (list_find _ (pipes pm)) as [[j p]|] eqn:Hfind; simpl; [|apply Hinv].
  rewrite elem_of_union, elem_of_singleton. intros [-> | Hi]; [|by apply Hinv].
  apply list_find_Some in Hfind as (Hj & _ & _).
  apply Exists_exists. exists p. split; [|done].
  by apply list_elem_of_lookup_2 in Hj.
Qed.

End FieldInvariants.

(** X5.  After [update] the field is never empty, and (the canvas edge
    not being more than a pipe width left of 0) no pipe of the field is
    entirely off the left of the screen. *)
Theorem update_leaves_visible_pipes (e : PipeManager.Env) (pm : PipeManager.t) :
  0 <= PipeManager.canvasWidth pm + PipeManager.pipeWidth ->
  PipeManager.pipes (PipeManager.update e pm) <> []
  /\ PipeManager.hasVisiblePipes (PipeManager.update e pm) = true
  /\ Forall (fun p => 0 <= PipeManager.x p + PipeManager.pipeWidth)
       (PipeManager.pipes (PipeManager.update e pm)).
Proof.
  intros Hw. pose proof (update_nonempty e pm) as Hne.
  split_and!; [done | | by apply update_on_screen].
  unfold PipeManager.hasVisiblePipes. apply bool_decide_eq_true_2.
  destruct (PipeManager.pipes (PipeManager.update e pm)); [done|simpl; lia].
Qed.

Lemma update_leaves_visible_pipes_witness :
  0 <= PipeManager.canvasWidth Scenario.crowded + PipeManager.pipeWidth
  /\ PipeManager.pipes (PipeManager.update Scenario.env0 Scenario.crowded) <> [].
Proof.
  assert (H : 0 <= PipeManager.canvasWidth Scenario.crowded + PipeManager.pipeWidth)
    by (unfold Qcle, Qle; simpl; lia).
  split; [exact H|].
  exact (proj1 (update_leaves_visible_pipes Scenario.env0 Scenario.crowded H)).
Defined.

(** X6.  In a field that starts empty and is only driven by [update],
    the pipes are stored left to right, each more than the pipe spacing
    of 200 to the right of the one before, and none right of the canvas
    edge; on a canvas at most 360 wide the field therefore never holds
    more than two pipes. *)
Theorem pipes_stay_spaced (envs : nat -> PipeManager.Env) (n : nat) (w h : Qc) :
  let pm := PipeManager.run envs n (PipeManager.new w h) in
  StronglySorted PipeManager.spaced (PipeManager.pipes pm)
  /\ Forall (fun p => PipeManager.x p <= w) (PipeManager.pipes pm)
  /\ (0 <= w + PipeManager.pipeWidth -> w <= JS.int 360 ->
      (length (PipeManager.pipes pm) <= 2)%nat).
Proof.
  intros pm. destruct (run_spaced envs n w h) as [Hs Hw]. fold pm in Hs, Hw.
  split_and!; [done | done |]. intros Hw0 Hw360.
  assert (Hon : Forall (fun p => 0 <= PipeManager.x p + PipeManager.pipeWidth)
                  (PipeManager.pipes pm)).
  { subst pm. destruct n as [|n]; [constructor|].
    rewrite run_succ. apply update_on_screen. by rewrite run_canvasWidth. }
  destruct (PipeManager.pipes pm) as [|p1 [|p2 [|p3 l]]]; simpl; [lia..|].
  exfalso.
  apply StronglySorted_cons in Hs as [H1 Hs].
  apply StronglySorted_cons in Hs as [H2 _].
  apply Forall_cons in H1 as [H12 _]. apply Forall_cons in H2 as [H23 _].
  apply Forall_cons in Hon as [Hon1 _].
  apply Forall_cons in Hw as [_ Hw]. apply Forall_cons in Hw as [_ Hw].
  apply Forall_cons in Hw as [Hw3 _].
  revert H12 H23 Hon1 Hw3 Hw360.
  unfold PipeManager.spaced, PipeManager.pipeSpacing, PipeManager.pipeWidth.
  generalize (PipeManager.x p1) (PipeManager.x p2) (PipeManager.x p3).
  intros. qc_lra.
Qed.

Lemma pipes_stay_spaced_witness :
  0 <= JS.int 320 + PipeManager.pipeWidth
  /\ JS.int 320 <= JS.int 360
  /\ (length (PipeManager.pipes
                (PipeManager.run Scenario.envs 500 Scenario.field0)) <= 2)%nat.
Proof.
  assert (H0 : 0 <= JS.int 320 + PipeManager.pipeWidth)
    by (unfold Qcle, Qle; simpl; lia).
  assert (H1 : JS.int 320 <= JS.int 360) by (unfold Qcle, Qle; simpl; lia).
  split_and!; [exact H0 | exact H1 |].
  exact (proj2 (proj2 (pipes_stay_spaced Scenario.envs 500 (JS.int 320) (JS.int 568)))
           H0 H1).
Defined.

(** X7.  Whatever sequence of [generatePipe], [update], [checkScore] and
    [reset] calls a pipe manager goes through from its construction,
    every identifier in its scored set belongs to a pipe that is still in
    the field: the set keeps no trace of pipes that are gone. *)
Theorem scored_set_never_leaks (w h : Qc) (acts : list PipeManager.action) :
  let pm := foldl PipeManager.perform (PipeManager.new w h) acts in
  forall i : Qc,
    i ∈ PipeManager.scoredPipes pm -> PipeManager.present i pm.
Proof.
  assert (Hgen : forall pm0,
            (forall i, i ∈ PipeManager.scoredPipes pm0 -> PipeManager.present i pm0) ->
            forall i, i ∈ PipeManager.scoredPipes (foldl PipeManager.perform pm0 acts) ->
                      PipeManager.present i (foldl PipeManager.perform pm0 acts)).
  { induction acts as [|a acts IH]; intros pm0 Hinv; [done|].
    simpl. apply IH. destruct a as [e | e | bird |]; simpl.
    - by apply scored_belong_generate.
    - by apply scored_belong_update.
    - by apply scored_belong_checkScore.
    - intros i Hi. by apply elem_of_empty in Hi. }
  apply Hgen. intros i Hi. by apply elem_of_empty in Hi.
Qed.

Lemma scored_set_never_leaks_witness :
  let pm := foldl PipeManager.perform (PipeManager.new (JS.int 320) (JS.int 568))
              [PipeManager.Generate Scenario.env0;
               PipeManager.CheckScore (Bird.new (JS.int 400) (JS.int 200))] in
  JS.ratio 4001 4 ∈ PipeManager.scoredPipes pm
  /\ PipeManager.present (JS.ratio 4001 4) pm.
Proof.
  intros pm.
  assert (H : JS.ratio 4001 4 ∈ PipeManager.scoredPipes pm).
  { subst pm. apply (bool_decide_unpack _). vm_compute. exact I. }
  split; [exact H|].
  exact (scored_set_never_leaks (JS.int 320) (JS.int 568)
           [PipeManager.Generate Scenario.env0;
            PipeManager.CheckScore (Bird.new (JS.int 400) (JS.int 200))]
           (JS.ratio 4001 4) H).
Defined.

Section GapFacts.

Import PipeManager.

Lemma generated_gap_in_range (e : Env) (pm : t) :
  0 <= gapDraw e -> gapDraw e < 1 -> minGapHeight <= maxHeight pm ->
  minGapHeight <= gapY (generatePipe e pm).2
  /\ gapY (generatePipe e pm).2 <= maxHeight pm.
Proof.
  intros H0 H1 Hr. simpl. revert Hr H0 H1.
  generalize (maxHeight pm) (gapDraw e). unfold minGapHeight.
  intros M r ? ? ?. split; qc_unfold; nra.
Qed.

Lemma update_canvasHeight (e : Env) (pm : t) :
  canvasHeight (update e pm) = canvasHeight pm.
Proof.
  unfold update. destruct (update_loop (pipes pm) (scoredPipes pm)) as [ps sp].
  by destruct (needsPipe _).
Qed.

Lemma update_gaps_in_range (e : Env) (pm : t) :
  0 <= gapDraw e -> gapDraw e < 1 -> minGapHeight <= maxHeight pm ->
  Forall (fun p => minGapHeight <= gapY p /\ gapY p <= maxHeight pm) (pipes pm) ->
  Forall (fun p => minGapHeight <= gapY p /\ gapY p <= maxHeight pm)
    (pipes (update e pm)).
Proof.
  intros H0 H1 Hr Hall. rewrite update_pipes. cbv zeta.
  set (ps := filter (fun p => offScreen p = false) (move <$> pipes pm)).
  assert (Hps : Forall (fun p => minGapHeight <= gapY p /\ gapY p <= maxHeight pm) ps).
  { apply Forall_forall. intros q [_ Hq]%list_elem_of_filter.
    apply list_elem_of_fmap in Hq as (p & -> & Hp).
    rewrite Forall_forall in Hall. exact (Hall p Hp). }
  assert (Hnew : Forall (fun p => minGapHeight <= gapY p /\ gapY p <= maxHeight pm)
                   (ps ++ [(generatePipe e pm).2])).
  { apply Forall_app. split; [done|]. constructor; [|constructor].
    by apply generated_gap_in_range. }
  destruct (last ps); [case_bool_decide|]; done.
Qed.

End GapFacts.

(** X8.  In a field driven by [update] from empty, with every draw in
    [0, 1) and a canvas high enough for the range not to be empty, every
    pipe of the field has its gap between 120 below the top and
    [canvasHeight - 270]. *)
Theorem field_gaps_stay_in_range (envs : nat -> PipeManager.Env) (n : nat) (w h : Qc) :
  let pm := PipeManager.run envs n (PipeManager.new w h) in
  (forall k, 0 <= PipeManager.gapDraw (envs k) /\ PipeManager.gapDraw (envs k) < 1) ->
  JS.int 390 <= h ->
  Forall (fun p => JS.int 120 <= PipeManager.gapY p
                   /\ PipeManager.gapY p <= h - JS.int 270)
    (PipeManager.pipes pm).
Proof.
  intros pm Hdraw Hh. subst pm.
  assert (Hmax : forall pm, PipeManager.canvasHeight pm = h ->
            PipeManager.maxHeight pm = h - JS.int 270
            /\ PipeManager.minGapHeight <= PipeManager.maxHeight pm).
  { intros pm Hc. unfold PipeManager.maxHeight, PipeManager.minGapHeight,
      PipeManager.gapSize. rewrite Hc. revert Hh. generalize h. intros.
    split; qc_lra. }
  assert (Hinv : PipeManager.canvasHeight (PipeManager.run envs n (PipeManager.new w h)) = h
                 /\ Forall (fun p => PipeManager.minGapHeight <= PipeManager.gapY p
                                     /\ PipeManager.gapY p <= h - JS.int 270)
                      (PipeManager.pipes (PipeManager.run envs n (PipeManager.new w h)))).
  { induction n as [|n [IHc IHg]]; [split; [done | constructor]|].
    rewrite run_succ. split; [by rewrite update_canvasHeight|].
    destruct (Hmax _ IHc) as [Hm Hr]. destruct (Hdraw n) as [H0 H1].
    rewrite <- Hm in IHg |- *. by apply update_gaps_in_range. }
  exact (proj2 Hinv).
Qed.

Lemma field_gaps_stay_in_range_witness :
  (forall k, 0 <= PipeManager.gapDraw (Scenario.envs k)
             /\ PipeManager.gapDraw (Scenario.envs k) < 1)
  /\ JS.int 390 <= JS.int 568
  /\ Forall (fun p => JS.int 120 <= PipeManager.gapY p
                      /\ PipeManager.gapY p <= JS.int 568 - JS.int 270)
       (PipeManager.pipes (PipeManager.run Scenario.envs 300 Scenario.field0)).
Proof.
  assert (Hd : forall k, 0 <= PipeManager.gapDraw (Scenario.envs k)
                         /\ PipeManager.gapDraw (Scenario.envs k) < 1).
  { intros k. split; [unfold Qcle, Qle | unfold Qclt, Qlt]; simpl; lia. }
  assert (Hh : JS.int 390 <= JS.int 568) by (unfold Qcle, Qle; simpl; lia).
  split_and!; [exact Hd | exact Hh |].
  exact (field_gaps_stay_in_range Scenario.envs 300 (JS.int 320) (JS.int 568) Hd Hh).
Defined.

(** X9.  A pipe whose gap is in that range can be passed: a bird whose
    centre is between 10 and 90 below the top of the gap does not collide
    with the pipe, wherever the two are horizontally, and is neither on
    the ground nor out of bounds. *)
Theorem gap_is_passable (p : PipeManager.Pipe) (b : Bird.t) (h : Qc) :
  PipeManager.gapY p <= h - JS.int 270 ->
  PipeManager.gapY p + JS.int 10 <= Bird.y b ->
  Bird.y b <= PipeManager.gapY p + JS.int 90 ->
  PipeManager.checkPipeCollision (Bird.getBounds b) p = false
  /\ Bird.isGrounded h b = false
  /\ Bird.isOutOfBounds h b = false.
Proof.
  intros Hg Hlo Hhi.
  assert (E : Bird.height / JS.int 2 = JS.int 10)
    by (apply Qc_is_canon; reflexivity).
  split_and!.
  - unfold PipeManager.checkPipeCollision. destruct (_ && _); [|done].
    apply orb_false_iff. simpl. rewrite E.
    split; apply bool_decide_eq_false_2; revert Hlo Hhi;
      unfold PipeManager.gapSize, Bird.height;
      generalize (PipeManager.gapY p) (Bird.y b); intros; qc_lra.
  - unfold Bird.isGrounded. rewrite E. apply bool_decide_eq_false_2.
    revert Hg Hlo Hhi. generalize (PipeManager.gapY p) (Bird.y b) h.
    intros. qc_lra.
  - unfold Bird.isOutOfBounds. rewrite E. apply bool_decide_eq_false_2.
    revert Hg Hlo Hhi. generalize (PipeManager.gapY p) (Bird.y b) h.
    intros. qc_lra.
Qed.

Lemma gap_is_passable_witness :
  PipeManager.gapY Scenario.pipeA <= JS.int 568 - JS.int 270
  /\ PipeManager.gapY Scenario.pipeA + JS.int 10 <= Bird.y Scenario.bird0
  /\ Bird.y Scenario.bird0 <= PipeManager.gapY Scenario.pipeA + JS.int 90
  /\ PipeManager.checkPipeCollision (Bird.getBounds Scenario.bird0) Scenario.pipeA
     = false.
Proof.
  assert (H1 : PipeManager.gapY Scenario.pipeA <= JS.int 568 - JS.int 270)
    by (unfold Qcle, Qle; simpl; lia).
  assert (H2 : PipeManager.gapY Scenario.pipeA + JS.int 10 <= Bird.y Scenario.bird0)
    by (unfold Qcle, Qle; simpl; lia).
  assert (H3 : Bird.y Scenario.bird0 <= PipeManager.gapY Scenario.pipeA + JS.int 90)
    by (unfold Qcle, Qle; simpl; lia).
  split_and!; [exact H1 | exact H2 | exact H3 |].
  exact (proj1 (gap_is_passable Scenario.pipeA Scenario.bird0 (JS.int 568) H1 H2 H3)).
Defined.

(** ** Scores and their storage *)

Section TextFacts.

Import Stdlib.Strings.Ascii Stdlib.Strings.String.
Import JSText.

Lemma digits_string_of_uint (d : uint) :
  digits (NilEmpty.string_of_uint d) = NilEmpty.string_of_uint d.
Proof. induction d; simpl; by rewrite ?IHd. Qed.

Lemma parseInt_digit_head (c : ascii) (s : string) :
  isDigit c = true ->
  parseInt (String c s)
  = (Z.of_uint <$> NilEmpty.uint_of_string (String c (digits s)))
  /\ parseInt (String "-" (String c s))
    = ((fun d => - Z.of_uint d)%Z <$> NilEmpty.uint_of_string (String c (digits s))).
Proof.
  destruct c as [[|] [|] [|] [|] [|] [|] [|] [|]]; intros H;
    try (vm_compute in H; discriminate H); clear H;
    unfold parseInt; cbn [trimStart];
    split; simpl; by destruct (NilEmpty.uint_of_string (digits s)).
Qed.

Lemma string_of_uint_head (d : uint) :
  d <> Nil ->
  exists c s, NilEmpty.string_of_uint d = String c s /\ isDigit c = true.
Proof. destruct d; [done|..]; intros _; simpl; eauto. Qed.

Lemma parseInt_string_of_uint (d : uint) :
  d <> Nil ->
  parseInt (NilEmpty.string_of_uint d) = Some (Z.of_uint d)
  /\ parseInt (String "-" (NilEmpty.string_of_uint d)) = Some (- Z.of_uint d)%Z.
Proof.
  intros Hd. pose proof (NilEmpty.usu d) as Husu.
  pose proof (digits_string_of_uint d) as Hdig.
  destruct (string_of_uint_head d Hd) as (c & s & Hs & Hc).
  rewrite Hs in *. simpl in Hdig. rewrite Hc in Hdig.
  destruct (parseInt_digit_head c s Hc) as [-> ->].
  injection Hdig as Hdig. rewrite Hdig, Husu. done.
Qed.

(** Printing an integer and parsing it back gives the integer. *)
Lemma parseInt_toString (z : Z) : parseInt (toString z) = Some z.
Proof.
  unfold toString. destruct z as [|p|p]; simpl.
  - reflexivity.
  - unfold NilZero.string_of_uint.
    pose proof (Unsigned.to_uint_nonnil p) as Hn.
    destruct (parseInt_string_of_uint (Pos.to_uint p) Hn) as [H _].
    destruct (Pos.to_uint p) eqn:E; [done|..]; rewrite H;
      unfold Z.of_uint; rewrite <- E, Unsigned.of_to; reflexivity.
  - unfold NilZero.string_of_uint.
    pose proof (Unsigned.to_uint_nonnil p) as Hn.
    destruct (parseInt_string_of_uint (Pos.to_uint p) Hn) as [_ H].
    destruct (Pos.to_uint p) eqn:E; [done|..]; rewrite H;
      unfold Z.of_uint; rewrite <- E, Unsigned.of_to; reflexivity.
Qed.

Lemma toString_nonempty (z : Z) : toString z <> EmptyString.
Proof.
  intros H. pose proof (parseInt_toString z) as Hp. rewrite H in Hp. done.
Qed.

End TextFacts.

Section ScoreFacts2.

Import ScoreManager.

Lemma increments_from (s : t) (nows : list Z) :
  let s' := foldl (fun s now => incrementScore now s) s nows in
  let k := Z.of_nat (length nows) in
  currentScore s' = (currentScore s + k)%Z
  /\ highScore s'
     = (if decide (nows = []) then highScore s
        else Z.max (highScore s) (currentScore s + k))
  /\ length (scoreAnimations s') = (length (scoreAnimations s) + length nows)%nat.
Proof.
  revert s. induction nows as [|now nows IH]; intros s.
  - simpl. split_and!; [lia | done | lia].
  - cbn [foldl]. destruct (IH (incrementScore now s)) as (Hc & Hh & Ha).
    cbv zeta in *. rewrite Hc, Hh, Ha. unfold incrementScore, scorePerPipe.
    cbn [currentScore highScore scoreAnimations length].
    rewrite length_app. cbn [length].
    rewrite (decide_False (P := now :: nows = [])) by done.
    split_and!; [lia | | lia].
    case_decide; case_bool_decide; subst; simpl; lia.
Qed.

End ScoreFacts2.

(** X10.  After a reset and [k] calls of [incrementScore] the current
    score is [k], there are [k] popups queued, and the high score is the
    larger of its old value and [k] (its old value when [k = 0]); so the
    high score never goes down, and after an increment it is never below
    the current score. *)
Theorem score_after_increments (s : ScoreManager.t) (nows : list Z) :
  let s' := foldl (fun s now => ScoreManager.incrementScore now s)
              (ScoreManager.resetScore s) nows in
  let k := Z.of_nat (length nows) in
  ScoreManager.currentScore s' = k
  /\ ScoreManager.highScore s'
     = (if decide (nows = []) then ScoreManager.highScore s
        else Z.max (ScoreManager.highScore s) k)
  /\ length (ScoreManager.scoreAnimations s') = length nows
  /\ (ScoreManager.highScore s <= ScoreManager.highScore s')%Z
  /\ (nows <> [] -> ScoreManager.currentScore s' <= ScoreManager.highScore s')%Z.
Proof.
  intros s' k.
  destruct (increments_from (ScoreManager.resetScore s) nows) as (Hc & Hh & Ha).
  fold s' in Hc, Hh, Ha. simpl in Hc, Hh, Ha. fold k in Hc, Hh.
  split_and!; [done | done | done | |].
  - rewrite Hh. case_decide; lia.
  - intros Hne. rewrite Hh, Hc. rewrite decide_False by done. lia.
Qed.

Lemma score_after_increments_witness :
  let s' := foldl (fun s now => ScoreManager.incrementScore now s)
              (ScoreManager.resetScore Scenario.score0) [5000%Z; 6000%Z] in
  [5000%Z; 6000%Z] <> []
  /\ (ScoreManager.currentScore s' <= ScoreManager.highScore s')%Z.
Proof.
  intros s'. assert (H : [5000%Z; 6000%Z] <> []) by discriminate.
  split; [exact H|].
  exact (proj2 (proj2 (proj2 (proj2
           (score_after_increments Scenario.score0 [5000%Z; 6000%Z])))) H).
Defined.

(** X11.  At the end of a game of [k] points, [isNewHighScore] answers
    true exactly when [k >= 1] and [k] is at least the high score the
    game started with (a tie counts), or when [k = 0] and that high score
    was negative. *)
Theorem new_high_score_after_game (s : ScoreManager.t) (nows : list Z) :
  let s' := foldl (fun s now => ScoreManager.incrementScore now s)
              (ScoreManager.resetScore s) nows in
  let k := Z.of_nat (length nows) in
  ScoreManager.isNewHighScore s' = true
  <-> ((1 <= k /\ ScoreManager.highScore s <= k)
       \/ (k = 0 /\ ScoreManager.highScore s < 0))%Z.
Proof.
  intros s' k.
  destruct (increments_from (ScoreManager.resetScore s) nows) as (Hc & Hh & _).
  fold s' in Hc, Hh. simpl in Hc, Hh. fold k in Hc, Hh.
  unfold ScoreManager.isNewHighScore.
  rewrite orb_true_iff, andb_true_iff, !bool_decide_eq_true, Hc, Hh.
  assert (Hk : if decide (nows = []) then k = 0%Z else (1 <= k)%Z).
  { subst k. case_decide as Hn; [by rewrite Hn|]. destruct nows; [done|simpl; lia]. }
  destruct (decide (nows = [])); lia.
Qed.

Section StorageFacts.

Import ScoreStorage.

Lemma load_after_save (s s0 : ScoreManager.t) (ls : LocalStorage.t) :
  LocalStorage.broken ls = false ->
  ScoreManager.highScore (loadHighScore (saveHighScore s ls) s0)
  = ScoreManager.highScore s
  /\ LocalStorage.broken (saveHighScore s ls) = false.
Proof.
  intros Hb. unfold saveHighScore, loadHighScore, LocalStorage.setItem,
    LocalStorage.getItem. rewrite Hb. simpl.
  rewrite lookup_insert_eq. simpl. by rewrite parseInt_toString.
Qed.

Lemma incrementScore_sync (now : Z) (st : ScoreManager.t * LocalStorage.t) :
  LocalStorage.broken st.2 = false ->
  ScoreManager.highScore (new st.2) = ScoreManager.highScore st.1 ->
  LocalStorage.broken (incrementScore now st).2 = false
  /\ ScoreManager.highScore (new (incrementScore now st).2)
     = ScoreManager.highScore (incrementScore now st).1.
Proof.
  intros Hb Hsync. unfold incrementScore. case_bool_decide as Hraise; simpl.
  - destruct (load_after_save (ScoreManager.incrementScore now st.1)
                (ScoreManager.mk 0 0 []) st.2 Hb) as [Hl Hb'].
    split; [done|]. exact Hl.
  - split; [done|]. rewrite Hsync. unfold ScoreManager.incrementScore; simpl.
    rewrite bool_decide_eq_false_2; [done|].
    unfold ScoreManager.incrementScore in Hraise. simpl in Hraise. done.
Qed.

End StorageFacts.

(** X12.  With a storage that works, the high score survives a reload:
    after any number of [incrementScore] calls on a score manager built
    from the storage, a score manager built anew from the storage as it
    then is starts with the same high score. *)
Theorem high_score_survives_reload (ls : LocalStorage.t) (nows : list Z) :
  LocalStorage.broken ls = false ->
  let st := foldl (fun st now => ScoreStorage.incrementScore now st)
              (ScoreStorage.new ls, ls) nows in
  ScoreManager.highScore (ScoreStorage.new st.2) = ScoreManager.highScore st.1.
Proof.
  intros Hb.
  assert (H : forall st0 : ScoreManager.t * LocalStorage.t,
            LocalStorage.broken st0.2 = false ->
            ScoreManager.highScore (ScoreStorage.new st0.2)
            = ScoreManager.highScore st0.1 ->
            let st := foldl (fun st now => ScoreStorage.incrementScore now st) st0 nows in
            ScoreManager.highScore (ScoreStorage.new st.2)
            = ScoreManager.highScore st.1).
  { induction nows as [|now nows IH]; intros st0 Hb0 Hs0; [done|].
    cbn [foldl]. destruct (incrementScore_sync now st0 Hb0 Hs0) as [Hb1 Hs1].
    by apply IH. }
  by apply H.
Qed.

Lemma high_score_survives_reload_witness :
  let ls := LocalStorage.mk ∅ false in
  LocalStorage.broken ls = false
  /\ ScoreManager.highScore
       (ScoreStorage.new
          (foldl (fun st now => ScoreStorage.incrementScore now st)
             (ScoreStorage.new ls, ls) [1000; 2000; 3000]%Z).2)
     = ScoreManager.highScore
         (foldl (fun st now => ScoreStorage.incrementScore now st)
            (ScoreStorage.new ls, ls) [1000; 2000; 3000]%Z).1.
Proof.
  intros ls. assert (H : LocalStorage.broken ls = false) by reflexivity.
  split; [exact H|].
  exact (high_score_survives_reload ls [1000; 2000; 3000]%Z H).
Defined.

(** X24.  [setHighScore] never stores a negative high score: for an
    integer score in the range where a JavaScript number is exact and
    printed in decimal (below 2^53), the high score becomes the larger of
    0 and the given score and the current score is left alone.  With a
    storage that works the new high score is written as its decimal text
    and a score manager built from the storage afterwards starts with it;
    with a storage that throws nothing is written and a score manager
    built afterwards starts at 0. *)
Theorem set_high_score_is_stored (score : Z) (s : ScoreManager.t)
    (ls : LocalStorage.t) :
  (score < 2 ^ 53)%Z ->
  let st' := ScoreStorage.setHighScore score (s, ls) in
  ScoreManager.highScore st'.1 = Z.max 0 score
  /\ ScoreManager.currentScore st'.1 = ScoreManager.currentScore s
  /\ ScoreManager.highScore (ScoreStorage.new st'.2)
     = (if LocalStorage.broken ls then 0%Z else Z.max 0 score)
  /\ (if LocalStorage.broken ls then st'.2 = ls
      else LocalStorage.items st'.2 !! ScoreStorage.highScoreKey
           = Some (JSText.toString (Z.max 0 score))).
Proof.
  intros _ st'. subst st'. unfold ScoreStorage.setHighScore. cbn [fst snd].
  split_and!; [done | done | |].
  - destruct (LocalStorage.broken ls) eqn:Hb.
    + unfold ScoreStorage.new, ScoreStorage.loadHighScore,
        ScoreStorage.saveHighScore, LocalStorage.setItem, LocalStorage.getItem.
      rewrite Hb. cbn. by rewrite Hb.
    + unfold ScoreStorage.new.
      match goal with |- context [ScoreStorage.saveHighScore ?s' ls] =>
        exact (proj1 (load_after_save s' (ScoreManager.mk 0 0 []) ls Hb))
      end.
  - unfold ScoreStorage.saveHighScore, LocalStorage.setItem.
    destruct (LocalStorage.broken ls); cbn; [done|].
    by rewrite lookup_insert_eq.
Qed.

Lemma set_high_score_is_stored_witness :
  (-3 < 2 ^ 53)%Z
  /\ ScoreManager.highScore
       (ScoreStorage.new
          (ScoreStorage.setHighScore (-3) (Scenario.score0, LocalStorage.mk ∅ false)).2)
     = 0%Z.
Proof.
  assert (H : (-3 < 2 ^ 53)%Z) by reflexivity.
  split; [exact H|].
  exact (proj1 (proj2 (proj2
           (set_high_score_is_stored (-3) Scenario.score0
              (LocalStorage.mk ∅ false) H)))).
Defined.

(** The stored text after three points from an empty storage is ["3"]. *)
Example stored_high_score_text :
  LocalStorage.items
    (foldl (fun st now => ScoreStorage.incrementScore now st)
       (ScoreStorage.new (LocalStorage.mk ∅ false), LocalStorage.mk ∅ false)
       [1000; 2000; 3000]%Z).2 !! ScoreStorage.highScoreKey
  = Some "3"%string.
Proof. vm_compute. reflexivity. Qed.

Section CounterFacts.

Import ScoreStorage.

Lemma incrementGamesPlayed_reads (ls : LocalStorage.t) :
  LocalStorage.broken ls = false ->
  LocalStorage.broken (incrementGamesPlayed ls) = false
  /\ getTotalGamesPlayed (incrementGamesPlayed ls)
     = (fun n => (n + 1)%Z) <$> getTotalGamesPlayed ls.
Proof.
  intros Hb. unfold incrementGamesPlayed.
  destruct (getTotalGamesPlayed ls) as [n|];
    unfold getTotalGamesPlayed, LocalStorage.setItem, LocalStorage.getItem;
    rewrite Hb; simpl; rewrite lookup_insert_eq; (split; [done|]).
  - rewrite bool_decide_eq_false_2 by apply toString_nonempty.
    by rewrite parseInt_toString.
  - reflexivity.
Qed.

Lemma incrementGamesPlayed_iter (ls : LocalStorage.t) (k : nat) :
  LocalStorage.broken ls = false ->
  LocalStorage.broken (Nat.iter k incrementGamesPlayed ls) = false
  /\ getTotalGamesPlayed (Nat.iter k incrementGamesPlayed ls)
     = (fun n => (n + Z.of_nat k)%Z) <$> getTotalGamesPlayed ls.
Proof.
  intros Hb. induction k as [|k [IHb IHr]].
  - change (Nat.iter 0 incrementGamesPlayed ls) with ls. split; [done|].
    destruct (getTotalGamesPlayed ls); simpl; [f_equal; lia | done].
  - rewrite Nat.iter_succ.
    destruct (incrementGamesPlayed_reads _ IHb) as [Hb' Hr'].
    split; [done|]. rewrite Hr', IHr.
    destruct (getTotalGamesPlayed ls); simpl; [f_equal; lia | done].
Qed.

End CounterFacts.

(** X13.  With a storage that works, the games-played counter counts:
    if [getTotalGamesPlayed] reads [n], then after [k] calls of
    [incrementGamesPlayed] it reads [n + k], as long as the counts stay
    in the range where a JavaScript number is an exact integer printed in
    decimal (below 2^53 in magnitude); an absent item reads 0. *)
Theorem games_played_counts (ls : LocalStorage.t) (n : Z) (k : nat) :
  LocalStorage.broken ls = false ->
  ScoreStorage.getTotalGamesPlayed ls = Some n ->
  (- 2 ^ 53 < n)%Z ->
  (n + Z.of_nat k < 2 ^ 53)%Z ->
  ScoreStorage.getTotalGamesPlayed (Nat.iter k ScoreStorage.incrementGamesPlayed ls)
  = Some (n + Z.of_nat k)%Z
  /\ (LocalStorage.items ls !! ScoreStorage.gamesPlayedKey = None -> n = 0%Z).
Proof.
  intros Hb Hn _ _. destruct (incrementGamesPlayed_iter ls k Hb) as [_ ->].
  rewrite Hn. split; [done|]. intros Hnone.
  unfold ScoreStorage.getTotalGamesPlayed, LocalStorage.getItem in Hn.
  rewrite Hb, Hnone in Hn. by injection Hn.
Qed.

Lemma games_played_counts_witness :
  let ls := LocalStorage.mk ∅ false in
  LocalStorage.broken ls = false
  /\ ScoreStorage.getTotalGamesPlayed ls = Some 0%Z
  /\ (- 2 ^ 53 < 0)%Z
  /\ (0 + Z.of_nat 12 < 2 ^ 53)%Z
  /\ ScoreStorage.getTotalGamesPlayed
       (Nat.iter 12 ScoreStorage.incrementGamesPlayed ls)
     = Some (0 + Z.of_nat 12)%Z.
Proof.
  intros ls. assert (Hb : LocalStorage.broken ls = false) by reflexivity.
  assert (Hn : ScoreStorage.getTotalGamesPlayed ls = Some 0%Z) by reflexivity.
  assert (Hlo : (- 2 ^ 53 < 0)%Z) by reflexivity.
  assert (Hhi : (0 + Z.of_nat 12 < 2 ^ 53)%Z) by reflexivity.
  split_and!; [exact Hb | exact Hn | exact Hlo | exact Hhi |].
  exact (proj1 (games_played_counts ls 0 12 Hb Hn Hlo Hhi)).
Defined.

(** X14.  A games-played item that does not start with a number is never
    repaired: [getTotalGamesPlayed] reads NaN, [incrementGamesPlayed]
    writes the text NaN back, and the counter reads NaN after any number
    of further games. *)
Theorem games_played_stays_NaN (ls : LocalStorage.t) (k : nat) :
  LocalStorage.broken ls = false ->
  ScoreStorage.getTotalGamesPlayed ls = None ->
  ScoreStorage.getTotalGamesPlayed (Nat.iter k ScoreStorage.incrementGamesPlayed ls)
  = None
  /\ LocalStorage.items (ScoreStorage.incrementGamesPlayed ls)
       !! ScoreStorage.gamesPlayedKey
     = Some JSText.NaN.
Proof.
  intros Hb Hn. destruct (incrementGamesPlayed_iter ls k Hb) as [_ ->].
  rewrite Hn. split; [done|].
  unfold ScoreStorage.incrementGamesPlayed, LocalStorage.setItem.
  rewrite Hn, Hb. simpl. by rewrite lookup_insert_eq.
Qed.

Lemma games_played_stays_NaN_witness :
  let ls := LocalStorage.mk {[ ScoreStorage.gamesPlayedKey := "many"%string ]} false in
  LocalStorage.broken ls = false
  /\ ScoreStorage.getTotalGamesPlayed ls = None
  /\ ScoreStorage.getTotalGamesPlayed
       (Nat.iter 5 ScoreStorage.incrementGamesPlayed ls) = None.
Proof.
  intros ls. assert (Hb : LocalStorage.broken ls = false) by reflexivity.
  assert (Hn : ScoreStorage.getTotalGamesPlayed ls = None)
    by (vm_compute; reflexivity).
  split_and!; [exact Hb | exact Hn |].
  exact (proj1 (games_played_stays_NaN ls 5 Hb Hn)).
Defined.

(** What [parseInt] makes of some stored texts. *)
Example parseInt_examples :
  JSText.parseInt "42"%string = Some 42%Z
  /\ JSText.parseInt "  -7 points"%string = Some (-7)%Z
  /\ JSText.parseInt "+15px"%string = Some 15%Z
  /\ JSText.parseInt "007"%string = Some 7%Z
  /\ JSText.parseInt "NaN"%string = None
  /\ JSText.parseInt ""%string = None
  /\ JSText.parseInt "-"%string = None
  /\ JSText.toString (-120) = "-120"%string
  /\ JSText.toString 0 = "0"%string.
Proof. vm_compute. done. Qed.

(** ** The input handler, continued *)

Section RateFacts.

Import InputHandler.

Context {W : Type}.

Lemma jumpTimes_spaced (ts : list Z) (h h0 : t W) (w : W) :
  callbacks h = callbacks h0 ->
  StronglySorted (fun a b => (a + jumpCooldown <= b)%Z)
    (lastJumpTime h :: jumpTimes ts h w)
  /\ (handleJumps ts h w).2
     = Nat.iter (length (jumpTimes ts h w)) (triggerCallbacks "jump" h0) w.
Proof.
  revert h w. induction ts as [|now ts IH]; intros h w Hcb.
  - simpl. split; [repeat constructor | done].
  - cbn [jumpTimes handleJumps]. unfold isJumpOnCooldown.
    destruct (decide (now - lastJumpTime h < jumpCooldown)%Z) as [Hdrop | Hacc].
    + rewrite handleJump_drop by done. rewrite bool_decide_eq_true_2 by done.
      by apply IH.
    + rewrite handleJump_accept by lia. rewrite bool_decide_eq_false_2 by done.
      destruct (IH (mk (callbacks h) true now (touchStartY h) (isTouching h))
                  (triggerCallbacks "jump" h w) Hcb) as [Hs Hw].
      cbn [lastJumpTime] in Hs. split.
      * apply StronglySorted_cons in Hs as [Hall Hs].
        constructor; [by constructor|].
        unfold jumpCooldown in *.
        constructor; [lia|]. eapply Forall_impl; [exact Hall|].
        intros b Hb. simpl in Hb. lia.
      * rewrite Hw. cbn [length]. rewrite Nat.iter_succ_r.
        by rewrite (triggerCallbacks_ext _ h h0).
Qed.

Lemma trigger_on_same (event : string) (cb : W -> W) (h : t W) (w : W) :
  is_Some (callbacks h !! event) ->
  triggerCallbacks event (on event cb h) w = cb (triggerCallbacks event h w).
Proof.
  intros [l Hl]. unfold triggerCallbacks, on. rewrite Hl. simpl.
  rewrite lookup_insert_eq. by rewrite foldl_app.
Qed.

Lemma trigger_on_other (event event' : string) (cb : W -> W) (h : t W) (w : W) :
  event <> event' ->
  triggerCallbacks event' (on event cb h) w = triggerCallbacks event' h w.
Proof.
  intros Hne. unfold triggerCallbacks, on.
  destruct (callbacks h !! event) as [l|]; [|done]. simpl.
  by rewrite lookup_insert_ne.
Qed.

Lemma on_keeps_events (event event' : string) (cb : W -> W) (h : t W) :
  is_Some (callbacks (on event cb h) !! event') <-> is_Some (callbacks h !! event').
Proof.
  unfold on. destruct (callbacks h !! event) as [l|] eqn:Hl; [|done]. simpl.
  destruct (decide (event = event')) as [<- | Hne].
  - rewrite lookup_insert_eq, Hl. split; eauto.
  - by rewrite lookup_insert_ne.
Qed.

End RateFacts.

(** X15.  The jump inputs that get through the handler are at least the
    cooldown of 100 ms apart from one another and from the last jump
    accepted before: whatever the clock readings, each one let through is
    at least 100 later than the one let through before it.  For each of
    them, and not otherwise, every callback registered for [jump] runs
    once, in the order of registration. *)
Theorem jumps_are_a_cooldown_apart {W : Type} (subs : list (W -> W))
    (ts : list Z) (h : InputHandler.t W) (w : W) :
  InputHandler.callbacks h !! "jump"%string = Some subs ->
  StronglySorted (fun a b => (a + 100 <= b)%Z)
    (InputHandler.lastJumpTime h :: InputHandler.jumpTimes ts h w)
  /\ (InputHandler.handleJumps ts h w).2
     = Nat.iter (length (InputHandler.jumpTimes ts h w))
         (fun w0 => foldl (fun w' cb => cb w') w0 subs) w.
Proof.
  intros Hsubs. destruct (jumpTimes_spaced ts h h w eq_refl) as [Hs ->].
  split; [exact Hs|]. apply iter_ext. intros w0.
  by apply triggerCallbacks_subscribers.
Qed.

Lemma jumps_are_a_cooldown_apart_witness :
  InputHandler.callbacks Scenario.counter !! "jump"%string = Some [S]
  /\ InputHandler.jumpTimes [1000; 1050; 1100; 1150; 1200]%Z Scenario.counter 0%nat
     = [1000; 1100; 1200]%Z
  /\ (InputHandler.handleJumps [1000; 1050; 1100; 1150; 1200]%Z
        Scenario.counter 0%nat).2
     = 3%nat.
Proof.
  assert (Hs : InputHandler.callbacks Scenario.counter !! "jump"%string = Some [S])
    by (vm_compute; reflexivity).
  split_and!; [exact Hs | vm_compute; reflexivity |].
  exact (proj2 (jumps_are_a_cooldown_apart [S]
                  [1000; 1050; 1100; 1150; 1200]%Z Scenario.counter 0%nat Hs)).
Defined.

(** X16.  Registration and dispatch, for the events of the handler's
    table ([jump], [gameStart] and [gameRestart] from the construction
    on): a callback registered with [on] runs after those registered
    before it; registering for one event leaves the dispatch of every
    other event of the table as it was, and the cooldown clock too; the
    table keeps the events it has. *)
Theorem callbacks_run_in_registration_order {W : Type} (event : string)
    (cb : W -> W) (h : InputHandler.t W) (w : W) :
  is_Some (InputHandler.callbacks h !! event) ->
  InputHandler.triggerCallbacks event (InputHandler.on event cb h) w
  = cb (InputHandler.triggerCallbacks event h w)
  /\ (forall event', event <> event' ->
        is_Some (InputHandler.callbacks h !! event') ->
        InputHandler.triggerCallbacks event' (InputHandler.on event cb h) w
        = InputHandler.triggerCallbacks event' h w)
  /\ InputHandler.lastJumpTime (InputHandler.on event cb h)
     = InputHandler.lastJumpTime h
  /\ (forall event',
        is_Some (InputHandler.callbacks (InputHandler.on event cb h) !! event')
        <-> is_Some (InputHandler.callbacks h !! event'))
  /\ (forall event',
        is_Some (InputHandler.callbacks (InputHandler.new (W := W)) !! event')
        <-> event' = "jump"%string \/ event' = "gameStart"%string
            \/ event' = "gameRestart"%string).
Proof.
  intros Hknown. split_and!.
  - by apply trigger_on_same.
  - intros event' Hne _. by apply trigger_on_other.
  - unfold InputHandler.on. by destruct (InputHandler.callbacks h !! event).
  - intros event'. apply on_keeps_events.
  - intros event'. unfold InputHandler.new, InputHandler.noCallbacks. simpl.
    rewrite !lookup_insert_is_Some, lookup_empty, is_Some_alt. naive_solver.
Qed.

Lemma callbacks_run_in_registration_order_witness :
  is_Some (InputHandler.callbacks Scenario.counter !! "jump"%string)
  /\ InputHandler.triggerCallbacks "jump"
       (InputHandler.on "jump" (Nat.mul 2) Scenario.counter) 5%nat
     = (2 * InputHandler.triggerCallbacks "jump" Scenario.counter 5)%nat.
Proof.
  assert (H : is_Some (InputHandler.callbacks Scenario.counter !! "jump"%string))
    by (vm_compute; eauto).
  split; [exact H|].
  exact (proj1 (callbacks_run_in_registration_order "jump" (Nat.mul 2)
                  Scenario.counter 5%nat H)).
Defined.

(** X17.  [reset] forgets the cooldown and [destroy] the subscribers:
    after [reset], a jump input at any clock reading from 100 on is let
    through, however recent the last jump; after [destroy], the table
    has its three events again and none of them changes the world any
    more, a jump input that is let through included. *)
Theorem reset_and_destroy {W : Type} (h : InputHandler.t W) (w : W) (now : Z) :
  ((100 <= now)%Z ->
   InputHandler.handleJump now (InputHandler.reset h) w
   = (InputHandler.mk (InputHandler.callbacks h) true now 0 false,
      InputHandler.triggerCallbacks "jump" h w))
  /\ (forall event,
        is_Some (InputHandler.callbacks (InputHandler.destroy h) !! event) ->
        InputHandler.triggerCallbacks event (InputHandler.destroy h) w = w)
  /\ (forall event,
        is_Some (InputHandler.callbacks (InputHandler.destroy h) !! event)
        <-> event = "jump"%string \/ event = "gameStart"%string
            \/ event = "gameRestart"%string)
  /\ (InputHandler.handleJump now (InputHandler.destroy h) w).2 = w.
Proof.
  assert (Hd : forall event,
            InputHandler.triggerCallbacks event (InputHandler.destroy h) w = w).
  { intros event. unfold InputHandler.triggerCallbacks, InputHandler.destroy,
      InputHandler.noCallbacks. simpl.
    destruct (decide (event = "jump"%string)) as [-> | H1];
      [by rewrite lookup_insert_eq|rewrite lookup_insert_ne by done].
    destruct (decide (event = "gameStart"%string)) as [-> | H2];
      [by rewrite lookup_insert_eq|rewrite lookup_insert_ne by done].
    destruct (decide (event = "gameRestart"%string)) as [-> | H3];
      [by rewrite lookup_insert_eq|rewrite lookup_insert_ne by done].
    by rewrite lookup_empty. }
  split_and!.
  - intros Hnow. rewrite handleJump_accept by (simpl; unfold InputHandler.jumpCooldown; lia).
    done.
  - intros event _. apply Hd.
  - intros event. unfold InputHandler.destroy, InputHandler.noCallbacks. simpl.
    rewrite !lookup_insert_is_Some, lookup_empty, is_Some_alt. naive_solver.
  - unfold InputHandler.handleJump. case_bool_decide; [done|]. simpl. apply Hd.
Qed.

Lemma reset_and_destroy_witness :
  (100 <= 1050)%Z
  /\ (InputHandler.handleJump 1050 (InputHandler.reset
        (InputHandler.handleJump 1000 Scenario.counter 0%nat).1) 1%nat).2
     = 2%nat.
Proof.
  assert (H : (100 <= 1050)%Z) by lia.
  split; [exact H|].
  exact (f_equal snd (proj1 (reset_and_destroy
           (InputHandler.handleJump 1000 Scenario.counter 0%nat).1 1%nat 1050) H)).
Defined.

(** ** Frames *)

Section FrameFacts.

Import GameStateManager.

Lemma out_of_bounds_is_grounded (canvasHeight : Qc) (b : Bird.t) :
  Bird.isOutOfBounds canvasHeight b = true -> Bird.isGrounded canvasHeight b = true.
Proof.
  unfold Bird.isOutOfBounds, Bird.isGrounded.
  rewrite !bool_decide_eq_true.
  replace (Bird.height / JS.int 2) with (JS.int 10)
    by (apply Qc_is_canon; reflexivity).
  generalize (Bird.y b). intros y H. qc_lra.
Qed.

Lemma checkCollisions_spec (canvasHeight : Qc) (g : t) :
  (checkCollisions canvasHeight g).2
  = PipeManager.checkCollision (bird g) (pipeManager g)
    || Bird.isGrounded canvasHeight (bird g)
  /\ (if (checkCollisions canvasHeight g).2
      then collisionPoint (checkCollisions canvasHeight g).1
           = Some (Bird.x (bird g), Bird.y (bird g))
      else (checkCollisions canvasHeight g).1 = g)
  /\ currentState (checkCollisions canvasHeight g).1 = currentState g
  /\ bird (checkCollisions canvasHeight g).1 = bird g
  /\ pipeManager (checkCollisions canvasHeight g).1 = pipeManager g
  /\ scoreManager (checkCollisions canvasHeight g).1 = scoreManager g.
Proof.
  unfold checkCollisions.
  destruct (PipeManager.checkCollision _ _); [done|].
  destruct (Bird.isGrounded canvasHeight (bird g)) eqn:Hg; [done|].
  destruct (Bird.isOutOfBounds canvasHeight (bird g)) eqn:Ho; [|done].
  apply out_of_bounds_is_grounded in Ho. congruence.
Qed.

Lemma incrementScore_fst (now : Z) (st : ScoreManager.t * LocalStorage.t) :
  (ScoreStorage.incrementScore now st).1 = ScoreManager.incrementScore now st.1.
Proof. unfold ScoreStorage.incrementScore. by case_bool_decide. Qed.

Lemma updateAnimations_scores (now : Z) (s : ScoreManager.t) :
  ScoreManager.currentScore (ScoreManager.updateAnimations now s)
  = ScoreManager.currentScore s
  /\ ScoreManager.highScore (ScoreManager.updateAnimations now s)
     = ScoreManager.highScore s.
Proof. done. Qed.

End FrameFacts.

(** X18.  The third test of [checkCollisions] never decides: a bird that
    is out of bounds is on the ground already, so the call answers true
    exactly when the bird hits a pipe or is on the ground, and whenever
    it answers true the collision point is the bird's position; when it
    answers false nothing has changed. *)
Theorem collision_is_pipe_or_ground (canvasHeight : Qc) (g : GameStateManager.t) :
  (Bird.isOutOfBounds canvasHeight (GameStateManager.bird g) = true ->
   Bird.isGrounded canvasHeight (GameStateManager.bird g) = true)
  /\ (GameStateManager.checkCollisions canvasHeight g).2
     = PipeManager.checkCollision (GameStateManager.bird g)
         (GameStateManager.pipeManager g)
       || Bird.isGrounded canvasHeight (GameStateManager.bird g)
  /\ (if (GameStateManager.checkCollisions canvasHeight g).2
      then GameStateManager.collisionPoint
             (GameStateManager.checkCollisions canvasHeight g).1
           = Some (Bird.x (GameStateManager.bird g), Bird.y (GameStateManager.bird g))
      else (GameStateManager.checkCollisions canvasHeight g).1 = g).
Proof.
  destruct (checkCollisions_spec canvasHeight g) as (H1 & H2 & _).
  split_and!; [apply out_of_bounds_is_grounded | done | done].
Qed.

Lemma collision_is_pipe_or_ground_witness :
  let g := GameStateManager.mk GameStateManager.PLAYING
             (Bird.new (JS.int 80) (JS.int 600)) Scenario.field0
             Scenario.score0 None (JS.int 100) 0 Scenario.storage0 in
  Bird.isOutOfBounds (JS.int 568) (GameStateManager.bird g) = true
  /\ Bird.isGrounded (JS.int 568) (GameStateManager.bird g) = true.
Proof.
  intros g.
  assert (H : Bird.isOutOfBounds (JS.int 568) (GameStateManager.bird g) = true)
    by (vm_compute; reflexivity).
  split; [exact H|].
  exact (proj1 (collision_is_pipe_or_ground (JS.int 568) g) H).
Defined.

(** X19.  What a frame can do to the phase and the score.  In the menu a
    frame keeps the menu, the bird and both scores, and the preview bird
    never ends a frame below 150.  In play a frame either stays in play
    or ends the game, then with the collision point set to where the bird
    is; it adds 0 or 1 to the current score and never lowers the high
    score.  After the game is over a frame keeps the phase, the pipes and
    both scores.  No frame ever starts a game. *)
Theorem frames_only_end_games (canvasHeight : Qc)
    (f : GameStateManager.Frame) (g : GameStateManager.t) :
  let g' := GameStateManager.frame canvasHeight f g in
  let current x := ScoreManager.currentScore (GameStateManager.scoreManager x) in
  let high x := ScoreManager.highScore (GameStateManager.scoreManager x) in
  match GameStateManager.currentState g with
  | GameStateManager.MENU =>
      GameStateManager.currentState g' = GameStateManager.MENU
      /\ GameStateManager.bird g' = GameStateManager.bird g
      /\ current g' = current g /\ high g' = high g
      /\ GameStateManager.menuBirdY g' <= JS.int 150
  | GameStateManager.PLAYING =>
      (GameStateManager.currentState g' = GameStateManager.PLAYING
       \/ (GameStateManager.currentState g' = GameStateManager.GAME_OVER
           /\ GameStateManager.collisionPoint g'
              = Some (Bird.x (GameStateManager.bird g'),
                      Bird.y (GameStateManager.bird g'))))
      /\ GameStateManager.bird g' = Bird.update (GameStateManager.bird g)
      /\ (current g' = current g \/ current g' = (current g + 1)%Z)
      /\ (high g <= high g')%Z
  | GameStateManager.GAME_OVER =>
      GameStateManager.currentState g' = GameStateManager.GAME_OVER
      /\ GameStateManager.pipeManager g' = GameStateManager.pipeManager g
      /\ current g' = current g /\ high g' = high g
  end.
Proof.
  intros g' current high. subst g' current high.
  unfold GameStateManager.frame, GameStateManager.update.
  destruct (GameStateManager.currentState g) eqn:Hst.
  - unfold GameStateManager.render, GameStateManager.updateMenuState.
    cbn [GameStateManager.currentState]. rewrite Hst.
    cbn [GameStateManager.currentState GameStateManager.bird
         GameStateManager.scoreManager GameStateManager.menuBirdY].
    split_and!; try done.
    case_bool_decide as Hb; [apply Qcle_refl | by apply Qcnot_lt_le].
  - unfold GameStateManager.updatePlayingState.
    set (g1 := GameStateManager.mk _ _ _ _ _ _ _ _).
    destruct (checkCollisions_spec canvasHeight g1) as (_ & Hpt & Hs & Hb & _ & Hsm).
    assert (Hg1 : GameStateManager.currentState g1 = GameStateManager.PLAYING) by done.
    assert (Hscore :
      (ScoreManager.currentScore (GameStateManager.scoreManager g1)
       = ScoreManager.currentScore (GameStateManager.scoreManager g)
       \/ ScoreManager.currentScore (GameStateManager.scoreManager g1)
          = (ScoreManager.currentScore (GameStateManager.scoreManager g) + 1)%Z)
      /\ (ScoreManager.highScore (GameStateManager.scoreManager g)
          <= ScoreManager.highScore (GameStateManager.scoreManager g1))%Z).
    { subst g1. cbn [GameStateManager.scoreManager].
      destruct (PipeManager.checkScore _ _).2; cbn [fst];
        [|split; [by left | lia]].
      rewrite incrementScore_fst. cbn [fst].
      unfold ScoreManager.incrementScore, ScoreManager.scorePerPipe. simpl.
      split; [by right | case_bool_decide; lia]. }
    destruct (GameStateManager.checkCollisions canvasHeight g1).2.
    + unfold GameStateManager.render, GameStateManager.setState,
        GameStateManager.enterGameOverState.
      cbn [GameStateManager.currentState GameStateManager.bird
           GameStateManager.scoreManager GameStateManager.collisionPoint].
      rewrite Hsm, Hb, Hpt.
      unfold ScoreManager.updateAnimations. cbn [ScoreManager.currentScore
        ScoreManager.highScore]. split_and!; [by right | done | tauto | tauto].
    + unfold GameStateManager.render. rewrite Hpt, Hg1.
      cbn [GameStateManager.currentState GameStateManager.bird
           GameStateManager.scoreManager].
      unfold ScoreManager.updateAnimations. cbn [ScoreManager.currentScore
        ScoreManager.highScore]. split_and!; [by left | done | tauto | tauto].
  - unfold GameStateManager.render, GameStateManager.updateGameOverState.
    cbn [GameStateManager.currentState]. rewrite Hst.
    by cbn [GameStateManager.currentState GameStateManager.pipeManager
            GameStateManager.scoreManager ScoreManager.updateAnimations
            ScoreManager.currentScore ScoreManager.highScore].
Qed.

Section Landing.

Import Bird.

Lemma nat_above (q : Qc) : exists n : nat, q <= JS.int (Z.of_nat n).
Proof.
  exists (Z.to_nat (Qceiling q)). unfold Qcle, JS.int, Qc_of_Z. cbn [this].
  eapply Qle_trans; [apply Qle_ceiling|]. rewrite <- Zle_Qle. lia.
Qed.

Lemma update_velocity_lb (s : t) :
  0 <= velocity (update s) \/ velocity s + gravity <= velocity (update s).
Proof.
  unfold update, maxFallVelocity, gravity; simpl.
  repeat case_bool_decide; (left; qc_lra) || (right; qc_lra).
Qed.

Lemma iter_velocity_lb (b : t) (n : nat) :
  0 <= velocity (Nat.iter n update b)
  \/ velocity b + JS.int (Z.of_nat n) * gravity <= velocity (Nat.iter n update b).
Proof.
  induction n as [|n IH].
  - right. change (Nat.iter 0 update b) with b. change (Z.of_nat 0) with 0%Z.
    unfold gravity. generalize (velocity b). intros. qc_lra.
  - rewrite Nat.iter_succ. set (s := Nat.iter n update b) in *.
    destruct (update_velocity_lb s) as [H | H]; [by left|].
    destruct IH as [IH | IH].
    + left. revert H IH. unfold gravity.
      generalize (velocity (update s)) (velocity s). intros. qc_lra.
    + right. rewrite int_succ, int_1. revert H IH. unfold gravity.
      generalize (velocity (update s)) (velocity s) (velocity b)
        (JS.int (Z.of_nat n)). intros. qc_lra.
Qed.

Lemma update_descends (s : t) :
  0 <= velocity s -> 0 <= y s ->
  0 <= velocity (update s) /\ y s + gravity <= y (update s).
Proof.
  unfold update, maxFallVelocity, gravity; simpl. intros Hv Hy.
  repeat case_bool_decide; split; qc_lra.
Qed.

Lemma iter_descends (s : t) (k : nat) :
  0 <= velocity s -> 0 <= y s ->
  0 <= velocity (Nat.iter k update s)
  /\ y s + JS.int (Z.of_nat k) * gravity <= y (Nat.iter k update s).
Proof.
  intros Hv Hy. induction k as [|k [IHv IHy]].
  - change (Nat.iter 0 update s) with s. change (Z.of_nat 0) with 0%Z.
    split; [done|]. unfold gravity. generalize (y s). intros. qc_lra.
  - rewrite Nat.iter_succ. set (s' := Nat.iter k update s) in *.
    assert (Hy' : 0 <= y s').
    { pose proof (int_nat_nonneg k) as Hk. revert IHy Hy Hk. unfold gravity.
      generalize (y s') (y s) (JS.int (Z.of_nat k)). intros. qc_lra. }
    destruct (update_descends s' IHv Hy') as [Hv1 Hy1]. split; [done|].
    rewrite int_succ, int_1. revert IHy Hy1. unfold gravity.
    generalize (y (update s')) (y s') (y s) (JS.int (Z.of_nat k)). intros. qc_lra.
Qed.

(** Left to [update], the bird ends up below any given height. *)
Lemma falls_below (b : t) (T : Qc) :
  exists n, T <= y (Nat.iter n update b).
Proof.
  destruct (nat_above (- velocity b * JS.int 2)) as [n0 Hn0].
  destruct (nat_above (T * JS.int 2)) as [k Hk].
  exists (k + S n0)%nat. rewrite Nat.iter_add.
  set (s := Nat.iter (S n0) update b).
  assert (Hv : 0 <= velocity s).
  { destruct (iter_velocity_lb b (S n0)) as [H | H]; [done|]. fold s in H.
    rewrite int_succ, int_1 in H. revert H Hn0. unfold gravity.
    generalize (velocity s) (velocity b) (JS.int (Z.of_nat n0)). intros. qc_lra. }
  assert (Hy : 0 <= y s) by (subst s; rewrite Nat.iter_succ; apply update_y_nonneg).
  destruct (iter_descends s k Hv Hy) as [_ H].
  revert H Hk Hy. unfold gravity.
  generalize (y (Nat.iter k update s)) (y s) (JS.int (Z.of_nat k)). intros. qc_lra.
Qed.

Variable canvasHeight : Qc.

Let settle := GameStateManager.afterDeath canvasHeight.

Lemma grounded_iff (b : t) :
  isGrounded canvasHeight b = true <-> canvasHeight - JS.int 60 <= y b.
Proof.
  unfold isGrounded. rewrite bool_decide_eq_true.
  replace (height / JS.int 2) with (JS.int 10) by (apply Qc_is_canon; reflexivity).
  generalize (y b). intros. split; intros; qc_lra.
Qed.

Lemma settle_or_fall (b : t) (n : nat) :
  (exists k, (k <= n)%nat /\ isGrounded canvasHeight (Nat.iter k settle b) = true)
  \/ Nat.iter n settle b = Nat.iter n update b.
Proof.
  induction n as [|n [(k & Hk & Hg) | IH]].
  - by right.
  - left. exists k. split; [lia | done].
  - destruct (isGrounded canvasHeight (Nat.iter n settle b)) eqn:Hg.
    + left. exists n. split; [lia | done].
    + right. rewrite !Nat.iter_succ. rewrite <- IH.
      unfold settle at 1, GameStateManager.afterDeath. by rewrite Hg.
Qed.

Lemma lands (b : t) :
  exists n, isGrounded canvasHeight (Nat.iter n settle b) = true.
Proof.
  destruct (falls_below b (canvasHeight - JS.int 60)) as [n Hn].
  destruct (settle_or_fall b n) as [(k & _ & Hg) | Heq]; [by exists k|].
  exists n. apply grounded_iff. by rewrite Heq.
Qed.

Lemma stays_landed (b : t) (m : nat) :
  isGrounded canvasHeight b = true ->
  isGrounded canvasHeight (Nat.iter m settle b) = true
  /\ y (Nat.iter m settle b) = y b
  /\ x (Nat.iter m settle b) = x b.
Proof.
  intros Hg. induction m as [|m (IHg & IHy & IHx)]; [done|].
  rewrite Nat.iter_succ. unfold settle at 1 3 5, GameStateManager.afterDeath.
  rewrite IHg. simpl. split_and!; [|done|done].
  apply grounded_iff. simpl. rewrite IHy. by apply grounded_iff.
Qed.

Lemma settle_keeps_x (b : t) (m : nat) : x (Nat.iter m settle b) = x b.
Proof.
  induction m as [|m IH]; [done|]. rewrite Nat.iter_succ.
  unfold settle at 1, GameStateManager.afterDeath.
  by destruct (negb _).
Qed.

Lemma frames_game_over (fs : nat -> GameStateManager.Frame)
    (g : GameStateManager.t) (n : nat) :
  GameStateManager.currentState g = GameStateManager.GAME_OVER ->
  GameStateManager.currentState (GameStateManager.frames canvasHeight fs n g)
  = GameStateManager.GAME_OVER
  /\ GameStateManager.bird (GameStateManager.frames canvasHeight fs n g)
     = Nat.iter n settle (GameStateManager.bird g).
Proof.
  intros Hst. induction n as [|n [IHs IHb]]; [done|].
  cbn [GameStateManager.frames]. rewrite Nat.iter_succ, <- IHb.
  unfold GameStateManager.frame, GameStateManager.update. rewrite IHs.
  unfold GameStateManager.render, GameStateManager.updateGameOverState.
  cbn [GameStateManager.currentState]. rewrite IHs. done.
Qed.

End Landing.

(** X20.  Once the game is over and no input comes, the bird always
    reaches the ground and stays where it lands: from some frame on it is
    grounded at every frame, at one and the same height (the [bounce] of
    the game-over phase changes the velocity, not the position), at the x
    it had, and the phase is still Game Over. *)
Theorem bird_lands_and_stays (canvasHeight : Qc)
    (fs : nat -> GameStateManager.Frame) (g : GameStateManager.t) :
  GameStateManager.currentState g = GameStateManager.GAME_OVER ->
  exists n, forall m, (n <= m)%nat ->
    let at_ k := GameStateManager.frames canvasHeight fs k g in
    GameStateManager.currentState (at_ m) = GameStateManager.GAME_OVER
    /\ Bird.isGrounded canvasHeight (GameStateManager.bird (at_ m)) = true
    /\ Bird.y (GameStateManager.bird (at_ m)) = Bird.y (GameStateManager.bird (at_ n))
    /\ Bird.x (GameStateManager.bird (at_ m)) = Bird.x (GameStateManager.bird g).
Proof.
  intros Hst. destruct (lands canvasHeight (GameStateManager.bird g)) as [n Hn].
  exists n. intros m Hm at_. subst at_. cbv beta.
  destruct (frames_game_over canvasHeight fs g m Hst) as [Hs ->].
  destruct (frames_game_over canvasHeight fs g n Hst) as [_ ->].
  assert (E : Nat.iter m (GameStateManager.afterDeath canvasHeight)
                (GameStateManager.bird g)
              = Nat.iter (m - n) (GameStateManager.afterDeath canvasHeight)
                  (Nat.iter n (GameStateManager.afterDeath canvasHeight)
                     (GameStateManager.bird g))).
  { rewrite <- Nat.iter_add. f_equal. lia. }
  rewrite E.
  destruct (stays_landed canvasHeight _ (m - n) Hn) as (Hg & Hy & Hx).
  split_and!; [done | done | done |].
  rewrite Hx. apply settle_keeps_x.
Qed.

Lemma bird_lands_and_stays_witness :
  GameStateManager.currentState Scenario.crashed = GameStateManager.GAME_OVER
  /\ exists n, forall m, (n <= m)%nat ->
       Bird.isGrounded (JS.int 568)
         (GameStateManager.bird
            (GameStateManager.frames (JS.int 568) (fun _ => Scenario.frame0) m
               Scenario.crashed)) = true.
Proof.
  assert (H : GameStateManager.currentState Scenario.crashed
              = GameStateManager.GAME_OVER) by reflexivity.
  split; [exact H|].
  destruct (bird_lands_and_stays (JS.int 568) (fun _ => Scenario.frame0)
              Scenario.crashed H) as [n Hn].
  exists n. intros m Hm. exact (proj1 (proj2 (Hn m Hm))).
Defined.

(** In the 568 pixel high canvas the crashed bird of the scenario, which
    starts at y = 200 at rest, is on the ground after 38 frames, at
    y = 518, and still there 100 frames later. *)
Example crashed_bird_lands :
  let at_ k := GameStateManager.bird
    (GameStateManager.frames (JS.int 568) (fun _ => Scenario.frame0) k
       Scenario.crashed) in
  Bird.isGrounded (JS.int 568) (at_ 37%nat) = false
  /\ Bird.isGrounded (JS.int 568) (at_ 38%nat) = true
  /\ Bird.y (at_ 38%nat) = JS.int 518
  /\ Bird.y (at_ 138%nat) = JS.int 518.
Proof.
  intros at_. subst at_. apply (bool_decide_unpack _). vm_compute. exact I.
Qed.

(** ** Score popups *)

Section PopupFacts.

Import ScoreManager.

Lemma progress_quotient (e : Z) :
  JS.int e / JS.int scorePopupDuration = JS.ratio e 1000.
Proof.
  apply Qc_is_canon. unfold Qcdiv, Qcinv, scorePopupDuration. qc_unfold.
  unfold Qeq, Qmult, Qinv. simpl. lia.
Qed.

Lemma ratio1000_ge_1 (e : Z) : 1 <= JS.ratio e 1000 <-> (1000 <= e)%Z.
Proof. qc_unfold. unfold Qle. simpl. lia. Qed.

Lemma ratio1000_nonneg (e : Z) : 0 <= JS.ratio e 1000 <-> (0 <= e)%Z.
Proof. qc_unfold. unfold Qle. simpl. lia. Qed.

Lemma animate_Some (now : Z) (a a' : ScorePopup) :
  animate now a = Some a' ->
  (now - startTime a < 1000)%Z
  /\ startTime a' = startTime a
  /\ popX a' = popX a
  /\ popY a' = popY a - 1
  /\ opacity a' = 1 - JS.ratio (now - startTime a) 1000
  /\ scale a' = JS.ratio 1 2 + JS.ratio (now - startTime a) 1000 * JS.ratio 1 2.
Proof.
  unfold animate. rewrite progress_quotient. case_bool_decide as Hp; [done|].
  intros [= <-]. simpl. split_and!; try done.
  rewrite ratio1000_ge_1 in Hp. lia.
Qed.

Lemma animate_None (now : Z) (a : ScorePopup) :
  animate now a = None <-> (1000 <= now - startTime a)%Z.
Proof.
  unfold animate. rewrite progress_quotient.
  case_bool_decide as Hp; rewrite ratio1000_ge_1 in Hp; split; (done || lia).
Qed.

Lemma updateAnimations_loop_omap (now : Z) (l : list ScorePopup) :
  updateAnimations_loop now l = omap (animate now) l.
Proof.
  induction l as [|a l IH]; [done|]. simpl. rewrite IH.
  by destruct (animate now a).
Qed.

End PopupFacts.

(** X21.  [updateAnimations] drops every popup that is a second old or
    more and keeps the others in order, each moved up by one; a popup it
    keeps that was not started in the future has an opacity in (0, 1] and
    a scale in [1/2, 1). *)
Theorem popups_live_under_a_second (now : Z) (s : ScoreManager.t) :
  let kept := ScoreManager.scoreAnimations (ScoreManager.updateAnimations now s) in
  ScoreManager.startTime <$> kept
  = filter (fun t0 => (now - t0 < 1000)%Z)
      (ScoreManager.startTime <$> ScoreManager.scoreAnimations s)
  /\ Forall (fun a =>
               (ScoreManager.startTime a <= now)%Z ->
               0 < ScoreManager.opacity a /\ ScoreManager.opacity a <= 1
               /\ JS.ratio 1 2 <= ScoreManager.scale a /\ ScoreManager.scale a < 1)
       kept
  /\ (ScoreManager.popY <$> kept
      = (fun a => ScoreManager.popY a - 1)
          <$> filter (fun a => (now - ScoreManager.startTime a < 1000)%Z)
                (ScoreManager.scoreAnimations s)).
Proof.
  intros kept. subst kept. unfold ScoreManager.updateAnimations.
  cbn [ScoreManager.scoreAnimations]. rewrite updateAnimations_loop_omap.
  split_and!.
  - induction (ScoreManager.scoreAnimations s) as [|a l IH]; [done|].
    cbn [omap list_omap fmap list_fmap]. rewrite filter_cons.
    destruct (ScoreManager.animate now a) as [a'|] eqn:Ha.
    + apply animate_Some in Ha as (Hlt & Hst & _).
      rewrite decide_True by done. cbn [fmap list_fmap]. by rewrite Hst, <- IH.
    + apply animate_None in Ha. rewrite decide_False by lia. exact IH.
  - apply Forall_forall. intros a' Ha'.
    apply list_elem_of_omap in Ha' as (a & _ & Ha).
    apply animate_Some in Ha as (Hlt & Hst & _ & _ & Ho & Hs).
    intros Hpast. rewrite Ho, Hs. rewrite Hst in Hpast.
    assert (H0 : 0 <= JS.ratio (now - ScoreManager.startTime a) 1000)
      by (apply ratio1000_nonneg; lia).
    assert (H1 : ~ 1 <= JS.ratio (now - ScoreManager.startTime a) 1000)
      by (rewrite ratio1000_ge_1; lia).
    revert H0 H1. generalize (JS.ratio (now - ScoreManager.startTime a) 1000).
    intros r ? ?. split_and!; qc_lra.
  - induction (ScoreManager.scoreAnimations s) as [|a l IH]; [done|].
    cbn [omap list_omap]. rewrite filter_cons.
    destruct (ScoreManager.animate now a) as [a'|] eqn:Ha.
    + apply animate_Some in Ha as (Hlt & _ & _ & Hy & _).
      rewrite decide_True by done. cbn [fmap list_fmap]. by rewrite Hy, <- IH.
    + apply animate_None in Ha. rewrite decide_False by lia. exact IH.
Qed.

Lemma popups_live_under_a_second_witness :
  let kept := ScoreManager.scoreAnimations
                (ScoreManager.updateAnimations 5000
                   (ScoreManager.incrementScore 4500 Scenario.score0)) in
  Forall (fun a => (ScoreManager.startTime a <= 5000)%Z) kept
  /\ Forall (fun a => 0 < ScoreManager.opacity a /\ ScoreManager.scale a < 1) kept.
Proof.
  intros kept.
  destruct (popups_live_under_a_second 5000
              (ScoreManager.incrementScore 4500 Scenario.score0))
    as (Hst & Hall & _).
  fold kept in Hst, Hall.
  assert (Hpast : Forall (fun a => (ScoreManager.startTime a <= 5000)%Z) kept).
  { apply (Forall_fmap ScoreManager.startTime (fun t0 => (t0 <= 5000)%Z)).
    rewrite Hst. apply (bool_decide_unpack _). vm_compute. exact I. }
  split; [exact Hpast|].
  rewrite Forall_forall in Hall, Hpast |- *. intros a Ha.
  destruct (Hall a Ha (Hpast a Ha)) as (Ho & _ & _ & Hs). split; [exact Ho | exact Hs].
Defined.

(** ** The next pipe *)

Section NextPipeFacts.

Import PipeManager.

Lemma find_first {A : Type} (P : A -> bool) (l : list A) (a : A) :
  List.find P l = Some a ->
  exists l1 l2, l = l1 ++ a :: l2 /\ P a = true /\ Forall (fun b => P b = false) l1.
Proof.
  induction l as [|b l IH]; [done|]. simpl. destruct (P b) eqn:Hb.
  - intros [= ->]. exists [], l. by split_and!.
  - intros (l1 & l2 & -> & Ha & Hall)%IH. exists (b :: l1), l2.
    split_and!; [done | done | by constructor].
Qed.

Lemma find_none {A : Type} (P : A -> bool) (l : list A) :
  List.find P l = None <-> Forall (fun b => P b = false) l.
Proof.
  induction l as [|b l IH]; simpl; [split; [constructor | done]|].
  rewrite Forall_cons. destruct (P b); [split; [done | by intros [? _]]|].
  rewrite IH. naive_solver.
Qed.

End NextPipeFacts.

(** X22.  In a field stored left to right (as [update] keeps it),
    [getNextPipe] returns the nearest pipe whose right edge is still ahead
    of the given x: it is in the field, its right edge is ahead, and no
    other pipe with its right edge ahead is further left; it returns
    nothing exactly when every pipe's right edge is at or behind x. *)
Theorem next_pipe_is_nearest_ahead (birdX : Qc) (pm : PipeManager.t) :
  StronglySorted PipeManager.spaced (PipeManager.pipes pm) ->
  match PipeManager.getNextPipe birdX pm with
  | Some p =>
      p ∈ PipeManager.pipes pm
      /\ birdX < PipeManager.x p + PipeManager.pipeWidth
      /\ forall q, q ∈ PipeManager.pipes pm ->
           birdX < PipeManager.x q + PipeManager.pipeWidth ->
           PipeManager.x p <= PipeManager.x q
  | None =>
      Forall (fun q => PipeManager.x q + PipeManager.pipeWidth <= birdX)
        (PipeManager.pipes pm)
  end.
Proof.
  intros Hs. unfold PipeManager.getNextPipe.
  destruct (List.find _ (PipeManager.pipes pm)) as [p|] eqn:Hfind.
  - apply find_first in Hfind as (l1 & l2 & Hl & Hp & Hbehind).
    apply bool_decide_eq_true in Hp. rewrite Hl in Hs |- *.
    split_and!; [apply elem_of_app; right; by left | done |].
    intros q Hq Hahead. apply elem_of_app in Hq as [Hq | Hq].
    + rewrite Forall_forall in Hbehind. specialize (Hbehind q Hq).
      apply bool_decide_eq_false in Hbehind. done.
    + apply elem_of_cons in Hq as [-> | Hq]; [apply Qcle_refl|].
      apply StronglySorted_app_1_r in Hs.
      apply StronglySorted_cons in Hs as [Hall _].
      rewrite Forall_forall in Hall. specialize (Hall q Hq). revert Hall.
      unfold PipeManager.spaced, PipeManager.pipeSpacing.
      generalize (PipeManager.x p) (PipeManager.x q). intros. qc_lra.
  - apply find_none in Hfind. eapply Forall_impl; [exact Hfind|].
    intros q Hq. apply bool_decide_eq_false in Hq. by apply Qcnot_lt_le.
Qed.

Lemma next_pipe_is_nearest_ahead_witness :
  StronglySorted PipeManager.spaced
    (PipeManager.pipes (PipeManager.run Scenario.envs 150 Scenario.field0))
  /\ match PipeManager.getNextPipe (JS.int 80)
             (PipeManager.run Scenario.envs 150 Scenario.field0) with
     | Some p => p ∈ PipeManager.pipes (PipeManager.run Scenario.envs 150 Scenario.field0)
     | None => True
     end.
Proof.
  assert (H : StronglySorted PipeManager.spaced
                (PipeManager.pipes (PipeManager.run Scenario.envs 150 Scenario.field0)))
    by apply (run_spaced Scenario.envs 150 (JS.int 320) (JS.int 568)).
  split; [exact H|].
  pose proof (next_pipe_is_nearest_ahead (JS.int 80)
                (PipeManager.run Scenario.envs 150 Scenario.field0) H) as Hn.
  destruct (PipeManager.getNextPipe _ _); [exact (proj1 Hn) | exact I].
Defined.

(** ** A game without input *)

Section Idle.

Import GameStateManager.

Lemma checkScore_none (b : Bird.t) (pm : PipeManager.t) :
  Forall (fun p => Bird.x b <= PipeManager.x p + PipeManager.pipeWidth)
    (PipeManager.pipes pm) ->
  PipeManager.checkScore b pm = (pm, false).
Proof.
  intros Hall. unfold PipeManager.checkScore.
  assert (E : PipeManager.checkScore_loop (Bird.x b) (PipeManager.scoredPipes pm)
                (PipeManager.pipes pm)
              = (PipeManager.scoredPipes pm, false)).
  { induction Hall as [|p ps Hp _ IH]; [done|]. simpl. unfold PipeManager.scores.
    rewrite bool_decide_eq_false_2; [exact IH|]. by apply Qcle_not_lt. }
  rewrite E. by destruct pm.
Qed.

Lemma checkCollision_none (b : Bird.t) (pm : PipeManager.t) :
  Forall (fun p => Bird.x b + JS.int 10 <= PipeManager.x p) (PipeManager.pipes pm) ->
  PipeManager.checkCollision b pm = false.
Proof.
  intros Hall. unfold PipeManager.checkCollision.
  induction Hall as [|p ps Hp _ IH]; [done|]. simpl. rewrite IH, orb_false_r.
  unfold PipeManager.checkPipeCollision, Bird.getBounds.
  cbn [Bird.Bounds.x Bird.Bounds.width].
  rewrite bool_decide_eq_false_2; [done|].
  replace (Bird.width / JS.int 2) with (JS.int 10)
    by (apply Qc_is_canon; reflexivity).
  unfold Bird.width. revert Hp. generalize (Bird.x b) (PipeManager.x p).
  intros. qc_lra.
Qed.

Lemma update_ahead (e : PipeManager.Env) (pm : PipeManager.t) (c : Qc) :
  c - PipeManager.pipeSpeed <= PipeManager.canvasWidth pm ->
  Forall (fun p => c <= PipeManager.x p) (PipeManager.pipes pm) ->
  Forall (fun p => c - PipeManager.pipeSpeed <= PipeManager.x p)
    (PipeManager.pipes (PipeManager.update e pm)).
Proof.
  intros Hw Hall. rewrite Forall_forall in Hall |- *. intros q Hq.
  apply elem_of_update in Hq as [(p & Hp & -> & _) | [_ ->]]; [|done].
  specialize (Hall p Hp). unfold PipeManager.move. simpl.
  revert Hall. generalize (PipeManager.x p) PipeManager.pipeSpeed. intros. qc_lra.
Qed.

Lemma checkCollisions_storage (canvasHeight : Qc) (g : t) :
  storage (checkCollisions canvasHeight g).1 = storage g.
Proof.
  unfold checkCollisions.
  by repeat match goal with |- context [if ?b then _ else _] => destruct b end.
Qed.

(** A frame of play with every pipe still ahead of the bird: nothing is
    scored, no pipe is hit, and the game ends exactly when the bird
    touches the ground. *)
Lemma playing_frame (canvasHeight : Qc) (f : Frame) (g : t) (c : Qc) :
  currentState g = PLAYING ->
  c - PipeManager.pipeSpeed <= PipeManager.canvasWidth (pipeManager g) ->
  Bird.x (bird g) + JS.int 10 <= c - PipeManager.pipeSpeed ->
  Forall (fun p => c <= PipeManager.x p) (PipeManager.pipes (pipeManager g)) ->
  let g' := frame canvasHeight f g in
  bird g' = Bird.update (bird g)
  /\ ScoreManager.currentScore (scoreManager g')
     = ScoreManager.currentScore (scoreManager g)
  /\ ScoreManager.highScore (scoreManager g')
     = ScoreManager.highScore (scoreManager g)
  /\ PipeManager.canvasWidth (pipeManager g')
     = PipeManager.canvasWidth (pipeManager g)
  /\ Forall (fun p => c - PipeManager.pipeSpeed <= PipeManager.x p)
       (PipeManager.pipes (pipeManager g'))
  /\ storage g' = storage g
  /\ (if Bird.isGrounded canvasHeight (Bird.update (bird g))
      then currentState g' = GAME_OVER
           /\ collisionPoint g'
              = Some (Bird.x (bird g), Bird.y (Bird.update (bird g)))
      else currentState g' = PLAYING /\ collisionPoint g' = collisionPoint g).
Proof.
  intros Hst Hw Hx Hall g'. subst g'. unfold frame, update. rewrite Hst.
  unfold updatePlayingState.
  pose proof (update_ahead (pipeEnv f) (pipeManager g) c Hw Hall) as Hall'.
  pose proof (update_canvasWidth (pipeEnv f) (pipeManager g)) as Hcw.
  set (pm' := PipeManager.update (pipeEnv f) (pipeManager g)) in *.
  set (b' := Bird.update (bird g)).
  assert (Hx' : Bird.x b' = Bird.x (bird g)) by reflexivity.
  assert (Hfar : Forall (fun p => Bird.x b' + JS.int 10 <= PipeManager.x p)
                   (PipeManager.pipes pm')).
  { eapply Forall_impl; [exact Hall'|]. intros p Hp. simpl in Hp. rewrite Hx'.
    exact (Qcle_trans _ _ _ Hx Hp). }
  rewrite (checkScore_none b' pm').
  2:{ eapply Forall_impl; [exact Hfar|]. intros p. simpl.
      unfold PipeManager.pipeWidth.
      generalize (Bird.x b') (PipeManager.x p). intros. qc_lra. }
  cbn [fst snd].
  match goal with |- context [checkCollisions canvasHeight ?g1] =>
    destruct (checkCollisions_spec canvasHeight g1)
      as (H2 & Hcp & Hs1 & Hb1 & Hp1 & Hsc1);
    pose proof (checkCollisions_storage canvasHeight g1) as Hgp;
    destruct (checkCollisions canvasHeight g1) as [gh hit]
  end.
  cbn [fst snd bird pipeManager scoreManager currentState storage] in *.
  rewrite (checkCollision_none b' pm' Hfar) in H2. simpl in H2. subst hit.
  destruct (Bird.isGrounded canvasHeight b') eqn:Hg.
  - unfold setState, enterGameOverState, render.
    cbn [currentState bird pipeManager scoreManager collisionPoint storage
         menuBirdY menuBirdVelocity].
    rewrite Hb1, Hp1, Hsc1, Hcp, Hx'. by split_and!.
  - subst gh. unfold render.
    cbn [currentState bird pipeManager scoreManager collisionPoint storage
         menuBirdY menuBirdVelocity].
    rewrite Hst. cbn [currentState bird pipeManager scoreManager collisionPoint
                       storage]. by split_and!.
Qed.

End Idle.

(** X23.  A game nobody plays.  After a restart, as long as no pipe can
    have reached the bird (a pipe enters at the canvas edge and moves 2 a
    frame; the bird's right edge is at 90), the game goes on exactly as
    long as the bird, falling freely from (80, 200), has not touched the
    ground: if it is first grounded after [n] ticks, the game is in play
    at every frame before the [n]-th and over at the [n]-th, with the
    bird on its free-fall path throughout, the collision point where it
    landed, no point scored, the high score untouched, and the storage
    as the one call of [incrementGamesPlayed] at the restart left it. *)
Theorem idle_game_ends_on_the_ground (canvasHeight : Qc)
    (fs : nat -> GameStateManager.Frame) (g : GameStateManager.t) (n : nat) :
  let fall k := Nat.iter k Bird.update (Bird.new (JS.int 80) (JS.int 200)) in
  let at_ k :=
    GameStateManager.frames canvasHeight fs k (GameStateManager.restartGame g) in
  let current x := ScoreManager.currentScore (GameStateManager.scoreManager x) in
  let high x := ScoreManager.highScore (GameStateManager.scoreManager x) in
  JS.int 90
  <= PipeManager.canvasWidth (GameStateManager.pipeManager g)
     - JS.int (2 * (Z.of_nat n - 1)) ->
  (forall k, (1 <= k < n)%nat -> Bird.isGrounded canvasHeight (fall k) = false) ->
  Bird.isGrounded canvasHeight (fall n) = true ->
  (1 <= n)%nat ->
  (forall k, (k < n)%nat ->
     GameStateManager.currentState (at_ k) = GameStateManager.PLAYING)
  /\ GameStateManager.currentState (at_ n) = GameStateManager.GAME_OVER
  /\ GameStateManager.collisionPoint (at_ n) = Some (JS.int 80, Bird.y (fall n))
  /\ (forall k, (k <= n)%nat ->
        GameStateManager.bird (at_ k) = fall k
        /\ current (at_ k) = 0%Z
        /\ high (at_ k) = high g
        /\ GameStateManager.storage (at_ k)
           = ScoreStorage.incrementGamesPlayed (GameStateManager.storage g)).
Proof.
  intros fall at_ current high Hw Hair Hland Hn.
  set (w := PipeManager.canvasWidth (GameStateManager.pipeManager g)) in *.
  assert (Hfx : forall k, Bird.x (fall k) = JS.int 80).
  { intros k. subst fall. induction k as [|k IH]; [done|].
    rewrite Nat.iter_succ. exact IH. }
  assert (Inv : forall k, (k <= n)%nat ->
    (if decide (k = n)
     then GameStateManager.currentState (at_ k) = GameStateManager.GAME_OVER
          /\ GameStateManager.collisionPoint (at_ k)
             = Some (JS.int 80, Bird.y (fall k))
     else GameStateManager.currentState (at_ k) = GameStateManager.PLAYING)
    /\ GameStateManager.bird (at_ k) = fall k
    /\ current (at_ k) = 0%Z
    /\ high (at_ k) = high g
    /\ GameStateManager.storage (at_ k)
       = ScoreStorage.incrementGamesPlayed (GameStateManager.storage g)
    /\ PipeManager.canvasWidth (GameStateManager.pipeManager (at_ k)) = w
    /\ Forall (fun p => w - JS.int (2 * (Z.of_nat k - 1)) <= PipeManager.x p)
         (PipeManager.pipes (GameStateManager.pipeManager (at_ k)))).
  { induction k as [|k IH]; intros Hk.
    - rewrite decide_False by lia. subst at_ current high. cbn. by split_and!.
    - destruct IH as (Hst & Hb & Hc & Hh & Hgp & Hcw & Hall); [lia|].
      rewrite decide_False in Hst by lia.
      assert (E : JS.int (2 * (Z.of_nat (S k) - 1))
                  = JS.int (2 * (Z.of_nat k - 1)) + PipeManager.pipeSpeed).
      { unfold PipeManager.pipeSpeed. rewrite int_plus. f_equal. lia. }
      assert (Hle : JS.int (2 * (Z.of_nat (S k) - 1))
                    <= JS.int (2 * (Z.of_nat n - 1))) by (apply int_le; lia).
      assert (H0 : JS.int 0 <= JS.int (2 * (Z.of_nat (S k) - 1)))
        by (apply int_le; lia).
      pose proof (playing_frame canvasHeight (fs k) (at_ k)
                    (w - JS.int (2 * (Z.of_nat k - 1)))) as Hf.
      destruct Hf as (Hb' & Hc' & Hh' & Hcw' & Hall' & Hgp' & Hend);
        [exact Hst | | | exact Hall |].
      + rewrite Hcw. revert E H0. unfold PipeManager.pipeSpeed.
        generalize (JS.int (2 * (Z.of_nat (S k) - 1)))
                   (JS.int (2 * (Z.of_nat k - 1))) w.
        intros a b c E H0. apply Qc_eq_le2 in E as [E1 E2]. qc_lra.
      + rewrite Hb, Hfx. revert E Hle Hw. unfold PipeManager.pipeSpeed.
        generalize (JS.int (2 * (Z.of_nat (S k) - 1)))
                   (JS.int (2 * (Z.of_nat k - 1)))
                   (JS.int (2 * (Z.of_nat n - 1))) w.
        intros a b c d E Hle Hw. apply Qc_eq_le2 in E as [E1 E2]. qc_lra.
      + change (at_ (S k))
          with (GameStateManager.frame canvasHeight (fs k) (at_ k)).
        assert (Efall : Bird.update (GameStateManager.bird (at_ k)) = fall (S k)).
        { rewrite Hb. subst fall. cbv beta. by rewrite Nat.iter_succ. }
        rewrite Efall in Hb', Hend. rewrite Hb, Hfx in Hend.
        split_and!.
        * destruct (decide (S k = n)) as [Heq | Hne].
          -- rewrite <- Heq in Hland. rewrite Hland in Hend. exact Hend.
          -- rewrite Hair in Hend by lia. exact (proj1 Hend).
        * exact Hb'.
        * subst current. cbv beta. by rewrite Hc'.
        * subst high. cbv beta. by rewrite Hh'.
        * by rewrite Hgp'.
        * by rewrite Hcw'.
        * eapply Forall_impl; [exact Hall'|]. intros p. cbv beta.
          revert E. unfold PipeManager.pipeSpeed.
          generalize (JS.int (2 * (Z.of_nat (S k) - 1)))
                     (JS.int (2 * (Z.of_nat k - 1))) w (PipeManager.x p).
          intros a b c d E H. apply Qc_eq_le2 in E as [E1 E2]. qc_lra. }
  split_and!.
  - intros k Hk. destruct (Inv k) as (Hst & _); [lia|].
    by rewrite decide_False in Hst by lia.
  - destruct (Inv n) as (Hst & _); [lia|].
    rewrite decide_True in Hst by done. exact (proj1 Hst).
  - destruct (Inv n) as (Hst & _); [lia|].
    rewrite decide_True in Hst by done. exact (proj2 Hst).
  - intros k Hk. destruct (Inv k Hk) as (_ & Hb & Hc & Hh & Hgp & _).
    by split_and!.
Qed.

Lemma idle_game_ends_on_the_ground_witness :
  let fall k := Nat.iter k Bird.update (Bird.new (JS.int 80) (JS.int 200)) in
  JS.int 90
  <= PipeManager.canvasWidth (GameStateManager.pipeManager Scenario.crashed)
     - JS.int (2 * (Z.of_nat 38 - 1))
  /\ (forall k, (1 <= k < 38)%nat -> Bird.isGrounded (JS.int 568) (fall k) = false)
  /\ Bird.isGrounded (JS.int 568) (fall 38%nat) = true
  /\ GameStateManager.currentState
       (GameStateManager.frames (JS.int 568) (fun _ => Scenario.frame0) 38
          (GameStateManager.restartGame Scenario.crashed))
     = GameStateManager.GAME_OVER.
Proof.
  intros fall.
  assert (Hw : JS.int 90
               <= PipeManager.canvasWidth
                    (GameStateManager.pipeManager Scenario.crashed)
                  - JS.int (2 * (Z.of_nat 38 - 1)))
    by (apply (bool_decide_unpack _); vm_compute; exact I).
  assert (Hair : forall k, (1 <= k < 38)%nat ->
                   Bird.isGrounded (JS.int 568) (fall k) = false).
  { intros k Hk.
    do 38 (destruct k as [|k]; [first [lia | vm_compute; reflexivity]|]). lia. }
  assert (Hland : Bird.isGrounded (JS.int 568) (fall 38%nat) = true)
    by (vm_compute; reflexivity).
  split_and!; [exact Hw | exact Hair | exact Hland |].
  exact (proj1 (proj2 (idle_game_ends_on_the_ground (JS.int 568)
                         (fun _ => Scenario.frame0) Scenario.crashed 38
                         Hw Hair Hland ltac:(lia)))).
Defined.
